(** * Voice agent tester: event broker, step executor and provider import

    A shallow embedding of [src/provider-import.js],
    [src/voice-agent-tester.js] and the parameter parsing and run list of
    [index.js], followed by the properties of the specification that concern
    them and by further properties of the code.

    Asynchronous JavaScript is modelled by explicit state passing.  Everything
    the outside world does (the page publishing an event, a timer firing, an
    awaited call completing) is an item of a script that the host code
    consumes in order, so a run of the program is a function of its script. *)

From Stdlib Require Import ZArith Ascii String List Bool Lia OrdersEx.
From stdpp Require Import base option list gmap strings pretty.
Import ListNotations.

Local Open Scope string_scope.
Local Open Scope list_scope.
Local Open Scope Z_scope.

(* ===================================================================== *)
(** * provider-import.js *)
(* ===================================================================== *)

Module ProviderImport.

Definition SUPPORTED_PROVIDERS : list string := ["vapi"; "elevenlabs"; "retell"].

(** ** The remote API as seen through [fetch] *)

(** A settled [fetch]: either the promise rejects (a network error) or a
    response arrives.  [text] and [json] are what [response.text()] and
    [response.json()] produce; [None] means that reading the body rejects
    (the message of that rejection is not modelled: where it is logged, the
    model writes ["body"]). *)
Record Response (B : Type) : Type := mkResponse {
  status : Z;
  text : option string;
  json : option B
}.
Arguments mkResponse {B} _ _ _.
Arguments status {B} _.
Arguments text {B} _.
Arguments json {B} _.

Inductive FetchResult (B : Type) : Type :=
| NetworkError (message : string)
| HttpResponse (r : Response B).
Arguments NetworkError {B} _.
Arguments HttpResponse {B} _.

(** [response.ok] of the Fetch standard: the status is in the range 200-299. *)
Definition ok {B} (r : Response B) : bool :=
  (200 <=? status r) && (status r <=? 299).

Record SecretData := mkSecretData {
  secret_id : string;
  secret_identifier : string
}.

Record ImportMetadata := mkImportMetadata {
  import_id : option string;      (* [None] is [undefined] *)
  imported_at : option string
}.

Record Assistant := mkAssistant {
  id : string;
  name : option string;
  import_metadata : option ImportMetadata
}.

(** What the remote side answers during one import. *)
Record Remote := mkRemote {
  date_now_secret : Z;                       (* Date.now() naming the secret *)
  secret_reply : FetchResult SecretData;
  import_reply : FetchResult (option (list Assistant));   (* importData.data *)
  date_now_check : Z;                        (* Date.now() in the reuse check *)
  iso_now : string;                          (* new Date().toISOString() *)
  configure_reply : nat -> FetchResult unit  (* answer to attempt n *)
}.

(** ** Observable effects *)

Inductive Effect :=
| CreateSecretRequest (identifier token : string)
| ImportRequest (provider api_key_ref : string) (import_ids : list (option string))
| ConfigureRequest (assistantId newName : string)
| Sleep (ms : Z)
| LogConfigured (newName : string)
| LogRetry404 (delay : Z) (attempt : nat)
| LogRetryNetwork (delay : Z) (attempt : nat)
| WarnCouldNotConfigure (assistantId : string) (status : Z)
| WarnErrorConfiguring (assistantId : string) (message : string)
| LogReused (assistantId : string)
| LogImported (assistantId : string)
| ErrorFailedToImport (provider : string).

Inductive ImportError :=
| UnsupportedProvider (provider : string)
| SecretFailed (status : Z) (errorText : string)
| ImportApiFailed (status : Z) (errorText : string)
| NoAssistantImported (assistantId : option string)
| ImportMismatch (requested got : option string)
| FetchRejected (message : string)
| BodyRejected.

Record ImportedRef := mkImportedRef {
  ref_id : string;
  ref_name : option string;
  ref_import_id : option string
}.

Record ImportResult := mkImportResult {
  assistants : list ImportedRef;
  assistantId : string
}.

(** ** configureImportedAssistant *)

Definition MAX_RETRIES : nat := 5.
Definition INITIAL_DELAY_MS : Z := 500.

(** [INITIAL_DELAY_MS * Math.pow(2, attempt - 1)] *)
Definition backoff (attempt : nat) : Z :=
  INITIAL_DELAY_MS * 2 ^ (Z.of_nat attempt - 1).

(** [s.replace(/[:.]/g, '-')] *)
Fixpoint dash_colons_dots (s : string) : string :=
  match s with
  | EmptyString => EmptyString
  | String c rest =>
      String (if (Ascii.eqb c ":"%char || Ascii.eqb c "."%char)%bool then "-"%char else c)
             (dash_colons_dots rest)
  end.

(** [s.slice(0, n)] *)
Fixpoint slice0 (n : nat) (s : string) : string :=
  match n, s with
  | S n', String c rest => String c (slice0 n' rest)
  | _, _ => EmptyString
  end.

(** A string that is neither [undefined] nor empty. *)
Definition nonempty (s : option string) : bool :=
  match s with
  | Some (String _ _) => true
  | _ => false
  end.

Definition configuredName (assistantName : option string) (provider : string)
    (iso : string) : string :=
  let timestamp := slice0 19 (dash_colons_dots iso) in
  let providerLabel := if nonempty (Some provider) then "_" +:+ provider else "" in
  (match assistantName with
   | Some (String c r) => String c r
   | _ => "Imported"
   end) +:+ providerLabel +:+ "_" +:+ timestamp.

(** The body of the [for (attempt = 1; attempt <= MAX_RETRIES; attempt++)]
    loop, iterated.  [fuel] bounds the number of iterations; the loop leaves
    through its own condition as soon as [fuel] exceeds [MAX_RETRIES]. *)
Fixpoint configure_loop (fuel attempt : nat) (assistantId newName : string)
    (reply : nat -> FetchResult unit) : bool * list Effect :=
  match fuel with
  | O => (false, [])
  | S fuel' =>
      if (attempt <=? MAX_RETRIES)%nat then
        let request := ConfigureRequest assistantId newName in
        (* the [catch (error)] block of the loop body *)
        let on_throw (message : string) :=
          if (attempt <? MAX_RETRIES)%nat then
            let delay := backoff attempt in
            let '(b, t) := configure_loop fuel' (S attempt) assistantId newName reply in
            (b, request :: LogRetryNetwork delay attempt :: Sleep delay :: t)
          else
            (false, [request; WarnErrorConfiguring assistantId message]) in
        match reply attempt with
        | NetworkError message => on_throw message
        | HttpResponse r =>
            if ok r then (true, [request; LogConfigured newName])
            else if (status r =? 404) && (attempt <? MAX_RETRIES)%nat then
              let delay := backoff attempt in
              let '(b, t) := configure_loop fuel' (S attempt) assistantId newName reply in
              (b, request :: LogRetry404 delay attempt :: Sleep delay :: t)
            else
              match text r with
              | Some _ => (false, [request; WarnCouldNotConfigure assistantId (status r)])
              | None => on_throw "body"
              end
        end
      else (false, [])
  end.

Definition configureImportedAssistant (w : Remote) (assistantId : string)
    (assistantName : option string) (provider : string) : bool * list Effect :=
  configure_loop (S MAX_RETRIES) 1 assistantId
    (configuredName assistantName provider (iso_now w)) (configure_reply w).

(** ** importAssistantsFromProvider *)

Section Workflow.

(** [new Date(s).getTime()]; [None] is [NaN]. *)
Context (parseDate : string -> option Z).

(** [importedAt && (Date.now() - new Date(importedAt).getTime() > 60000)] *)
Definition isReused (now : Z) (importedAt : option string) : bool :=
  match importedAt with
  | Some s =>
      nonempty importedAt &&
      match parseDate s with
      | Some t => 60000 <? now - t
      | None => false
      end
  | None => false
  end.

Definition createIntegrationSecret (w : Remote) (identifier token : string)
  : (ImportError + SecretData) * list Effect :=
  let request := CreateSecretRequest identifier token in
  match secret_reply w with
  | NetworkError m => (inl (FetchRejected m), [request])
  | HttpResponse r =>
      if ok r then
        match json r with
        | Some d => (inr d, [request])
        | None => (inl BodyRejected, [request])
        end
      else
        match text r with
        | Some errorText => (inl (SecretFailed (status r) errorText), [request])
        | None => (inl BodyRejected, [request])
        end
  end.

Definition importAssistantsFromProvider (w : Remote)
    (provider providerApiKey : string) (requested : option string)
  : (ImportError + ImportResult) * list Effect :=
  if negb (bool_decide (provider ∈ SUPPORTED_PROVIDERS)) then
    (inl (UnsupportedProvider provider), [])
  else
    (* the [catch] block logs and rethrows *)
    let failed (e : ImportError) (t : list Effect) :=
      (inl e, t ++ [ErrorFailedToImport provider]) in
    let secretIdentifier := provider +:+ "_import_" +:+ pretty (date_now_secret w) in
    match createIntegrationSecret w secretIdentifier providerApiKey with
    | (inl e, t) => failed e t
    | (inr secret, t) =>
        let t := t ++ [ImportRequest provider (secret_identifier secret) [requested]] in
        match import_reply w with
        | NetworkError m => failed (FetchRejected m) t
        | HttpResponse r =>
            if negb (ok r) then
              match text r with
              | Some errorText => failed (ImportApiFailed (status r) errorText) t
              | None => failed BodyRejected t
              end
            else
              match json r with
              | None => failed BodyRejected t
              | Some data =>
                  match default [] data with
                  | [] => failed (NoAssistantImported requested) t
                  | importedAssistant :: _ =>
                      let importId := import_metadata importedAssistant ≫= import_id in
                      if negb (bool_decide (importId = requested)) then
                        failed (ImportMismatch requested importId) t
                      else
                        let importedAt := import_metadata importedAssistant ≫= imported_at in
                        let t :=
                          if isReused (date_now_check w) importedAt then
                            t ++ [LogReused (id importedAssistant)]
                          else
                            t ++ [LogImported (id importedAssistant)]
                              ++ snd (configureImportedAssistant w (id importedAssistant)
                                        (name importedAssistant) provider) in
                        (inr {| assistants :=
                                  [ {| ref_id := id importedAssistant;
                                       ref_name := name importedAssistant;
                                       ref_import_id := importId |} ];
                                assistantId := id importedAssistant |}, t)
                  end
              end
        end
    end.

End Workflow.

(** ** Vocabulary of the properties *)

Definition is_request (e : Effect) : bool :=
  match e with
  | ConfigureRequest _ _ => true
  | _ => false
  end.

Definition is_warning (e : Effect) : bool :=
  match e with
  | WarnCouldNotConfigure _ _ | WarnErrorConfiguring _ _ => true
  | _ => false
  end.

(** The configuration requests sent, and the delays slept, in order. *)
Definition requests (t : list Effect) : nat := length (filter (fun e => is_request e = true) t).
Definition warnings (t : list Effect) : nat := length (filter (fun e => is_warning e = true) t).

Fixpoint sleeps (t : list Effect) : list Z :=
  match t with
  | [] => []
  | Sleep ms :: rest => ms :: sleeps rest
  | _ :: rest => sleeps rest
  end.

Definition succeeds (r : FetchResult unit) : bool :=
  match r with
  | HttpResponse r => ok r
  | NetworkError _ => false
  end.

(** A failed attempt that the loop repeats while attempts remain: a 404
    response, or an exception in the [try] block (the request rejects, or the
    body of a failed response cannot be read). *)
Definition retryable (r : FetchResult unit) : bool :=
  match r with
  | NetworkError _ => true
  | HttpResponse r =>
      negb (ok r) && ((status r =? 404) || negb (bool_decide (is_Some (text r))))
  end.

(** The attempt at which the loop stops: the first one, from [attempt] on,
    that is not a retryable failure, and at the latest the last of [n] more. *)
Fixpoint last_attempt_from (n attempt : nat) (reply : nat -> FetchResult unit) : nat :=
  match n with
  | O => attempt
  | S n' =>
      if retryable (reply attempt) then last_attempt_from n' (S attempt) reply
      else attempt
  end.

Definition last_attempt (reply : nat -> FetchResult unit) : nat :=
  last_attempt_from (MAX_RETRIES - 1) 1 reply.

(** The secret of a successful secret creation, and the assistants of a
    successful import response. *)
Definition created_secret (w : Remote) : option SecretData :=
  match secret_reply w with
  | HttpResponse r => if ok r then json r else None
  | NetworkError _ => None
  end.

Definition imported (w : Remote) : option (list Assistant) :=
  match import_reply w with
  | HttpResponse r => if ok r then default [] <$> json r else None
  | NetworkError _ => None
  end.

Definition importId_of (a : Assistant) : option string := import_metadata a ≫= import_id.
Definition importedAt_of (a : Assistant) : option string := import_metadata a ≫= imported_at.

(** ** enableWebCalls *)

(** A JSON value; an object is a finite map of its fields. *)
#[warnings="-register-all"]
Inductive Json :=
| JNull
| JBool (b : bool)
| JNumber (z : Z)
| JString (s : string)
| JObject (fields : gmap string Json).

(** What [enableWebCalls] reads of the assistant it is given: the two
    settings objects, [None] when the field is absent. *)
Record AssistantSettings := mkAssistantSettings {
  telephony_settings : option (gmap string Json);
  widget_settings : option (gmap string Json)
}.

Definition DEFAULT_WIDGET_SETTINGS : gmap string Json :=
  list_to_map
    [("theme", JString "dark");
     ("audio_visualizer_config",
      JObject (list_to_map [("color", JString "verdant"); ("preset", JString "roundBars")]));
     ("start_call_text", JString "");
     ("default_state", JString "expanded");
     ("position", JString "fixed");
     ("view_history_url", JNull);
     ("report_issue_url", JNull);
     ("give_feedback_url", JNull);
     ("agent_thinking_text", JString "");
     ("speak_to_interrupt_text", JString "");
     ("logo_icon_url", JNull)].

(** The body of the request: [{telephony_settings, widget_settings}]. *)
Record WebCallsBody := mkWebCallsBody {
  body_telephony_settings : gmap string Json;
  body_widget_settings : gmap string Json
}.

Definition webCallsBody (assistant : option AssistantSettings) : WebCallsBody :=
  (* {...(assistant?.telephony_settings || {}), supports_unauthenticated_web_calls: true} *)
  let telephonySettings :=
    <["supports_unauthenticated_web_calls" := JBool true]>
      (default ∅ (assistant ≫= telephony_settings)) in
  match assistant ≫= widget_settings with
  | Some settings =>
      if (0 <? size settings)%nat then mkWebCallsBody telephonySettings settings
      else mkWebCallsBody telephonySettings DEFAULT_WIDGET_SETTINGS
  | None => mkWebCallsBody telephonySettings DEFAULT_WIDGET_SETTINGS
  end.

Inductive WebCallsEffect :=
| LogEnabling (assistantId : string)
| EnableRequest (assistantId : string) (body : WebCallsBody)
| LogEnabled.

Inductive WebCallsError :=
| EnableFailed (status : Z) (errorText : string)   (* "Failed to enable web calls: ..." *)
| EnableFetchRejected (message : string)
| EnableBodyRejected.

Definition enableWebCalls (reply : FetchResult unit) (assistantId : string)
    (assistant : option AssistantSettings) : (WebCallsError + bool) * list WebCallsEffect :=
  let sent := [LogEnabling assistantId; EnableRequest assistantId (webCallsBody assistant)] in
  match reply with
  | NetworkError m => (inl (EnableFetchRejected m), sent)
  | HttpResponse r =>
      if negb (ok r) then
        match text r with
        | Some errorText => (inl (EnableFailed (status r) errorText), sent)
        | None => (inl EnableBodyRejected, sent)
        end
      else (inr true, sent ++ [LogEnabled])
  end.

(** The assistant as the API holds it once it has applied a body. *)
Definition applied (body : WebCallsBody) : AssistantSettings :=
  mkAssistantSettings (Some (body_telephony_settings body)) (Some (body_widget_settings body)).

(** ** Vocabulary of further properties *)

Definition is_secret_or_import (e : Effect) : bool :=
  match e with
  | CreateSecretRequest _ _ | ImportRequest _ _ _ => true
  | _ => false
  end.

Fixpoint has_char (c : ascii) (s : string) : bool :=
  match s with
  | EmptyString => false
  | String c' rest => Ascii.eqb c c' || has_char c rest
  end.

(** The effects of [configureImportedAssistant]. *)
Definition is_configuration (e : Effect) : bool :=
  match e with
  | ConfigureRequest _ _ | Sleep _ | LogConfigured _ | LogRetry404 _ _
  | LogRetryNetwork _ _ | WarnCouldNotConfigure _ _ | WarnErrorConfiguring _ _ => true
  | _ => false
  end.

(** ** Sample remote sides *)

(** A network error on the first attempt, then success. *)
Definition flaky : Remote :=
  mkRemote 0 (NetworkError "") (NetworkError "") 0 "2026-01-02T03:04:05.678Z"
    (fun n => match n with
              | 1%nat => NetworkError "socket hang up"
              | _ => HttpResponse (mkResponse 200 (Some "") (Some tt))
              end).

(** A remote side that answers the import of "wanted" with another assistant. *)
Definition substituted : Remote :=
  mkRemote 1700000000000
    (HttpResponse (mkResponse 201 (Some "") (Some (mkSecretData "s1" "vapi_import_1700000000000"))))
    (HttpResponse (mkResponse 200 (Some "")
       (Some (Some [mkAssistant "t-9" (Some "Other")
                      (Some (mkImportMetadata (Some "other") None))]))))
    1700000001000 "2026-01-02T03:04:05.678Z"
    (fun _ => HttpResponse (mkResponse 200 (Some "") (Some tt))).

(** A remote side that answers with the requested assistant, imported one
    second before the check, and whose configuration endpoint keeps failing. *)
Definition just_imported : Remote :=
  mkRemote 1700000000000
    (HttpResponse (mkResponse 201 (Some "") (Some (mkSecretData "s1" "vapi_import_1700000000000"))))
    (HttpResponse (mkResponse 200 (Some "")
       (Some (Some [mkAssistant "t-1" (Some "Agent")
                      (Some (mkImportMetadata (Some "wanted") (Some "2023-11-14T22:13:20Z")))]))))
    1700000001000 "2026-01-02T03:04:05.678Z"
    (fun _ => HttpResponse (mkResponse 500 (Some "boom") None)).

End ProviderImport.

(* ===================================================================== *)
(** * voice-agent-tester.js *)
(* ===================================================================== *)

Module VoiceAgentTester.

(** ** Events, errors and promises *)

(** The payload the page hands to [__publishEvent]. *)
Record EventData := mkEventData {
  elementId : option string;
  audioData : string;
  mimeType : string;
  sampleRate : Z;
  channels : Z;
  bitsPerSample : Z
}.

Record Event := mkEvent {
  eventType : string;
  data : option EventData;
  timestamp : Z
}.

(** The [audioMetadata] that [handleListen] builds from the payload of the
    "recordingcomplete" event. *)
Record AudioMetadata := mkAudioMetadata {
  am_mimeType : string;
  am_sampleRate : Z;
  am_channels : Z;
  am_bitsPerSample : Z
}.

Definition audioMetadata (d : EventData) : AudioMetadata :=
  mkAudioMetadata (mimeType d) (sampleRate d) (channels d) (bitsPerSample d).

(** What [collectDiagnostics] reads from the page. *)
Record Diagnostics := mkDiagnostics {
  audioMonitorAvailable : bool;
  audioContextState : option string;
  monitoredElementsCount : Z;
  monitoredElements : list string;
  connectionCount : option Z
}.

(** The lines that follow the first line of a timeout message. *)
Inductive TimeoutDetail :=
| NoDetail                         (* debug is off *)
| Snapshot (d : Diagnostics)       (* the diagnostics, formatted *)
| CouldNotCollect.                 (* "(Could not collect browser diagnostics)" *)

Inductive Error :=
| TimeoutError (eventType : string) (timeout : Z) (detail : TimeoutDetail)
| QueueCleared (eventType : string)   (* "Event queue cleared while waiting for T" *)
| BrowserClosed (eventType : string)  (* "Browser closed while waiting for T" *)
| BrowserNotLaunched                  (* "Browser not launched. Call launch() first." *)
| Thrown (message : string)           (* [throw new Error(message)] in host code *)
| External (message : string).        (* an awaited collaborator rejects *)

Inductive PromiseState :=
| Pending
| Fulfilled (e : Event)
| Rejected (err : Error).

(** Function values are compared by identity.  The promise made by the
    [k]-th call of [waitForAudioEvent] has the executor argument
    [ExecutorResolve k]; the closure [wrappedResolve] built in that call is
    [WrappedResolve k]. *)
Inductive Fn :=
| ExecutorResolve (p : nat)
| WrappedResolve (p : nat).

Definition Fn_eqb (f g : Fn) : bool :=
  match f, g with
  | ExecutorResolve a, ExecutorResolve b => Nat.eqb a b
  | WrappedResolve a, WrappedResolve b => Nat.eqb a b
  | _, _ => false
  end.

(** An element of a [pendingPromises] array: [{resolve, reject, timeoutId}]. *)
Record Waiter := mkWaiter {
  resolve : Fn;
  reject : nat;        (* the executor's [reject] of that promise *)
  timeoutId : nat
}.

Inductive TimerPhase :=
| Armed          (* setTimeout pending *)
| Collecting     (* the handler runs and is at [await collectDiagnostics()] *)
| Finished.      (* fired and completed, or cleared *)

(** One call of [waitForAudioEvent]: its promise, its timeout and its
    diagnostic interval.  The [k]-th call owns promise, timeout and interval
    number [k]. *)
Record Wait := mkWait {
  w_eventType : string;
  w_timeout : Z;
  w_deadline : Z;            (* Date.now() at the call, plus the delay of the timer *)
  w_state : PromiseState;
  w_timer : TimerPhase;
  w_interval : bool          (* diagnosticIntervalId is set and not cleared *)
}.

(** ** Collaborators *)

(** An element of the array that [getInstalledBrowsers] returns. *)
Record InstalledBrowser := mkInstalledBrowser {
  ib_browser : string;
  buildId : string;
  executablePath : string
}.

(** [a.buildId < b.buildId]: strings are compared code unit by code unit. *)
Definition buildId_lt (a b : InstalledBrowser) : bool :=
  match String_as_OT.compare (buildId a) (buildId b) with
  | Lt => true
  | _ => false
  end.

(** [sort((a, b) => a.buildId < b.buildId ? 1 : a.buildId > b.buildId ? -1 : 0)]:
    descending, and stable as every [sort] of the language is, so that the
    result is what inserting the elements from left to right gives, each one
    behind those that are not smaller. *)
Fixpoint insertDescending (b : InstalledBrowser) (sorted : list InstalledBrowser)
  : list InstalledBrowser :=
  match sorted with
  | [] => [b]
  | x :: rest => if buildId_lt x b then b :: sorted else x :: insertDescending b rest
  end.

Definition sortDescending (browsers : list InstalledBrowser) : list InstalledBrowser :=
  foldl (fun sorted b => insertDescending b sorted) [] browsers.

(** [browsers.filter(b => b.browser === 'chrome').sort(...).at(0).executablePath];
    [None] is the TypeError of reading a property of [undefined]. *)
Definition chromeExecutablePath (browsers : list InstalledBrowser) : option string :=
  executablePath
    <$> head (sortDescending (filter (fun b => ib_browser b = "chrome") browsers)).

Inductive Value :=
| VUndefined
| VString (s : string)
| VNumber (z : Z)
| VBool (b : bool)
| VFiles (l : list string)
| VBrowsers (l : list InstalledBrowser)
| VElementInfo (tagName : string) (type : option string) (multiple : bool)
| VEvaluation (score : Z) (explanation : string).

Inductive ExternalCall :=
| GetInstalledBrowsers
| LaunchWithStream (path : string)   (* [launchOptions.executablePath] *)
| PuppeteerLaunch
| BrowserVersion
| ClearPermissionOverrides
| OverridePermissions (url : string)
| NewPage
| ExposeFunction (name : string)
| GetStream
| CloseRecordingFile
| EvaluateOnNewDocument (content : string)
| Glob
| Goto (url : string)
| WaitForNetworkIdle
| SetTimeout (ms : Z)
| WaitForSelector (selector : string)
| Click (selector : string)
| Focus (selector : string)
| TypeInto (selector text : string)
| EvalFill (selector text : string)
| EvalElementInfo (selector : string)
| EvalChecked (selector : string)
| SelectValues (selector : string) (values : list string)
| EvalSelectByText (selector text : string)
| EvalCustomOption (selector text : string)
| Screenshot (path : string)
| EvalSpeakFromUrl (file : string)
| EvalSpeak (text : string)
| EvalStartRecording
| EvalStopRecording
| SaveAudioAsWAV (base64Audio : string) (audioMetadata : AudioMetadata)
| TranscribeAudio (audioFilePath : Value)
| EvaluateTranscription (transcription : Value) (evaluation : string)
| EvalStartAudioFromUrl (url : string)
| EvalStopAudioFromUrl
| BrowserClose
| WssClose.

(** What the host prints or hands to a collaborator, in order. *)
Inductive Output :=
| LogPublished (eventType : string) (elementId : option string)
| Waiting (eventType : string) (timeout : Z)   (* history: a wait was registered *)
| Call (c : ExternalCall)
| LogLine (line : string)
| LogValue (line : string) (v : Value)
| LogExecutingStep (number : nat) (action : string)
| LogUnknownAction (action : string)
| LogElapsed (ms : Z)
| ErrorExecutingStep (number : nat) (action : string) (shortMessage : Error)
| ErrorDuringScenario (shortMessage : Error)
| ErrorLine (line : string) (err : Error)
| WarnLine (line : string) (err : Error)
| BeginRun (app scenario : string) (repetition : Z)
| RecordStepMetric (app scenario : string) (repetition : Z) (stepIndex : nat)
    (action metricName : string) (value : Value)
| EndRun (app scenario : string) (repetition : Z) (success : bool).

(** Everything that reaches the host from outside, in order of arrival. *)
Inductive Incoming :=
| Publish (eventType : string) (data : option EventData)  (* the page calls __publishEvent *)
| Tick (dt : Z)                                           (* time passes *)
| TimerFires (tid : nat)                                  (* the runtime runs a due timeout *)
| DiagnosticsDone (tid : nat) (d : option Diagnostics)    (* collectDiagnostics returns *)
| Reply (r : Error + Value).                              (* the awaited call settles *)

(** ** The tester object *)

Record Options := mkOptions {
  verbose : bool;
  headless : bool;
  debug : bool;
  record : bool;
  reportGenerator : bool;        (* a report generator was supplied *)
  audioUrl : option string
}.

(** What [fs] answers. *)
Record Disk := mkDisk {
  dirname : string;              (* __dirname, the folder of the module *)
  assetFiles : list string;      (* the files of the assets folder *)
  jsFolderExists : bool
}.

Record Tester := mkTester {
  options : Options;
  disk : Disk;
  browser : bool;                (* this.browser is not null *)
  page : bool;                   (* this.page is not null *)
  recordingStream : bool;        (* this.recordingStream is not null *)
  pendingPromises : gmap string (list Waiter);
  waits : list Wait;
  now : Z;                       (* Date.now() *)
  trace : list Output;
  script : list Incoming
}.

Definition set_browser (b : bool) (s : Tester) : Tester :=
  mkTester (options s) (disk s) b (page s) (recordingStream s)
    (pendingPromises s) (waits s) (now s) (trace s) (script s).
Definition set_page (b : bool) (s : Tester) : Tester :=
  mkTester (options s) (disk s) (browser s) b (recordingStream s)
    (pendingPromises s) (waits s) (now s) (trace s) (script s).
Definition set_recordingStream (b : bool) (s : Tester) : Tester :=
  mkTester (options s) (disk s) (browser s) (page s) b
    (pendingPromises s) (waits s) (now s) (trace s) (script s).
Definition set_pendingPromises (m : gmap string (list Waiter)) (s : Tester) : Tester :=
  mkTester (options s) (disk s) (browser s) (page s) (recordingStream s)
    m (waits s) (now s) (trace s) (script s).
Definition set_waits (l : list Wait) (s : Tester) : Tester :=
  mkTester (options s) (disk s) (browser s) (page s) (recordingStream s)
    (pendingPromises s) l (now s) (trace s) (script s).
Definition set_now (t : Z) (s : Tester) : Tester :=
  mkTester (options s) (disk s) (browser s) (page s) (recordingStream s)
    (pendingPromises s) (waits s) t (trace s) (script s).
Definition emit (o : Output) (s : Tester) : Tester :=
  mkTester (options s) (disk s) (browser s) (page s) (recordingStream s)
    (pendingPromises s) (waits s) (now s) (trace s ++ [o]) (script s).
Definition set_script (l : list Incoming) (s : Tester) : Tester :=
  mkTester (options s) (disk s) (browser s) (page s) (recordingStream s)
    (pendingPromises s) (waits s) (now s) (trace s) l.

(** [new VoiceAgentTester(options)] *)
Definition construct (o : Options) (d : Disk) (t : Z) (incoming : list Incoming) : Tester :=
  mkTester o d false false false ∅ [] t [] incoming.

(** ** Promises and timers *)

Definition update_wait (k : nat) (f : Wait -> Wait) (s : Tester) : Tester :=
  match waits s !! k with
  | Some w => set_waits (<[k := f w]> (waits s)) s
  | None => s
  end.

Definition with_state (st : PromiseState) (w : Wait) : Wait :=
  mkWait (w_eventType w) (w_timeout w) (w_deadline w) st (w_timer w) (w_interval w).
Definition with_timer (ph : TimerPhase) (w : Wait) : Wait :=
  mkWait (w_eventType w) (w_timeout w) (w_deadline w) (w_state w) ph (w_interval w).
Definition with_interval (b : bool) (w : Wait) : Wait :=
  mkWait (w_eventType w) (w_timeout w) (w_deadline w) (w_state w) (w_timer w) b.

(** Settling a promise that is already settled does nothing. *)
Definition settle (st : PromiseState) (w : Wait) : Wait :=
  match w_state w with
  | Pending => with_state st w
  | _ => w
  end.

Definition state_of (p : nat) (s : Tester) : option PromiseState :=
  w_state <$> waits s !! p.

(** Calling the executor's [reject]. *)
Definition call_reject (p : nat) (err : Error) (s : Tester) : Tester :=
  update_wait p (settle (Rejected err)) s.

Definition clearInterval (p : nat) (s : Tester) : Tester :=
  update_wait p (with_interval false) s.

(** Calling a stored [resolve]: [wrappedResolve] clears the diagnostic
    interval and then calls the executor's [resolve]. *)
Definition call_resolve (f : Fn) (e : Event) (s : Tester) : Tester :=
  match f with
  | ExecutorResolve p => update_wait p (settle (Fulfilled e)) s
  | WrappedResolve p => update_wait p (settle (Fulfilled e)) (clearInterval p s)
  end.

(** [clearTimeout]: a timeout whose handler already runs is not affected. *)
Definition clearTimeout (tid : nat) (s : Tester) : Tester :=
  update_wait tid (fun w => match w_timer w with
                            | Armed => with_timer Finished w
                            | _ => w
                            end) s.

(** ** waitForAudioEvent: the promise executor *)

(** The delay that [setTimeout(handler, ms)] arms: the runtime replaces a
    delay below 1 or above [2^31 - 1] by 1. *)
Definition TIMEOUT_MAX : Z := 2147483647.

Definition timerDelay (ms : Z) : Z :=
  if (1 <=? ms) && (ms <=? TIMEOUT_MAX) then ms else 1.

(** Runs synchronously inside [new Promise(...)]; the result is the number of
    the promise that the caller then awaits. *)
Definition registerWaiter (eventType : string) (timeout : Z) (s : Tester) : nat * Tester :=
  let p := length (waits s) in
  let w := mkWait eventType timeout (now s + timerDelay timeout) Pending Armed
             (debug (options s)) in
  let entry := mkWaiter (WrappedResolve p) p p in
  let queue := default [] (pendingPromises s !! eventType) in
  (p, emit (Waiting eventType timeout)
        (set_pendingPromises (<[eventType := queue ++ [entry]]> (pendingPromises s))
           (set_waits (waits s ++ [w]) s))).

(** [promises.findIndex(p => p.resolve === resolve)] *)
Fixpoint findIndex (f : Fn) (promises : list Waiter) : option nat :=
  match promises with
  | [] => None
  | w :: rest => if Fn_eqb (resolve w) f then Some O else S <$> findIndex f rest
  end.

(** [promises.splice(index, 1)] *)
Definition splice1 (index : nat) (promises : list Waiter) : list Waiter :=
  take index promises ++ drop (S index) promises.

(** The callback given to [setTimeout], up to its [await collectDiagnostics()]
    (debug with a page) or up to its end. *)
Definition timeoutHandler (tid : nat) (w : Wait) (s : Tester) : Tester :=
  let s := clearInterval tid s in
  let eventType := w_eventType w in
  let s :=
    match pendingPromises s !! eventType with
    | Some promises =>
        match findIndex (ExecutorResolve tid) promises with
        | Some index =>
            let promises := splice1 index promises in
            match promises with
            | [] => set_pendingPromises (delete eventType (pendingPromises s)) s
            | _ => set_pendingPromises (<[eventType := promises]> (pendingPromises s)) s
            end
        | None => s
        end
    | None => s
    end in
  if debug (options s) then
    if page s then update_wait tid (with_timer Collecting) s
    else call_reject tid (TimeoutError eventType (w_timeout w) CouldNotCollect)
           (update_wait tid (with_timer Finished) s)
  else call_reject tid (TimeoutError eventType (w_timeout w) NoDetail)
         (update_wait tid (with_timer Finished) s).

(** The runtime runs the timeout [tid]: never before the delay of its timer
    has passed. *)
Definition timerFires (tid : nat) (s : Tester) : Tester :=
  match waits s !! tid with
  | Some w =>
      match w_timer w with
      | Armed => timeoutHandler tid w (set_now (Z.max (now s) (w_deadline w)) s)
      | _ => s
      end
  | None => s
  end.

(** The rest of the timeout callback, after [collectDiagnostics] returned. *)
Definition diagnosticsDone (tid : nat) (d : option Diagnostics) (s : Tester) : Tester :=
  match waits s !! tid with
  | Some w =>
      match w_timer w with
      | Collecting =>
          call_reject tid
            (TimeoutError (w_eventType w) (w_timeout w)
               (match d with Some x => Snapshot x | None => CouldNotCollect end))
            (update_wait tid (with_timer Finished) s)
      | _ => s
      end
  | None => s
  end.

(** ** __publishEvent *)

Definition publishEvent (eventType : string) (data : option EventData) (s : Tester) : Tester :=
  let event := mkEvent eventType data (now s) in
  let s := emit (LogPublished eventType (data ≫= elementId)) s in
  match pendingPromises s !! eventType with
  | Some (first :: rest) =>
      let s := clearTimeout (timeoutId first) s in
      let s :=
        match rest with
        | [] => set_pendingPromises (delete eventType (pendingPromises s)) s
        | _ => set_pendingPromises (<[eventType := rest]> (pendingPromises s)) s
        end in
      call_resolve (resolve first) event s
  | _ => s
  end.

(** ** clearAudioEventQueue and the same loop in close *)

Definition rejectWaiter (err : Error) (s : Tester) (w : Waiter) : Tester :=
  call_reject (reject w) err (clearTimeout (timeoutId w) s).

Definition rejectQueue (mkErr : string -> Error) (s : Tester)
    (entry : string * list Waiter) : Tester :=
  foldl (rejectWaiter (mkErr entry.1)) s entry.2.

Definition rejectAllPending (mkErr : string -> Error) (s : Tester) : Tester :=
  set_pendingPromises ∅
    (foldl (rejectQueue mkErr) s (map_to_list (pendingPromises s))).

Definition clearAudioEventQueue (s : Tester) : Tester :=
  rejectAllPending QueueCleared s.

(** ** Delivery of one incoming item to the broker *)

Definition deliver (i : Incoming) (s : Tester) : Tester :=
  match i with
  | Publish eventType data => publishEvent eventType data s
  | Tick dt => set_now (now s + Z.max 0 dt) s
  | TimerFires tid => timerFires tid s
  | DiagnosticsDone tid d => diagnosticsDone tid d s
  | Reply _ => s
  end.

(** ** Asynchronous host code *)

Inductive Outcome (A : Type) : Type :=
| Ok (a : A)            (* the promise fulfils *)
| Err (e : Error)       (* the promise rejects *)
| Suspended.            (* the script ended while the code was awaiting *)
Arguments Ok {A} _.
Arguments Err {A} _.
Arguments Suspended {A}.

Definition Async (A : Type) : Type := Tester -> Outcome A * Tester.

Definition ret {A} (a : A) : Async A := fun s => (Ok a, s).
Definition throw {A} (e : Error) : Async A := fun s => (Err e, s).

Definition bind {A B} (m : Async A) (k : A -> Async B) : Async B :=
  fun s =>
    match m s with
    | (Ok a, s') => k a s'
    | (Err e, s') => (Err e, s')
    | (Suspended, s') => (Suspended, s')
    end.

Declare Scope async_scope.
Delimit Scope async_scope with async.
Notation "x <- m ;; k" := (bind m (fun x => k))
  (at level 100, m at next level, right associativity) : async_scope.
Notation "m ;; k" := (bind m (fun _ => k))
  (at level 100, right associativity) : async_scope.
Local Open Scope async_scope.

(** [try { body } catch (error) { handler }] *)
Definition try_catch {A} (body : Async A) (handler : Error -> Async A) : Async A :=
  fun s =>
    match body s with
    | (Err e, s') => handler e s'
    | r => r
    end.

(** [try { body } finally { finalizer }]: a finalizer that throws replaces the
    outcome of the body. *)
Definition try_finally {A} (body : Async A) (finalizer : Outcome A -> Async unit) : Async A :=
  fun s =>
    match body s with
    | (Suspended, s') => (Suspended, s')
    | (r, s') =>
        match finalizer r s' with
        | (Ok _, s'') => (r, s'')
        | (Err e, s'') => (Err e, s'')
        | (Suspended, s'') => (Suspended, s'')
        end
    end.

Definition console (o : Output) : Async unit := fun s => (Ok tt, emit o s).
Definition read {A} (f : Tester -> A) : Async A := fun s => (Ok (f s), s).
Definition modify (f : Tester -> Tester) : Async unit := fun s => (Ok tt, f s).
Definition when (b : bool) (m : Async unit) : Async unit := if b then m else ret tt.

(** Awaiting a collaborator: incoming items are delivered to the broker until
    the reply arrives. *)
Fixpoint await_reply (incoming : list Incoming) (s : Tester) : Outcome Value * Tester :=
  match incoming with
  | [] => (Suspended, set_script [] s)
  | Reply (inr v) :: rest => (Ok v, set_script rest s)
  | Reply (inl e) :: rest => (Err e, set_script rest s)
  | i :: rest => await_reply rest (deliver i s)
  end.

Definition call (c : ExternalCall) : Async Value :=
  fun s => let s := emit (Call c) s in await_reply (script s) s.

(** Awaiting a promise of [waitForAudioEvent]: the continuation runs as soon
    as the promise is settled, before any further incoming item. *)
Fixpoint await_settled (p : nat) (incoming : list Incoming) (s : Tester)
  : Outcome Event * Tester :=
  match state_of p s with
  | Some (Fulfilled e) => (Ok e, set_script incoming s)
  | Some (Rejected err) => (Err err, set_script incoming s)
  | _ =>
      match incoming with
      | [] => (Suspended, set_script [] s)
      | i :: rest => await_settled p rest (deliver i s)
      end
  end.

Definition DEFAULT_TIMEOUT : Z := 30000.

Definition waitForAudioEvent (eventType : string) (timeout : Z) : Async Event :=
  fun s => let '(p, s) := registerWaiter eventType timeout s in
           await_settled p (script s) s.

(** [this.sleep(time)] *)
Definition sleep (time : Z) : Async unit := call (SetTimeout time) ;; ret tt.

(** ** Steps *)

Record Step := mkStep {
  action : string;
  selector : option string;
  text : option string;
  file : option string;
  evaluation : option string;
  time : option Z;
  value : option string;
  values : option (list string);
  checked : option bool;
  filename : option string;
  outputDir : option string;
  metrics : option (list string)
}.

Inductive HandlerResult :=
| HUndefined
| HString (s : string)
| HObject (entries : list (string * Value)).

(** JavaScript truthiness of an optional string and of an optional number. *)
Definition truthy (s : option string) : bool :=
  match s with
  | Some (String _ _) => true
  | _ => false
  end.

Definition truthy_number (z : option Z) : bool :=
  match z with
  | Some n => negb (n =? 0)
  | None => false
  end.

Definition str (s : option string) : string := default "" s.

(** [message.split('\n')[0]] *)
Fixpoint first_line (m : string) : string :=
  match m with
  | EmptyString => EmptyString
  | String c rest => if Ascii.eqb c "010"%char then EmptyString else String c (first_line rest)
  end.

(** The first line of [error.message]: the diagnostics of a timeout start on
    the lines after it. *)
Definition shortMessage (e : Error) : Error :=
  match e with
  | TimeoutError eventType timeout _ => TimeoutError eventType timeout NoDetail
  | Thrown m => Thrown (first_line m)
  | External m => External (first_line m)
  | _ => e
  end.

(** ** Step handlers *)

Definition handleClick (step : Step) : Async HandlerResult :=
  if negb (truthy (selector step)) then throw (Thrown "No selector specified for click action")
  else
    call (WaitForSelector (str (selector step))) ;;
    call (Click (str (selector step))) ;;
    ret HUndefined.

Definition handleWaitForVoice : Async HandlerResult :=
  dbg <- read (fun s => debug (options s)) ;;
  when dbg (console (LogLine "Waiting for audio to start (AI agent response)...")) ;;
  waitForAudioEvent "audiostart" DEFAULT_TIMEOUT ;;
  when dbg (console (LogLine "Audio detected")) ;;
  ret HUndefined.

Definition handleWaitForSilence : Async HandlerResult :=
  dbg <- read (fun s => debug (options s)) ;;
  when dbg (console (LogLine "Waiting for audio to stop (silence)...")) ;;
  waitForAudioEvent "audiostop" DEFAULT_TIMEOUT ;;
  when dbg (console (LogLine "Silence detected")) ;;
  ret HUndefined.

Definition handleWait (step : Step) : Async HandlerResult :=
  if negb (truthy (selector step)) then throw (Thrown "No selector specified for wait action")
  else
    console (LogLine ("Waiting for selector: " +:+ str (selector step))) ;;
    call (WaitForSelector (str (selector step))) ;;
    ret HUndefined.

Definition handleSpeak (step : Step) : Async HandlerResult :=
  if negb (truthy (text step)) && negb (truthy (file step)) then
    throw (Thrown "No text or file specified for speak action")
  else if truthy (text step) && truthy (file step) then
    throw (Thrown "Cannot specify both text and file for speak action")
  else
    (if truthy (file step) then
       present <- read (fun s => bool_decide (str (file step) ∈ assetFiles (disk s))) ;;
       if negb present then throw (Thrown ("Audio file not found: " +:+ str (file step)))
       else call (EvalSpeakFromUrl (str (file step)))
     else call (EvalSpeak (str (text step)))) ;;
    try_catch (waitForAudioEvent "speechend" DEFAULT_TIMEOUT)
      (fun error =>
         console (ErrorLine "Timeout waiting for speech to complete:" error) ;;
         throw error) ;;
    ret HUndefined.

(** [evaluationResult.score], for a result that is not [undefined]: a value
    without that property has the score [undefined]. *)
Definition score_of (v : Value) : Value :=
  match v with
  | VEvaluation score _ => VNumber score
  | _ => VUndefined
  end.

Definition handleListen (step : Step) : Async HandlerResult :=
  if negb (truthy (evaluation step)) then
    throw (Thrown "No evaluation prompt specified for listen action")
  else
    try_catch
      (call EvalStartRecording ;;
       waitForAudioEvent "recordingstart" DEFAULT_TIMEOUT ;;
       waitForAudioEvent "audiostart" DEFAULT_TIMEOUT ;;
       waitForAudioEvent "audiostop" DEFAULT_TIMEOUT ;;
       call EvalStopRecording ;;
       recordingEvent <- waitForAudioEvent "recordingcomplete" DEFAULT_TIMEOUT ;;
       match data recordingEvent with
       | None => throw (Thrown "Cannot read properties of undefined (reading 'mimeType')")
       | Some d =>
           audioFilePath <- call (SaveAudioAsWAV (audioData d) (audioMetadata d)) ;;
           console (LogValue "Audio saved as:" audioFilePath) ;;
           transcription <- call (TranscribeAudio audioFilePath) ;;
           console (LogValue "Transcription:" transcription) ;;
           evaluationResult <-
             call (EvaluateTranscription transcription (str (evaluation step))) ;;
           match evaluationResult with
           | VUndefined =>
               throw (Thrown "Cannot read properties of undefined (reading 'score')")
           | _ =>
               console (LogValue "Evaluation result:" evaluationResult) ;;
               ret (HObject [("score", score_of evaluationResult)])
           end
       end)
      (fun error =>
         console (ErrorLine "Error in listen command:" error) ;;
         throw error).

Definition handleSleep (step : Step) : Async HandlerResult :=
  if negb (truthy_number (time step)) then throw (Thrown "No time specified for sleep action")
  else sleep (default 0 (time step)) ;; ret HUndefined.

Definition handleWaitForElement (step : Step) : Async HandlerResult :=
  if negb (truthy (selector step)) then
    throw (Thrown "No selector specified for wait_for_element action")
  else call (WaitForSelector (str (selector step))) ;; ret HUndefined.

Definition handleType (step : Step) : Async HandlerResult :=
  if negb (truthy (selector step)) then throw (Thrown "No selector specified for type action")
  else if negb (truthy (text step)) then throw (Thrown "No text specified for type action")
  else
    call (WaitForSelector (str (selector step))) ;;
    call (Focus (str (selector step))) ;;
    call (TypeInto (str (selector step)) (str (text step))) ;;
    ret HUndefined.

Definition handleFill (step : Step) : Async HandlerResult :=
  if negb (truthy (selector step)) then throw (Thrown "No selector specified for fill action")
  else
    match text step with
    | None => throw (Thrown "No text specified for fill action")
    | Some t =>
        call (WaitForSelector (str (selector step))) ;;
        call (EvalFill (str (selector step)) t) ;;
        ret HUndefined
    end.

Definition handleSelectDropdown (sel : string) (value : option string)
    (values : option (list string)) (text : option string) (isMultiple : bool) : Async unit :=
  match values with
  | Some vs =>
      if negb isMultiple then
        throw (Thrown "Cannot select multiple values on a single-select dropdown")
      else call (SelectValues sel vs) ;; ret tt
  | None =>
      match value with
      | Some v => call (SelectValues sel [v]) ;; ret tt
      | None =>
          match text with
          | Some t => call (EvalSelectByText sel t) ;; ret tt
          | None => throw (Thrown "No value, values, or text specified for select dropdown")
          end
      end
  end.

Definition handleSelectCheckbox (sel : string) (checked : option bool) : Async unit :=
  current <- call (EvalChecked sel) ;;
  let currentState := match current with VBool b => b | _ => false end in
  let targetState := default (negb currentState) checked in
  if negb (Bool.eqb currentState targetState) then call (Click sel) ;; ret tt else ret tt.

Definition handleSelectRadio (sel : string) : Async unit :=
  call (Click sel) ;; ret tt.

Definition handleSelectCustom (sel : string) (text : option string) : Async unit :=
  match text with
  | Some t => call (EvalCustomOption sel t) ;; ret tt
  | None => call (Click sel) ;; ret tt
  end.

Definition handleSelect (step : Step) : Async HandlerResult :=
  if negb (truthy (selector step)) then throw (Thrown "No selector specified for select action")
  else
    let sel := str (selector step) in
    call (WaitForSelector sel) ;;
    elementInfo <- call (EvalElementInfo sel) ;;
    match elementInfo with
    | VElementInfo tagName type multiple =>
        (if String.eqb tagName "SELECT" then
           handleSelectDropdown sel (value step) (values step) (text step) multiple
         else if String.eqb tagName "INPUT" then
           if bool_decide (type = Some "checkbox") then handleSelectCheckbox sel (checked step)
           else if bool_decide (type = Some "radio") then handleSelectRadio sel
           else throw (Thrown ("Select action not supported for input type: "
                               +:+ default "null" type))
         else handleSelectCustom sel (text step)) ;;
        ret HUndefined
    | _ => handleSelectCustom sel (text step) ;; ret HUndefined
    end.

(** [path.join], as it is on POSIX. *)

(** [path.split('/')] *)
Fixpoint segments (path : string) : list string :=
  match path with
  | EmptyString => [EmptyString]
  | String c rest =>
      if Ascii.eqb c "/"%char then EmptyString :: segments rest
      else match segments rest with
           | seg :: more => String c seg :: more
           | [] => [String c EmptyString]
           end
  end.

(** One segment more on the segments kept so far, the last one first.  An
    empty segment and "." are dropped; ".." takes back the segment before it,
    and where there is none, or ".." itself, it is kept in a relative path and
    dropped in an absolute one. *)
Definition pushSegment (allowAboveRoot : bool) (kept : list string) (seg : string)
  : list string :=
  if String.eqb seg "" || String.eqb seg "." then kept
  else if String.eqb seg ".." then
    match kept with
    | last :: before =>
        if String.eqb last ".." then (if allowAboveRoot then seg :: kept else kept)
        else before
    | [] => if allowAboveRoot then [seg] else []
    end
  else seg :: kept.

Fixpoint ends_with_slash (path : string) : bool :=
  match path with
  | EmptyString => false
  | String c EmptyString => Ascii.eqb c "/"%char
  | String _ rest => ends_with_slash rest
  end.

(** [path.normalize(path)] *)
Definition normalize (path : string) : string :=
  if String.eqb path "" then "."
  else
    let isAbsolute := String.prefix "/" path in
    let trailingSeparator := ends_with_slash path in
    let kept := foldl (pushSegment (negb isAbsolute)) [] (segments path) in
    match kept with
    | [] => if isAbsolute then "/" else if trailingSeparator then "./" else "."
    | _ =>
        (if isAbsolute then "/" else "")
        +:+ String.concat "/" (rev kept)
        +:+ (if trailingSeparator then "/" else "")
    end.

(** [path.join(...parts)] *)
Definition pathJoin (parts : list string) : string :=
  match List.filter (fun part => negb (String.eqb part "")) parts with
  | [] => "."
  | nonempty => normalize (String.concat "/" nonempty)
  end.

Definition handleScreenshot (step : Step) : Async HandlerResult :=
  has_page <- read page ;;
  if negb has_page then throw BrowserNotLaunched
  else
    t <- read now ;;
    dir <- read (fun s => dirname (disk s)) ;;
    let filename :=
      if truthy (filename step) then str (filename step)
      else "screenshot_" +:+ pretty t +:+ ".png" in
    let outputDir :=
      if truthy (outputDir step) then str (outputDir step)
      else pathJoin [dir; ".."; "output"] in
    let screenshotPath := pathJoin [outputDir; filename] in
    call (Screenshot screenshotPath) ;;
    ret (HString screenshotPath).

(** ** executeStep *)

(** The [switch (action)] of [executeStep]. *)
Definition dispatch (step : Step) : Async HandlerResult :=
  let a := action step in
  if String.eqb a "click" then handleClick step
  else if String.eqb a "wait_for_voice" then handleWaitForVoice
  else if String.eqb a "wait_for_silence" then handleWaitForSilence
  else if String.eqb a "wait" then handleWait step
  else if String.eqb a "speak" then handleSpeak step
  else if String.eqb a "listen" then handleListen step
  else if String.eqb a "sleep" then handleSleep step
  else if String.eqb a "wait_for_element" then handleWaitForElement step
  else if String.eqb a "type" then handleType step
  else if String.eqb a "fill" then handleFill step
  else if String.eqb a "select" then handleSelect step
  else if String.eqb a "screenshot" then handleScreenshot step
  else console (LogUnknownAction a) ;; ret HUndefined.

Definition knownActions : list string :=
  ["click"; "wait_for_voice"; "wait_for_silence"; "wait"; "speak"; "listen"; "sleep";
   "wait_for_element"; "type"; "fill"; "select"; "screenshot"].

(** [for (const [metricName, metricValue] of Object.entries(handlerResult))] *)
Fixpoint recordHandlerMetrics (app scenario : string) (repetition : Z) (stepIndex : nat)
    (action : string) (requested : list string) (entries : list (string * Value))
  : Async unit :=
  match entries with
  | [] => ret tt
  | (metricName, metricValue) :: rest =>
      when (bool_decide (metricName ∈ requested))
        (console (RecordStepMetric app scenario repetition stepIndex action
                    metricName metricValue)) ;;
      recordHandlerMetrics app scenario repetition stepIndex action requested rest
  end.

Definition executeStep (step : Step) (stepIndex : nat) (appName scenarioName : string)
    (repetition : Z) : Async unit :=
  has_page <- read page ;;
  if negb has_page then throw BrowserNotLaunched
  else
    beginTime <- read now ;;
    try_catch
      (handlerResult <- dispatch step ;;
       endTime <- read now ;;
       let elapsedTimeMs := endTime - beginTime in
       console (LogElapsed elapsedTimeMs) ;;
       hasReport <- read (fun s => reportGenerator (options s)) ;;
       match metrics step with
       | Some requested =>
           if hasReport then
             when (bool_decide ("elapsed_time" ∈ requested))
               (console (RecordStepMetric appName scenarioName repetition stepIndex
                           (action step) "elapsed_time" (VNumber elapsedTimeMs))) ;;
             match handlerResult with
             | HObject entries =>
                 recordHandlerMetrics appName scenarioName repetition stepIndex
                   (action step) requested entries
             | _ => ret tt
             end
           else ret tt
       | None => ret tt
       end)
      (fun error =>
         console (ErrorExecutingStep (S stepIndex) (action step) (shortMessage error)) ;;
         throw error).

(** ** Session life cycle *)

(** The reply of [getInstalledBrowsers] as an array; [VFiles] is an array
    whose elements have no [browser].  On anything else [browsers.map] is a
    TypeError. *)
Definition installedBrowsers (v : Value) : Error + list InstalledBrowser :=
  match v with
  | VBrowsers l => inr l
  | VFiles _ => inr []
  | VUndefined => inl (Thrown "Cannot read properties of undefined (reading 'map')")
  | _ => inl (Thrown "browsers.map is not a function")
  end.

Definition launch (url : string) : Async unit :=
  launched <- read browser ;;
  if launched then ret tt
  else
    installed <- call GetInstalledBrowsers ;;
    match installedBrowsers installed with
    | inl typeError => throw typeError
    | inr browsers =>
    console (LogLine "Installed browsers") ;;
    rec <- read (fun s => record (options s)) ;;
    (if rec then
       match chromeExecutablePath browsers with
       | Some path => call (LaunchWithStream path)
       | None =>
           throw (Thrown "Cannot read properties of undefined (reading 'executablePath')")
       end
     else call PuppeteerLaunch) ;;
    modify (set_browser true) ;;
    call BrowserVersion ;;
    console (LogLine "Browser launched") ;;
    when (String.prefix "http://" url || String.prefix "https://" url)
      (call ClearPermissionOverrides ;; call (OverridePermissions url) ;; ret tt) ;;
    call NewPage ;;
    modify (set_page true) ;;
    call (ExposeFunction "__publishEvent") ;;
    ret tt
    end.

Definition stopRecording : Async unit :=
  active <- read recordingStream ;;
  if negb active then ret tt
  else
    call CloseRecordingFile ;;
    console (LogLine "Recording saved") ;;
    modify (set_recordingStream false).

Definition close : Async unit :=
  launched <- read browser ;;
  if launched then
    active <- read recordingStream ;;
    when active stopRecording ;;
    modify (rejectAllPending BrowserClosed) ;;
    call BrowserClose ;;
    modify (fun s => set_page false (set_browser false s)) ;;
    rec <- read (fun s => record (options s)) ;;
    when rec (try_catch (call WssClose ;; ret tt) (fun _ => ret tt))
  else ret tt.

Definition startRecording : Async unit :=
  rec <- read (fun s => record (options s)) ;;
  has_page <- read page ;;
  if negb rec || negb has_page then ret tt
  else
    console (LogLine "Starting stream") ;;
    call GetStream ;;
    modify (set_recordingStream true) ;;
    console (LogLine "Stream started") ;;
    console (LogLine "Recording started").

Fixpoint injectFiles (jsFiles : list string) : Async unit :=
  match jsFiles with
  | [] => ret tt
  | jsFile :: rest =>
      try_catch
        (call (EvaluateOnNewDocument jsFile) ;;
         v <- read (fun s => verbose (options s)) ;;
         when v (console (LogLine ("Configured injection on navigation: " +:+ jsFile))))
        (fun error => console (ErrorLine ("Error configuring injection for " +:+ jsFile) error)) ;;
      injectFiles rest
  end.

Definition injectJavaScriptFiles : Async unit :=
  has_page <- read page ;;
  if negb has_page then throw BrowserNotLaunched
  else
    call (EvaluateOnNewDocument "window.__assetsServerUrl") ;;
    folder <- read (fun s => jsFolderExists (disk s)) ;;
    if negb folder then console (LogLine "JavaScript folder not found, skipping injection")
    else
      jsFiles <- call Glob ;;
      injectFiles (match jsFiles with VFiles l => l | _ => [] end).

Definition startAudioFromUrl (url : string) : Async unit :=
  console (LogLine ("Starting audio from URL: " +:+ url)) ;;
  try_catch
    (call (EvalStartAudioFromUrl url) ;;
     console (LogLine "Audio from URL started successfully"))
    (fun error => console (WarnLine "Failed to start audio from URL:" error)).

Definition stopAudioFromUrl : Async unit :=
  try_catch
    (call EvalStopAudioFromUrl ;; console (LogLine "Audio from URL stopped"))
    (fun _ => ret tt).

(** ** runScenario *)

(** [for (let i = 0; i < steps.length; i++)], from index [i] on. *)
Fixpoint executeSteps (steps : list Step) (i : nat) (appName scenarioName : string)
    (repetition : Z) : Async unit :=
  match steps with
  | [] => ret tt
  | step :: rest =>
      console (LogExecutingStep (S i) (action step)) ;;
      executeStep step i appName scenarioName repetition ;;
      executeSteps rest (S i) appName scenarioName repetition
  end.

Definition succeeded {A} (o : Outcome A) : bool :=
  match o with
  | Ok _ => true
  | _ => false
  end.

(** The [try] block up to the step loop. *)
Definition scenarioSetup (url appName scenarioName : string) (repetition : Z) : Async unit :=
  hasReport <- read (fun s => reportGenerator (options s)) ;;
  audio <- read (fun s => audioUrl (options s)) ;;
  when hasReport (console (BeginRun appName scenarioName repetition)) ;;
  launch url ;;
  injectJavaScriptFiles ;;
  call (Goto url) ;;
  call WaitForNetworkIdle ;;
  sleep 500 ;;
  startRecording ;;
  when (truthy audio) (startAudioFromUrl (str audio)).

(** The [finally] block. *)
Definition scenarioFinally (appName scenarioName : string) (repetition : Z)
    (success : bool) : Async unit :=
  hasReport <- read (fun s => reportGenerator (options s)) ;;
  audio <- read (fun s => audioUrl (options s)) ;;
  has_page <- read page ;;
  when (truthy audio && has_page) (try_catch stopAudioFromUrl (fun _ => ret tt)) ;;
  when hasReport (console (EndRun appName scenarioName repetition success)) ;;
  close.

Definition runScenario (url : string) (appSteps scenarioSteps : list Step)
    (appName scenarioName : string) (repetition : Z) : Async unit :=
  try_finally
    (try_catch
       (scenarioSetup url appName scenarioName repetition ;;
        let steps := appSteps ++ scenarioSteps in
        executeSteps steps 0 appName scenarioName repetition ;;
        sleep 500)
       (fun error =>
          (* success = false *)
          console (ErrorDuringScenario (shortMessage error)) ;;
          throw error))
    (fun outcome => scenarioFinally appName scenarioName repetition (succeeded outcome)).

(** ** Vocabulary of the properties *)

(** The entry that the [p]-th call of [waitForAudioEvent] pushes. *)
Definition entry_of (p : nat) : Waiter := mkWaiter (WrappedResolve p) p p.

(** The invariant of the broker: every queued entry was pushed by a call of
    [waitForAudioEvent] for the type of its queue, no queue is empty, every
    pending promise has its entry queued, and an armed timeout belongs to a
    pending promise. *)
Record wf (s : Tester) : Prop := mkWf {
  wf_entries : forall T q e, pendingPromises s !! T = Some q -> e ∈ q ->
      e = entry_of (reject e)
      /\ exists w, waits s !! reject e = Some w /\ w_eventType w = T;
  wf_nonempty : forall T, pendingPromises s !! T <> Some [];
  wf_pending : forall p w, waits s !! p = Some w -> w_state w = Pending ->
      exists q, pendingPromises s !! w_eventType w = Some q /\ entry_of p ∈ q;
  wf_armed : forall p w, waits s !! p = Some w -> w_timer w = Armed -> w_state w = Pending
}.

(** The combined effect on one wait of delivering an event, of a timeout and
    of a cancellation. *)
Definition cleared (w : Wait) : Wait :=
  match w_timer w with
  | Armed => with_timer Finished w
  | _ => w
  end.

Definition resolved (e : Event) (w : Wait) : Wait :=
  settle (Fulfilled e) (with_interval false (cleared w)).

Definition cancelled (err : Error) (w : Wait) : Wait :=
  settle (Rejected err) (cleared w).

Definition timed_out (detail : TimeoutDetail) (w : Wait) : Wait :=
  settle (Rejected (TimeoutError (w_eventType w) (w_timeout w) detail))
    (with_timer Finished (with_interval false w)).

Definition collecting (w : Wait) : Wait := with_timer Collecting (with_interval false w).

(** A transformation of a wait that the invariant tolerates. *)
Definition benign (f : Wait -> Wait) : Prop :=
  forall w,
    w_eventType (f w) = w_eventType w
    /\ (w_state (f w) = Pending -> w_state w = Pending)
    /\ (w_timer (f w) = Armed -> w_timer w = Armed /\ w_state (f w) = w_state w).

(** [pendingPromises.shift()] followed by the removal of an empty array. *)
Definition dequeue (T : string) (rest : list Waiter) (m : gmap string (list Waiter))
  : gmap string (list Waiter) :=
  match rest with
  | [] => delete T m
  | _ => <[T := rest]> m
  end.

Definition on_timeout (s : Tester) : Wait -> Wait :=
  if debug (options s) then
    if page s then collecting else timed_out CouldNotCollect
  else timed_out NoDetail.

Definition flat (l : list (string * list Waiter)) : list (string * Waiter) :=
  l ≫= (fun Tq => pair Tq.1 <$> Tq.2).

Definition rejectEntry (mkErr : string -> Error) (s : Tester) (Te : string * Waiter) : Tester :=
  rejectWaiter (mkErr Te.1) s Te.2.

(** What teardown does to one wait. *)
Definition torn (mkErr : string -> Error) (w : Wait) : Wait :=
  cancelled (mkErr (w_eventType w)) w.

(** No queue is left and no promise is outstanding. *)
Definition quiescent (s : Tester) : Prop :=
  pendingPromises s = ∅ /\ forall j w, waits s !! j = Some w -> w_state w <> Pending.

(** The items that can concern the wait [p] for events of type [T]. *)
Definition touches (p : nat) (T : string) (i : Incoming) : Prop :=
  match i with
  | Publish T' _ => T' = T
  | TimerFires tid => tid = p
  | DiagnosticsDone tid _ => tid = p
  | _ => False
  end.

(** The fields that no broker operation writes. *)
Definition frame (s s' : Tester) : Prop :=
  options s' = options s /\ page s' = page s /\ browser s' = browser s
  /\ disk s' = disk s /\ recordingStream s' = recordingStream s
  /\ (length (waits s) <= length (waits s'))%nat
  /\ trace s `prefix_of` trace s'.

Inductive Verdict :=
| Delivered (data : option EventData)
| TimedOut (detail : TimeoutDetail)
| StillWaiting.

(** The fate of the wait [p] for events of type [T], read off the incoming
    items: it succeeds when an event of its type is published before its
    timeout has rejected it.  [collecting] tells that the timeout has fired and
    is collecting diagnostics. *)
Fixpoint verdict (T : string) (p : nat) (dbg pg collecting : bool)
    (incoming : list Incoming) : Verdict :=
  match incoming with
  | [] => StillWaiting
  | Publish T' d :: rest =>
      if String.eqb T' T then Delivered d else verdict T p dbg pg collecting rest
  | TimerFires tid :: rest =>
      if Nat.eqb tid p && negb collecting then
        if dbg then
          if pg then verdict T p dbg pg true rest else TimedOut CouldNotCollect
        else TimedOut NoDetail
      else verdict T p dbg pg collecting rest
  | DiagnosticsDone tid d :: rest =>
      if Nat.eqb tid p && collecting then
        TimedOut (match d with Some x => Snapshot x | None => CouldNotCollect end)
      else verdict T p dbg pg collecting rest
  | _ :: rest => verdict T p dbg pg collecting rest
  end.

Definition deliver_all (l : list Incoming) (s : Tester) : Tester :=
  foldl (fun s i => deliver i s) s l.

Definition is_reply (i : Incoming) : bool :=
  match i with
  | Reply _ => true
  | _ => false
  end.

Definition outcome_of (r : Error + Value) : Outcome Value :=
  match r with
  | inl e => Err e
  | inr v => Ok v
  end.

Definition plain_options : Options := mkOptions false false false false false None.
Definition empty_disk : Disk := mkDisk "/repo/src" [] false.

(** What can happen to a tester, as far as its broker is concerned. *)
Inductive Operation :=
| DoWait (eventType : string) (timeout : Z)   (* a call of waitForAudioEvent *)
| DoArrive (i : Incoming)                     (* something arrives from outside *)
| DoClear                                     (* clearAudioEventQueue *)
| DoClosePending                              (* the rejection loop of close *)
| DoSetPage (b : bool)
| DoSetBrowser (b : bool)
| DoEmit (o : Output).

Definition perform (s : Tester) (op : Operation) : Tester :=
  match op with
  | DoWait T d => (registerWaiter T d s).2
  | DoArrive i => deliver i s
  | DoClear => clearAudioEventQueue s
  | DoClosePending => rejectAllPending BrowserClosed s
  | DoSetPage b => set_page b s
  | DoSetBrowser b => set_browser b s
  | DoEmit o => emit o s
  end.

(** A text without a line feed. *)
Fixpoint single_line (m : string) : bool :=
  match m with
  | EmptyString => true
  | String c rest => negb (Ascii.eqb c "010"%char) && single_line rest
  end.

(** [line] is the first line of the text [m]. *)
Definition is_first_line (line m : string) : Prop :=
  single_line line = true
  /\ (m = line \/ exists more, m = line +:+ String "010"%char more).

(** [short] is the short summary of the error [e]: the error with the first
    line of its message only.  The lines that follow are dropped; for a
    timeout they are the diagnostics. *)
Definition summary_of (e short : Error) : Prop :=
  match e with
  | TimeoutError eventType timeout _ => short = TimeoutError eventType timeout NoDetail
  | Thrown m => exists line, short = Thrown line /\ is_first_line line m
  | External m => exists line, short = External line /\ is_first_line line m
  | _ => short = e
  end.

(** What an unknown action leaves behind: two console lines and, when asked
    for, the elapsed time of the step. *)
Definition skipped (step : Step) (stepIndex : nat) (appName scenarioName : string)
    (repetition : Z) (s : Tester) : Tester :=
  let s1 := emit (LogElapsed 0) (emit (LogUnknownAction (action step)) s) in
  match metrics step with
  | Some requested =>
      if reportGenerator (options s) && bool_decide ("elapsed_time" ∈ requested) then
        emit (RecordStepMetric appName scenarioName repetition stepIndex (action step)
                "elapsed_time" (VNumber 0)) s1
      else s1
  | None => s1
  end.

(** The collaborator calls and the waits of a trace, in order. *)
Inductive Phase :=
| Calls (c : ExternalCall)
| Waits (eventType : string) (timeout : Z).

Definition phase_of (o : Output) : option Phase :=
  match o with
  | Call c => Some (Calls c)
  | Waiting T d => Some (Waits T d)
  | _ => None
  end.

Definition phases (t : list Output) : list Phase := omap phase_of t.

(** What a listen step does when nothing fails. *)
Definition listenPlan (recording : EventData) (audioFilePath transcription : Value)
    (evaluation : string) : list Phase :=
  [ Calls EvalStartRecording;
    Waits "recordingstart" 30000;
    Waits "audiostart" 30000;
    Waits "audiostop" 30000;
    Calls EvalStopRecording;
    Waits "recordingcomplete" 30000;
    Calls (SaveAudioAsWAV (audioData recording) (audioMetadata recording));
    Calls (TranscribeAudio audioFilePath);
    Calls (EvaluateTranscription transcription evaluation) ].

(** The events that a listen step waits for. *)
Definition listenEvents : list string :=
  ["recordingstart"; "audiostart"; "audiostop"; "recordingcomplete"].

(** What arrives while a listen step runs to its end: the answers of the page
    to the start and to the stop of the recorder, the four events, of which
    the last one carries the recording, the path of the saved audio, the
    transcription and the evaluation; and, before the [k]-th of these nine,
    whatever else arrives. *)
Record ListenRun := mkListenRun {
  lr_started : Value;
  lr_recordingstart : option EventData;
  lr_audiostart : option EventData;
  lr_audiostop : option EventData;
  lr_stopped : Value;
  lr_recording : EventData;
  lr_audioFilePath : Value;
  lr_transcription : Value;
  lr_score : Z;
  lr_explanation : string;
  lr_between : nat -> list Incoming
}.

Definition listenArrivals (run : ListenRun) (rest : list Incoming) : list Incoming :=
  lr_between run 0 ++ Reply (inr (lr_started run))
  :: lr_between run 1 ++ Publish "recordingstart" (lr_recordingstart run)
  :: lr_between run 2 ++ Publish "audiostart" (lr_audiostart run)
  :: lr_between run 3 ++ Publish "audiostop" (lr_audiostop run)
  :: lr_between run 4 ++ Reply (inr (lr_stopped run))
  :: lr_between run 5 ++ Publish "recordingcomplete" (Some (lr_recording run))
  :: lr_between run 6 ++ Reply (inr (lr_audioFilePath run))
  :: lr_between run 7 ++ Reply (inr (lr_transcription run))
  :: lr_between run 8 ++ Reply (inr (VEvaluation (lr_score run) (lr_explanation run)))
  :: rest.

(** What arrives in between neither answers the call that is awaited nor
    concerns the wait that is awaited; [p] is the number of the first wait. *)
Definition listenQuiet (p : nat) (run : ListenRun) : Prop :=
  (forall k, k ∈ [0; 4; 6; 7; 8]%nat ->
     forallb (fun i => negb (is_reply i)) (lr_between run k) = true)
  /\ Forall (fun i => ~ touches p "recordingstart" i) (lr_between run 1)
  /\ Forall (fun i => ~ touches (p + 1) "audiostart" i) (lr_between run 2)
  /\ Forall (fun i => ~ touches (p + 2) "audiostop" i) (lr_between run 3)
  /\ Forall (fun i => ~ touches (p + 3) "recordingcomplete" i) (lr_between run 5).

Definition listenStep (evaluation : string) : Step :=
  mkStep "listen" None None None (Some evaluation) None None None None None None
    (Some ["score"]).

(** The tester has made [n] waits, [incoming] is still to arrive, and nobody
    waits for an event of a listen step. *)
Definition listening (n : nat) (incoming : list Incoming) (s : Tester) : Prop :=
  wf s /\ script s = incoming /\ length (waits s) = n
  /\ forall T, T ∈ listenEvents -> pendingPromises s !! T = None.

(** A page and collaborators that answer a listen step as expected.  Time
    passes before the agent stops speaking, and an event that nobody waits for
    arrives while the recorder is being stopped. *)
Definition cooperativeRun (recording : EventData) (score : Z) (explanation : string)
  : ListenRun :=
  mkListenRun VUndefined None
    (Some (mkEventData (Some "audio-1") "" "" 0 0 0))
    (Some (mkEventData (Some "audio-1") "" "" 0 0 0))
    VUndefined recording (VString "output/recording.wav") (VString "hello there")
    score explanation
    (fun k => match k with
              | 3%nat => [Tick 1200]
              | 4%nat => [Publish "speechend" None]
              | _ => []
              end).

Definition cooperative (recording : EventData) (score : Z) (explanation : string)
  : list Incoming :=
  listenArrivals (cooperativeRun recording score explanation) [].

(** Three outstanding waiters of two types, in a launched_tester session. *)
Definition three_waiters : Tester :=
  (registerWaiter "audiostart" 30000
     (registerWaiter "audiostop" 30000
        (registerWaiter "audiostart" 30000
           (set_page true (set_browser true (construct plain_options empty_disk 0 [])))).2).2).2.

(** Three outstanding waiters in a session that is being recorded.  While
    the recording is stopped the page publishes "audiostop"; then the
    recording, the browser and the websocket server answer. *)
Definition recorded_waiters : Tester :=
  set_script [Publish "audiostop" None; Reply (inr VUndefined); Reply (inr VUndefined);
              Reply (inr VUndefined)]
    (registerWaiter "audiostart" 30000
       (registerWaiter "audiostop" 30000
          (registerWaiter "audiostart" 30000
             (set_recordingStream true
                (set_page true
                   (set_browser true
                      (construct (mkOptions false false false true false None)
                         empty_disk 0 []))))).2).2).2.

(** A step whose action no handler knows. *)
Definition hoverStep : Step :=
  mkStep "hover" (Some "#start") None None None None None None None None None
    (Some ["elapsed_time"]).

Definition launched_tester (o : Options) (d : Disk) (incoming : list Incoming) : Tester :=
  set_page true (set_browser true (construct o d 0 incoming)).

(** A speak step that plays a file of the assets folder. *)
Definition speakStep : Step :=
  mkStep "speak" None None (Some "greeting.wav") None None None None None None None None.

Definition greeting_assets : Disk := mkDisk "/repo/src" ["greeting.wav"] false.

Definition debug_options : Options := mkOptions false false true false false None.

Definition some_diagnostics : Diagnostics := mkDiagnostics true (Some "running") 0 [] (Some 0).

(** A scenario whose second step fails. *)
Definition clickNothing : Step :=
  mkStep "click" None None None None None None None None None None None.

Definition replies (n : nat) : list Incoming := repeat (Reply (inr VUndefined)) n.

(** A click on a button that never shows up: the page rejects the wait for the
    selector with an error whose message has two lines. *)
Definition clickStart : Step :=
  mkStep "click" (Some "#start") None None None None None None None None None None.

Definition selector_timeout : Error :=
  External ("Waiting for selector #start failed: Waiting failed: 30000ms exceeded"
            +:+ String "010"%char "    at new WaitTask (WaitTask.js:50:34)").

(** Chrome is installed twice, and another browser once. *)
Definition two_chromes : list InstalledBrowser :=
  [mkInstalledBrowser "chrome" "120.0.6099.109" "/cache/chrome/120/chrome";
   mkInstalledBrowser "firefox" "stable_121.0" "/cache/firefox/firefox";
   mkInstalledBrowser "chrome" "121.0.6167.85" "/cache/chrome/121/chrome"].

(** The collaborators of a session answer [n] calls, the first of which asks
    for the installed browsers. *)
Definition answers (n : nat) : list Incoming :=
  Reply (inr (VBrowsers two_chromes)) :: replies (pred n).

Definition fresh_session : Tester :=
  construct (mkOptions false true false false true None) empty_disk 0 (answers 12).

(** A session in which the twelfth call, the wait for the selector of the
    second step, is rejected. *)
Definition failing_session : Tester :=
  construct (mkOptions false true false false true None) empty_disk 0
    (answers 11 ++ [Reply (inl selector_timeout); Reply (inr VUndefined)]).

(** ** Parts of startRecording *)

(** [/[a-zA-Z0-9]/] *)
Definition is_alphanumeric (c : ascii) : bool :=
  let n := nat_of_ascii c in
  ((48 <=? n) && (n <=? 57) || (65 <=? n) && (n <=? 90) || (97 <=? n) && (n <=? 122))%nat.

(** [name.replace(/[^a-zA-Z0-9]/g, '_')] *)
Fixpoint sanitize (name : string) : string :=
  match name with
  | EmptyString => EmptyString
  | String c rest =>
      String (if is_alphanumeric c then c else "_"%char) (sanitize rest)
  end.

(** ** Vocabulary of further properties *)

(** No queue holds an entry twice. *)
Definition queued_once (s : Tester) : Prop :=
  forall T q, pendingPromises s !! T = Some q -> NoDup q.

(** The queue of the type [T] holds exactly the waits number [p] to
    [p + k - 1], in this order, all of them pending, and they are the last
    waits made. *)
Definition lined_up (s : Tester) (T : string) (p k : nat) : Prop :=
  wf s
  /\ length (waits s) = (p + k)%nat
  /\ pendingPromises s !! T
     = match k with O => None | _ => Some (entry_of <$> seq p k) end
  /\ forall i, (i < k)%nat ->
       exists w, waits s !! (p + i)%nat = Some w /\ w_state w = Pending.

(** Several lines printed or handed over, in order. *)
Definition emit_all (outs : list Output) (s : Tester) : Tester :=
  foldl (fun s o => emit o s) s outs.

(** What [executeStep] hands to the report generator once the handler of a
    step has returned: the elapsed time and the entries of the handler's
    result, as far as the step asks for them. *)
Definition recorded_metrics (step : Step) (stepIndex : nat) (appName scenarioName : string)
    (repetition : Z) (hasReport : bool) (elapsedTimeMs : Z) (handlerResult : HandlerResult)
  : list Output :=
  match metrics step with
  | Some requested =>
      if hasReport then
        (if bool_decide ("elapsed_time" ∈ requested) then
           [RecordStepMetric appName scenarioName repetition stepIndex (action step)
              "elapsed_time" (VNumber elapsedTimeMs)]
         else [])
        ++ match handlerResult with
           | HObject entries =>
               (fun e => RecordStepMetric appName scenarioName repetition stepIndex
                           (action step) e.1 e.2)
                 <$> filter (fun e => e.1 ∈ requested) entries
           | _ => []
           end
      else []
  | None => []
  end.

(** The actions whose handler needs [step.selector]. *)
Definition selectorActions : list string :=
  ["click"; "wait"; "wait_for_element"; "type"; "fill"; "select"].

(** What [launch] asks of its collaborators when nothing fails. *)
Definition launchPlan (rec : bool) (path url : string) : list Phase :=
  [Calls GetInstalledBrowsers;
   Calls (if rec then LaunchWithStream path else PuppeteerLaunch);
   Calls BrowserVersion]
  ++ (if String.prefix "http://" url || String.prefix "https://" url
      then [Calls ClearPermissionOverrides; Calls (OverridePermissions url)]
      else [])
  ++ [Calls NewPage; Calls (ExposeFunction "__publishEvent")].

(** Every character of a string passes a test. *)
Fixpoint all_chars (test : ascii -> bool) (s : string) : bool :=
  match s with
  | EmptyString => true
  | String c rest => test c && all_chars test rest
  end.

End VoiceAgentTester.


(* ===================================================================== *)
(** * index.js: the parameters of the command line and the list of runs *)
(* ===================================================================== *)

Module Index.

(** Strings are sequences of code units below 256. *)

(** [s.split(sep)] for a separator of one character. *)
Fixpoint split (sep : ascii) (s : string) : list string :=
  match s with
  | EmptyString => [EmptyString]
  | String c rest =>
      if Ascii.eqb c sep then EmptyString :: split sep rest
      else match split sep rest with
           | part :: parts => String c part :: parts
           | [] => [String c EmptyString]
           end
  end.

(** The white space and line terminators that [trim] removes: tab, line
    feed, vertical tab, form feed, carriage return, space and no-break space. *)
Definition is_space (c : ascii) : bool :=
  bool_decide (nat_of_ascii c ∈ [9; 10; 11; 12; 13; 32; 160]%nat).

Fixpoint trimStart (s : string) : string :=
  match s with
  | EmptyString => EmptyString
  | String c rest => if is_space c then trimStart rest else s
  end.

Fixpoint trimEnd (s : string) : string :=
  match s with
  | EmptyString => EmptyString
  | String c rest =>
      match trimEnd rest with
      | EmptyString => if is_space c then EmptyString else String c EmptyString
      | kept => String c kept
      end
  end.

(** [s.trim()] *)
Definition trim (s : string) : string := trimEnd (trimStart s).

(** [params[key] = value] on an object literal: the key ["__proto__"] is the
    inherited accessor, whose setter ignores a string; any other key becomes,
    or stays, a property of the object. *)
Definition assign (key value : string) (params : gmap string string) : gmap string string :=
  if String.eqb key "__proto__" then params else <[key := value]> params.

(** The body of the loop of [parseParams]. *)
Definition parsePair (params : gmap string string) (pair : string) : gmap string string :=
  match split "=" pair with
  | key :: valueParts =>
      if negb (String.eqb key "") && (0 <? length valueParts)%nat then
        assign (trim key) (trim (String.concat "=" valueParts)) params
      else params
  | [] => params
  end.

(** [parseParams(paramsString)]; [None] is [null]. *)
Definition parseParams (paramsString : option string) : gmap string string :=
  match paramsString with
  | None => ∅
  | Some EmptyString => ∅
  | Some s => foldl parsePair ∅ (split "," s)
  end.

(** ** The runs of a benchmark *)

Section Runs.
Context {App Scenario : Type}.

Record Run := mkRun {
  run_app : App;
  run_scenario : Scenario;
  run_repetition : nat;
  runNumber : nat
}.

(** The nested loops that fill [combinations]. *)
Definition combinations (applications : list App) (scenarios : list Scenario)
  : list (App * Scenario) :=
  applications ≫= (fun app => pair app <$> scenarios).

(** [combinations.length * repeat] *)
Definition totalRuns (applications : list App) (scenarios : list Scenario) (repeat : Z) : Z :=
  Z.of_nat (length (combinations applications scenarios)) * repeat.

(** The inner loop [for (let i = 0; i < repeat; i++)] for one combination,
    from the runs and the run number reached so far. *)
Definition pushRepetitions (repeat : Z) (acc : list Run * nat) (c : App * Scenario)
  : list Run * nat :=
  foldl (fun acc i => (acc.1 ++ [mkRun c.1 c.2 i (S acc.2)], S acc.2))
    acc (seq 0 (Z.to_nat repeat)).

(** [allRuns], for a whole number of repetitions. *)
Definition allRuns (applications : list App) (scenarios : list Scenario) (repeat : Z)
  : list Run :=
  (foldl (pushRepetitions repeat) ([], 0%nat) (combinations applications scenarios)).1.

End Runs.

Arguments Run : clear implicits.

(** ** Vocabulary of the properties *)

(** A key that [parseParams] stores as it is written, and a value likewise. *)
Definition plain_key (key : string) : Prop :=
  key <> "" /\ key <> "__proto__" /\ trim key = key
  /\ ProviderImport.has_char "," key = false /\ ProviderImport.has_char "=" key = false.

Definition plain_value (value : string) : Prop :=
  trim value = value /\ ProviderImport.has_char "," value = false.

(** The text of a list of parameters: [key=value] joined by commas. *)
Definition render (params : list (string * string)) : string :=
  String.concat "," ((fun kv => kv.1 +:+ "=" +:+ kv.2) <$> params).

End Index.

(* ===================================================================== *)
(** * Properties of provider-import.js *)
(* ===================================================================== *)

Module ProviderImportProofs.
Import ProviderImport.

Example backoff_values : map backoff [1; 2; 3; 4]%nat = [500; 1000; 2000; 4000].
Proof. reflexivity. Qed.

Example configuredName_example :
  configuredName (Some "Agent") "vapi" "2026-01-02T03:04:05.678Z"
  = "Agent_vapi_2026-01-02T03-04-05".
Proof. reflexivity. Qed.

Lemma sleeps_app t1 t2 : sleeps (t1 ++ t2) = sleeps t1 ++ sleeps t2.
Proof.
  induction t1 as [|e t1 IH]; [reflexivity|].
  destruct e; simpl; rewrite ?IH; reflexivity.
Qed.

Lemma requests_cons e t :
  requests (e :: t) = ((if is_request e then 1 else 0) + requests t)%nat.
Proof.
  unfold requests. rewrite filter_cons.
  case_decide as H; [rewrite H | apply not_true_is_false in H; rewrite H]; reflexivity.
Qed.

Lemma warnings_cons e t :
  warnings (e :: t) = ((if is_warning e then 1 else 0) + warnings t)%nat.
Proof.
  unfold warnings. rewrite filter_cons.
  case_decide as H; [rewrite H | apply not_true_is_false in H; rewrite H]; reflexivity.
Qed.

(** The attempt at which the loop stops is the first one that is not a
    retryable failure, if there is one among those allowed. *)
Lemma last_attempt_from_spec (reply : nat -> FetchResult unit) :
  forall n attempt,
    let k := last_attempt_from n attempt reply in
    (attempt <= k <= attempt + n)%nat
    /\ (forall j, (attempt <= j < k)%nat -> retryable (reply j) = true)
    /\ ((k < attempt + n)%nat -> retryable (reply k) = false).
Proof.
  induction n as [|n IH]; intros attempt; cbn [last_attempt_from].
  - repeat split; intros; lia.
  - destruct (retryable (reply attempt)) eqn:Hre.
    + destruct (IH (S attempt)) as (Hle & Hbefore & Hstop).
      split; [lia|]. split.
      * intros j Hj. destruct (decide (j = attempt)) as [->|Hne]; [exact Hre|].
        apply Hbefore. lia.
      * intros Hlt. apply Hstop. lia.
    + split; [lia|]. split; [intros j Hj; lia | intros _; exact Hre].
Qed.

(** The loop from [attempt] on, with [n] attempts after it still allowed:
    it stops at [last_attempt_from n attempt], having slept the back-off delay
    after every attempt before that one. *)
Ltac retried :=
  match goal with H : _ /\ _ /\ _ /\ _ /\ _ |- _ => exact H end.

Lemma configure_loop_spec reply assistantId newName :
  forall n fuel attempt,
    (attempt + n = MAX_RETRIES)%nat -> (n < fuel)%nat ->
    let k := last_attempt_from n attempt reply in
    let r := configure_loop fuel attempt assistantId newName reply in
    r.1 = succeeds (reply k)
    /\ sleeps r.2 = map backoff (seq attempt (k - attempt))
    /\ requests r.2 = S (k - attempt)
    /\ warnings r.2 = (if r.1 then 0 else 1)%nat
    /\ (attempt <= k <= MAX_RETRIES)%nat.
Proof.
  induction n as [|n IH]; intros fuel attempt Hsum Hfuel.
  - (* the last attempt *)
    destruct fuel as [|fuel]; [lia|]. simpl.
    assert (attempt = MAX_RETRIES) as -> by lia.
    replace (MAX_RETRIES - MAX_RETRIES)%nat with 0%nat by lia.
    change (MAX_RETRIES <=? MAX_RETRIES)%nat with true.
    change (MAX_RETRIES <? MAX_RETRIES)%nat with false.
    cbv iota.
    destruct (reply MAX_RETRIES) as [m|r]; simpl.
    + repeat split; try reflexivity; unfold MAX_RETRIES; lia.
    + destruct (ok r); simpl; [repeat split; try reflexivity; unfold MAX_RETRIES; lia|].
      rewrite andb_false_r.
      destruct (text r); simpl; repeat split; try reflexivity; unfold MAX_RETRIES; lia.
  - destruct fuel as [|fuel]; [lia|].
    assert (Hle : (attempt <=? MAX_RETRIES)%nat = true) by (apply Nat.leb_le; lia).
    assert (Hlt : (attempt <? MAX_RETRIES)%nat = true) by (apply Nat.ltb_lt; lia).
    specialize (IH fuel (S attempt) ltac:(lia) ltac:(lia)).
    cbn zeta in IH. destruct IH as (IH1 & IH2 & IH3 & IH4 & IH5).
    cbn [configure_loop last_attempt_from]. rewrite Hle, Hlt. cbv zeta.
    destruct (configure_loop fuel (S attempt) assistantId newName reply) as [b t] eqn:Hrec.
    simpl in IH1, IH2, IH3, IH4.
    assert (Hseq : forall k, (S attempt <= k)%nat ->
              backoff attempt :: map backoff (seq (S attempt) (k - S attempt))
              = map backoff (seq attempt (k - attempt))).
    { intros k Hk. replace (k - attempt)%nat with (S (k - S attempt)) by lia. reflexivity. }
    assert (Hretried :
      b = succeeds (reply (last_attempt_from n (S attempt) reply))
      /\ backoff attempt :: sleeps t
         = map backoff (seq attempt (last_attempt_from n (S attempt) reply - attempt))
      /\ S (requests t) = S (last_attempt_from n (S attempt) reply - attempt)
      /\ warnings t = (if b then 0 else 1)%nat
      /\ (attempt <= last_attempt_from n (S attempt) reply <= MAX_RETRIES)%nat).
    { rewrite IH2, IH3, Hseq by lia. repeat split; try assumption; lia. }
    destruct (reply attempt) as [m|r] eqn:Hreply; simpl.
    + rewrite !requests_cons, !warnings_cons. simpl.
      retried.
    + destruct (ok r) eqn:Hok; simpl.
      * rewrite Hreply. simpl. rewrite Hok, Nat.sub_diag.
        repeat split; try reflexivity; lia.
      * rewrite andb_true_r.
        destruct (status r =? 404) eqn:H404; simpl.
        -- rewrite !requests_cons, !warnings_cons. simpl.
           retried.
        -- destruct (text r) as [body|] eqn:Htext; simpl.
           ++ rewrite Hreply. simpl. rewrite Hok, Nat.sub_diag.
              repeat split; try reflexivity; lia.
           ++ rewrite !requests_cons, !warnings_cons. simpl.
              retried.
Qed.

Lemma requests_app t1 t2 : requests (t1 ++ t2) = (requests t1 + requests t2)%nat.
Proof. unfold requests. rewrite filter_app, length_app. reflexivity. Qed.

Lemma configure_requests w assistantId assistantName provider :
  requests (configureImportedAssistant w assistantId assistantName provider).2
  = last_attempt (configure_reply w)
  /\ (1 <= last_attempt (configure_reply w) <= 5)%nat.
Proof.
  pose proof (configure_loop_spec (configure_reply w) assistantId
                (configuredName assistantName provider (iso_now w))
                (MAX_RETRIES - 1) (S MAX_RETRIES) 1 eq_refl
                ltac:(unfold MAX_RETRIES; lia)) as H.
  cbv zeta in H. fold (last_attempt (configure_reply w)) in H.
  destruct H as (_ & _ & H3 & _ & H5). change MAX_RETRIES with 5%nat in H5.
  unfold configureImportedAssistant. rewrite H3. lia.
Qed.

Lemma backoff_prefix k :
  (1 <= k <= MAX_RETRIES)%nat ->
  map backoff (seq 1 (k - 1)) = take (k - 1) [500; 1000; 2000; 4000].
Proof.
  unfold MAX_RETRIES. intros Hk.
  assert (k = 1 \/ k = 2 \/ k = 3 \/ k = 4 \/ k = 5)%nat as Hcases by lia.
  destruct Hcases as [-> | [-> | [-> | [-> | ->]]]]; reflexivity.
Qed.

(** C8, as amended.  The configuration request is repeated after a 404
    response and also after an exception in the attempt (the request rejects:
    a network error; or the body of a failed response cannot be read); the
    delays slept after attempts 1 to 4 are 500, 1000, 2000 and 4000 ms.  The
    loop stops at attempt [k]: every attempt before it was such a retryable
    failure, and [k] is the first attempt that succeeds or fails with another
    response, or else attempt 5; a failure returns [false] with one warning
    and never throws. *)
Theorem configure_retry_backoff (w : Remote) (assistantId : string)
    (assistantName : option string) (provider : string) :
  let k := last_attempt (configure_reply w) in
  let r := configureImportedAssistant w assistantId assistantName provider in
  (1 <= k <= 5)%nat
  /\ r.1 = succeeds (configure_reply w k)
  /\ requests r.2 = k
  /\ sleeps r.2 = take (k - 1) [500; 1000; 2000; 4000]
  /\ warnings r.2 = (if r.1 then 0 else 1)%nat
  /\ (forall j, (1 <= j < k)%nat -> retryable (configure_reply w j) = true)
  /\ ((k < 5)%nat -> retryable (configure_reply w k) = false).
Proof.
  intros k r.
  pose proof (last_attempt_from_spec (configure_reply w) (MAX_RETRIES - 1) 1) as Hk.
  cbv zeta in Hk. fold (last_attempt (configure_reply w)) in Hk. fold k in Hk.
  change (1 + (MAX_RETRIES - 1))%nat with 5%nat in Hk.
  destruct Hk as (_ & Hbefore & Hstop).
  pose proof (configure_loop_spec (configure_reply w) assistantId
                (configuredName assistantName provider (iso_now w))
                (MAX_RETRIES - 1) (S MAX_RETRIES) 1 eq_refl
                ltac:(unfold MAX_RETRIES; lia)) as H.
  cbv zeta in H. fold (last_attempt (configure_reply w)) in H. fold k in H.
  subst r. unfold configureImportedAssistant.
  destruct H as (H1 & H2 & H3 & H4 & H5).
  change MAX_RETRIES with 5%nat in H5.
  split; [lia|]. split; [exact H1|]. split; [rewrite H3; lia|].
  split; [|split; [exact H4|split; [exact Hbefore|exact Hstop]]].
  rewrite H2. apply backoff_prefix. unfold MAX_RETRIES. lia.
Qed.

(** C8, as stated, fails: a first attempt that fails with an error other than a
    404 response is followed by a second request. *)
Lemma configure_retries_network_error :
  ~ (forall (w : Remote) (assistantId : string) (assistantName : option string)
       (provider : string),
        succeeds (configure_reply w 1) = false ->
        (forall r, configure_reply w 1 = HttpResponse r -> status r <> 404) ->
        let r := configureImportedAssistant w assistantId assistantName provider in
        r.1 = false /\ requests r.2 = 1%nat).
Proof.
  intros H.
  specialize (H flaky "a1" (Some "Agent") "vapi" eq_refl).
  destruct H as [H _]; [intros r Hr; discriminate Hr|].
  vm_compute in H. discriminate H.
Qed.

Example flaky_run :
  configureImportedAssistant flaky "a1" (Some "Agent") "vapi"
  = (true,
     [ConfigureRequest "a1" "Agent_vapi_2026-01-02T03-04-05";
      LogRetryNetwork 500 1; Sleep 500;
      ConfigureRequest "a1" "Agent_vapi_2026-01-02T03-04-05";
      LogConfigured "Agent_vapi_2026-01-02T03-04-05"]).
Proof. reflexivity. Qed.

Section ImportProofs.
Context (parseDate : string -> option Z).

(** C9.  When the import response is empty, or its first assistant does not
    echo the requested identifier, the import fails: no identifier is returned
    and no configuration request is sent; once the secret exists the error is
    the mismatch (or the empty import) itself. *)
Theorem import_mismatch_fails (w : Remote) (provider providerApiKey : string)
    (requested : option string) (l : list Assistant) :
  imported w = Some l ->
  (l = [] \/ exists a rest, l = a :: rest /\ importId_of a <> requested) ->
  let r := importAssistantsFromProvider parseDate w provider providerApiKey requested in
  exists e,
    r.1 = inl e
    /\ requests r.2 = 0%nat
    /\ (provider ∈ SUPPORTED_PROVIDERS -> is_Some (created_secret w) ->
        e = match l with
            | [] => NoAssistantImported requested
            | a :: _ => ImportMismatch requested (importId_of a)
            end).
Proof.
  intros Himp Hbad r. subst r.
  unfold importAssistantsFromProvider, createIntegrationSecret, imported, created_secret in *.
  case_bool_decide as Hprov; simpl.
  2: { eexists; split; [reflexivity|]. split; [reflexivity|]. intros; contradiction. }
  destruct (secret_reply w) as [m|rs]; simpl.
  { eexists; split; [reflexivity|]. split; [reflexivity|]. intros _ [? ?]; discriminate. }
  destruct (import_reply w) as [m|ri]; [discriminate|].
  destruct (ok ri) eqn:Hoki; [|discriminate].
  destruct (json ri) as [data|] eqn:Hjson; [|discriminate].
  simpl in Himp. injection Himp as Hl.
  destruct (ok rs) eqn:Hoks; simpl.
  - destruct (json rs) as [sec|]; simpl.
    + rewrite Hl.
      destruct Hbad as [-> | (a & rest & -> & Hne)].
      * eexists; split; [reflexivity|]. split; [reflexivity|]. reflexivity.
      * change (import_metadata a ≫= import_id) with (importId_of a).
        rewrite bool_decide_eq_false_2 by exact Hne. simpl.
        eexists; split; [reflexivity|]. split; [reflexivity|]. reflexivity.
    + eexists; split; [reflexivity|]. split; [reflexivity|]. intros _ [? ?]; discriminate.
  - destruct (text rs); simpl;
      (eexists; split; [reflexivity|]; split; [reflexivity|]; intros _ [? ?]; discriminate).
Qed.

Lemma isReused_spec now importedAt :
  isReused parseDate now importedAt = true
  <-> exists s t, importedAt = Some s /\ s <> "" /\ parseDate s = Some t /\ 60000 < now - t.
Proof.
  unfold isReused. split.
  - destruct importedAt as [s|]; [|discriminate].
    destruct s as [|c s]; [discriminate|]. simpl.
    destruct (parseDate (String c s)) as [t|] eqn:Hp; [|discriminate].
    intros H%Z.ltb_lt. exists (String c s), t. repeat split; [discriminate|assumption..].
  - intros (s & t & -> & Hs & Hp & Hlt).
    destruct s as [|c s]; [congruence|]. simpl. rewrite Hp. apply Z.ltb_lt, Hlt.
Qed.

(** C10.  Once the import has returned the requested assistant, the function
    returns that assistant's id whatever the configuration does.  The assistant
    counts as reused exactly when [imported_at] is present, parses to a time
    and lies more than 60000 ms in the past; a reused assistant gets no
    configuration request, any other one (timestamp absent, or at most 60000 ms
    old) gets at least one. *)
Theorem import_reuse_window (w : Remote) (provider providerApiKey : string)
    (requested : option string) (sec : SecretData) (a : Assistant) (rest : list Assistant) :
  provider ∈ SUPPORTED_PROVIDERS ->
  created_secret w = Some sec ->
  imported w = Some (a :: rest) ->
  importId_of a = requested ->
  let r := importAssistantsFromProvider parseDate w provider providerApiKey requested in
  let now := date_now_check w in
  let reused := isReused parseDate now (importedAt_of a) in
  r.1 = inr (mkImportResult [mkImportedRef (id a) (name a) (importId_of a)] (id a))
  /\ (reused = true
      <-> exists s t, importedAt_of a = Some s /\ s <> "" /\ parseDate s = Some t
                      /\ 60000 < now - t)
  /\ (importedAt_of a = None -> reused = false)
  /\ (forall s t, importedAt_of a = Some s -> parseDate s = Some t -> now - t <= 60000 ->
        reused = false)
  /\ (reused = true -> requests r.2 = 0%nat)
  /\ (reused = false ->
        requests r.2 = last_attempt (configure_reply w) /\ (1 <= requests r.2)%nat).
Proof.
  intros Hprov Hsec Himp Hid r now reused.
  split; [|split; [apply isReused_spec|split; [|split]]].
  - subst r. unfold importAssistantsFromProvider, createIntegrationSecret,
      imported, created_secret in *.
    rewrite bool_decide_eq_true_2 by exact Hprov. simpl.
    destruct (secret_reply w) as [m|rs]; [discriminate|].
    destruct (ok rs); [|discriminate]. rewrite Hsec.
    destruct (import_reply w) as [m|ri]; [discriminate|].
    destruct (ok ri); [|discriminate]. simpl.
    destruct (json ri) as [data|]; [|discriminate].
    simpl in Himp. injection Himp as ->.
    change (import_metadata a ≫= import_id) with (importId_of a).
    rewrite bool_decide_eq_true_2 by exact Hid. reflexivity.
  - intros Hnone. subst reused. rewrite Hnone. reflexivity.
  - intros s t Hs Hp Hle. subst reused.
    destruct (isReused parseDate now (importedAt_of a)) eqn:E; [|reflexivity].
    apply isReused_spec in E. destruct E as (s' & t' & Hs' & _ & Hp' & Hlt).
    rewrite Hs in Hs'. injection Hs' as <-. rewrite Hp in Hp'. injection Hp' as <-. lia.
  - assert (Htrace : exists t0, requests t0 = 0%nat /\
              r.2 = if reused then t0 ++ [LogReused (id a)]
                    else t0 ++ [LogImported (id a)]
                         ++ (configureImportedAssistant w (id a) (name a) provider).2).
    { subst r reused now. unfold importAssistantsFromProvider, createIntegrationSecret,
        imported, created_secret in *.
      rewrite bool_decide_eq_true_2 by exact Hprov. simpl.
      destruct (secret_reply w) as [m|rs]; [discriminate|].
      destruct (ok rs); [|discriminate]. rewrite Hsec.
      destruct (import_reply w) as [m|ri]; [discriminate|].
      destruct (ok ri); [|discriminate]. simpl.
      destruct (json ri) as [data|]; [|discriminate].
      simpl in Himp. injection Himp as ->.
      change (import_metadata a ≫= import_id) with (importId_of a).
      change (import_metadata a ≫= imported_at) with (importedAt_of a).
      rewrite bool_decide_eq_true_2 by exact Hid. simpl.
      exists [CreateSecretRequest
                (provider +:+ "_import_" +:+ pretty (date_now_secret w)) providerApiKey;
              ImportRequest provider (secret_identifier sec) [importId_of a]].
      subst requested.
      split; [reflexivity | destruct (isReused _ _ _); reflexivity]. }
    destruct Htrace as (t0 & Ht0 & Hr2). rewrite Hr2.
    split; intros Hre; rewrite Hre.
    + rewrite requests_app, Ht0. reflexivity.
    + rewrite !requests_app, Ht0. simpl.
      destruct (configure_requests w (id a) (name a) provider) as [-> Hk].
      change (requests [LogImported (id a)]) with 0%nat. lia.
Qed.

End ImportProofs.

Lemma import_mismatch_fails_witness :
  exists e,
    (importAssistantsFromProvider (fun _ => None) substituted "vapi" "key" (Some "wanted")).1
    = inl e
    /\ requests (importAssistantsFromProvider (fun _ => None) substituted "vapi" "key"
                   (Some "wanted")).2 = 0%nat
    /\ (("vapi" : string) ∈ SUPPORTED_PROVIDERS -> is_Some (created_secret substituted) ->
        e = ImportMismatch (Some "wanted") (Some "other")).
Proof.
  apply (import_mismatch_fails (fun _ => None) substituted "vapi" "key" (Some "wanted")
           [mkAssistant "t-9" (Some "Other") (Some (mkImportMetadata (Some "other") None))]).
  - reflexivity.
  - right. eexists _, _. split; [reflexivity|]. vm_compute. discriminate.
Defined.

Lemma import_reuse_window_witness :
  (importAssistantsFromProvider (fun _ => Some 1700000000000) just_imported "vapi" "key"
     (Some "wanted")).1
  = inr (mkImportResult [mkImportedRef "t-1" (Some "Agent") (Some "wanted")] "t-1").
Proof.
  apply (import_reuse_window (fun _ => Some 1700000000000) just_imported "vapi" "key"
           (Some "wanted") (mkSecretData "s1" "vapi_import_1700000000000")
           (mkAssistant "t-1" (Some "Agent")
              (Some (mkImportMetadata (Some "wanted") (Some "2023-11-14T22:13:20Z")))) []).
  - constructor.
  - reflexivity.
  - reflexivity.
  - reflexivity.
Defined.

Example just_imported_is_configured :
  requests (importAssistantsFromProvider (fun _ => Some 1700000000000) just_imported "vapi"
              "key" (Some "wanted")).2 = 1%nat.
Proof. reflexivity. Qed.

Example long_imported_is_reused :
  (importAssistantsFromProvider (fun _ => Some 1600000000000) just_imported "vapi" "key"
     (Some "wanted"))
  = (inr (mkImportResult [mkImportedRef "t-1" (Some "Agent") (Some "wanted")] "t-1"),
     [CreateSecretRequest "vapi_import_1700000000000" "key";
      ImportRequest "vapi" "vapi_import_1700000000000" [Some "wanted"];
      LogReused "t-1"]).
Proof. vm_compute. reflexivity. Qed.

End ProviderImportProofs.

(* ===================================================================== *)
(** * Properties of voice-agent-tester.js *)
(* ===================================================================== *)

Module VoiceAgentTesterProofs.
Import VoiceAgentTester.

(** ** Lemmas about the state *)

(** The delay of a timer is the requested one when that is in range, and is
    never shorter than a requested delay that is not above the maximum. *)
Lemma timerDelay_in_range (ms : Z) : 1 <= ms <= TIMEOUT_MAX -> timerDelay ms = ms.
Proof.
  intros [H1 H2]. unfold timerDelay.
  destruct (Z.leb_spec 1 ms), (Z.leb_spec ms TIMEOUT_MAX); simpl; lia.
Qed.

Lemma timerDelay_ge (ms : Z) : ms <= TIMEOUT_MAX -> ms <= timerDelay ms.
Proof.
  intros H. unfold timerDelay.
  destruct (Z.leb_spec 1 ms), (Z.leb_spec ms TIMEOUT_MAX); simpl; lia.
Qed.

Lemma timerDelay_positive (ms : Z) : 1 <= timerDelay ms <= TIMEOUT_MAX.
Proof.
  unfold timerDelay, TIMEOUT_MAX.
  destruct (Z.leb_spec 1 ms), (Z.leb_spec ms 2147483647); simpl; lia.
Qed.

Lemma update_wait_fields k f s :
  pendingPromises (update_wait k f s) = pendingPromises s
  /\ now (update_wait k f s) = now s
  /\ trace (update_wait k f s) = trace s
  /\ script (update_wait k f s) = script s
  /\ options (update_wait k f s) = options s
  /\ page (update_wait k f s) = page s
  /\ browser (update_wait k f s) = browser s
  /\ length (waits (update_wait k f s)) = length (waits s).
Proof.
  unfold update_wait. destruct (waits s !! k); simpl; rewrite ?length_insert; tauto.
Qed.

Lemma update_wait_lookup k f s j :
  waits (update_wait k f s) !! j
  = if decide (j = k) then f <$> waits s !! k else waits s !! j.
Proof.
  unfold update_wait. destruct (waits s !! k) as [w|] eqn:Hk; simpl.
  - case_decide as Hj.
    + subst j. rewrite list_lookup_insert_eq; [reflexivity|].
      eapply lookup_lt_Some, Hk.
    + rewrite list_lookup_insert_ne by congruence. reflexivity.
  - case_decide as Hj; [subst j; rewrite Hk|]; reflexivity.
Qed.

Lemma wf_construct o d t incoming : wf (construct o d t incoming).
Proof.
  split; simpl.
  - intros T q e H. rewrite lookup_empty in H. discriminate.
  - intros T. rewrite lookup_empty. discriminate.
  - intros p w H. rewrite lookup_nil in H. discriminate.
  - intros p w H. rewrite lookup_nil in H. discriminate.
Qed.

(** [wf] only reads the queues and the waits. *)
Lemma wf_same s s' :
  pendingPromises s' = pendingPromises s -> waits s' = waits s -> wf s -> wf s'.
Proof.
  intros Hp Hw [H1 H2 H3 H4]. split; rewrite ?Hp, ?Hw; assumption.
Qed.

Lemma wf_set_script l s : wf s -> wf (set_script l s).
Proof. apply wf_same; reflexivity. Qed.

Lemma wf_set_recordingStream b s : wf s -> wf (set_recordingStream b s).
Proof. apply wf_same; reflexivity. Qed.

Lemma wf_set_page b s : wf s -> wf (set_page b s).
Proof. apply wf_same; reflexivity. Qed.

Lemma wf_set_browser b s : wf s -> wf (set_browser b s).
Proof. apply wf_same; reflexivity. Qed.

Lemma registerWaiter_wf T d s : wf s -> wf (registerWaiter T d s).2.
Proof.
  intros [H1 H2 H3 H4]. unfold registerWaiter. simpl.
  set (p := length (waits s)).
  set (w0 := mkWait T d (now s + timerDelay d) Pending Armed (debug (options s))).
  split; simpl.
  - intros T' q e Hq He.
    destruct (decide (T' = T)) as [->|Hne].
    + rewrite lookup_insert_eq in Hq. injection Hq as <-.
      apply elem_of_app in He as [He|He].
      * destruct (pendingPromises s !! T) as [q0|] eqn:Hq0; simpl in He;
          [|apply elem_of_nil in He; contradiction].
        destruct (H1 T q0 e Hq0 He) as (Hent & w & Hw & HT).
        split; [exact Hent|]. exists w. split; [|exact HT].
        apply lookup_app_l_Some, Hw.
      * apply list_elem_of_singleton in He as ->. split; [reflexivity|].
        exists w0. split; [|reflexivity]. simpl.
        rewrite lookup_app_r by (unfold p; lia).
        replace (p - length (waits s))%nat with 0%nat by (unfold p; lia). reflexivity.
    + rewrite lookup_insert_ne in Hq by congruence.
      destruct (H1 T' q e Hq He) as (Hent & w & Hw & HT).
      split; [exact Hent|]. exists w. split; [|exact HT].
      apply lookup_app_l_Some, Hw.
  - intros T'. destruct (decide (T' = T)) as [->|Hne].
    + rewrite lookup_insert_eq. intros [=Heq]. destruct (default [] _); discriminate.
    + rewrite lookup_insert_ne by congruence. apply H2.
  - intros p' w Hw Hst.
    apply lookup_app_Some in Hw as [Hw|[Hlen Hw]].
    + destruct (H3 p' w Hw Hst) as (q & Hq & Hin).
      destruct (decide (w_eventType w = T)) as [HT|Hne].
      * rewrite HT in *. rewrite lookup_insert_eq, Hq. simpl.
        eexists; split; [reflexivity|]. apply elem_of_app; left; exact Hin.
      * rewrite lookup_insert_ne by congruence. eauto.
    + destruct (p' - length (waits s))%nat as [|n] eqn:Hd; simpl in Hw; [|rewrite lookup_nil in Hw; discriminate].
      injection Hw as <-. simpl. rewrite lookup_insert_eq.
      eexists; split; [reflexivity|]. apply elem_of_app; right.
      replace p' with p by (unfold p; lia). apply list_elem_of_singleton. reflexivity.
  - intros p' w Hw Ht.
    apply lookup_app_Some in Hw as [Hw|[Hlen Hw]]; [eauto|].
    destruct (p' - length (waits s))%nat as [|n] eqn:Hd; simpl in Hw; [|rewrite lookup_nil in Hw; discriminate].
    injection Hw as <-. reflexivity.
Qed.

Lemma update_wait_twice k f g s :
  update_wait k f (update_wait k g s) = update_wait k (fun w => f (g w)) s.
Proof.
  unfold update_wait. destruct (waits s !! k) as [w|] eqn:Hk; simpl.
  - rewrite list_lookup_insert_eq by (eapply lookup_lt_Some, Hk). simpl.
    unfold set_waits. simpl. rewrite list_insert_insert_eq. reflexivity.
  - rewrite Hk. reflexivity.
Qed.

Lemma update_wait_set_pendingPromises k f m s :
  update_wait k f (set_pendingPromises m s) = set_pendingPromises m (update_wait k f s).
Proof. unfold update_wait. simpl. destruct (waits s !! k); reflexivity. Qed.

Lemma update_wait_emit k f o s : update_wait k f (emit o s) = emit o (update_wait k f s).
Proof. unfold update_wait. simpl. destruct (waits s !! k); reflexivity. Qed.

Lemma update_wait_set_now k f t s : update_wait k f (set_now t s) = set_now t (update_wait k f s).
Proof. unfold update_wait. simpl. destruct (waits s !! k); reflexivity. Qed.

Lemma benign_resolved e : benign (resolved e).
Proof.
  intros w. unfold resolved, cleared, settle.
  destruct w as [T d dl st tm iv]; destruct st, tm; simpl; repeat split; congruence.
Qed.

Lemma benign_cancelled err : benign (cancelled err).
Proof.
  intros w. unfold cancelled, cleared, settle.
  destruct w as [T d dl st tm iv]; destruct st, tm; simpl; repeat split; congruence.
Qed.

Lemma benign_timed_out detail : benign (timed_out detail).
Proof.
  intros w. unfold timed_out, settle.
  destruct w as [T d dl st tm iv]; destruct st, tm; simpl; repeat split; congruence.
Qed.

Lemma benign_collecting : benign collecting.
Proof.
  intros w. unfold collecting.
  destruct w as [T d dl st tm iv]; destruct st, tm; simpl; repeat split; congruence.
Qed.

Lemma wf_update_wait k f s : benign f -> wf s -> wf (update_wait k f s).
Proof.
  intros Hf [H1 H2 H3 H4].
  destruct (update_wait_fields k f s) as (Hp & _).
  split; rewrite ?Hp.
  - intros T q e Hq He. destruct (H1 T q e Hq He) as (Hent & w & Hw & HT).
    split; [exact Hent|]. rewrite update_wait_lookup. case_decide as Hk.
    + rewrite <- Hk, Hw. simpl. eexists; split; [reflexivity|].
      rewrite (proj1 (Hf w)). exact HT.
    + eauto.
  - exact H2.
  - intros p w'. rewrite update_wait_lookup. case_decide as Hk.
    + subst p. destruct (waits s !! k) as [w|] eqn:Hw; [|discriminate]. simpl.
      intros [= <-] Hst. destruct (Hf w) as (HT & Hpend & _). rewrite HT.
      apply (H3 k w Hw), Hpend, Hst.
    + apply H3.
  - intros p w'. rewrite update_wait_lookup. case_decide as Hk.
    + subst p. destruct (waits s !! k) as [w|] eqn:Hw; [|discriminate]. simpl.
      intros [= <-] Ht. destruct (Hf w) as (_ & _ & Harm).
      destruct (Harm Ht) as [Ha ->]. apply (H4 k w Hw Ha).
    + apply H4.
Qed.

Lemma dequeue_lookup T rest m T' :
  dequeue T rest m !! T'
  = if decide (T' = T) then (match rest with [] => None | _ => Some rest end) else m !! T'.
Proof.
  unfold dequeue. case_decide as H.
  - subst T'. destruct rest; [apply lookup_delete_eq | apply lookup_insert_eq].
  - destruct rest; [apply lookup_delete_ne | apply lookup_insert_ne]; congruence.
Qed.

Lemma entry_of_inj p q : entry_of p = entry_of q -> p = q.
Proof. intros [= H]. exact H. Qed.

Lemma wf_dequeue T e rest s :
  wf s -> pendingPromises s !! T = Some (e :: rest) ->
  (forall w, waits s !! reject e = Some w -> w_state w <> Pending) ->
  wf (set_pendingPromises (dequeue T rest (pendingPromises s)) s).
Proof.
  intros [H1 H2 H3 H4] Hq Hsettled. split; simpl.
  - intros T' q' e'. rewrite dequeue_lookup. case_decide as HT.
    + subst T'. destruct rest as [|r rest]; [discriminate|]. intros [= <-] He'.
      apply (H1 T (e :: r :: rest) e' Hq). right. exact He'.
    + apply H1.
  - intros T'. rewrite dequeue_lookup. case_decide as HT; [destruct rest; discriminate | apply H2].
  - intros p w Hw Hst. destruct (H3 p w Hw Hst) as (q & Hq' & Hin).
    rewrite dequeue_lookup. case_decide as HT.
    + rewrite HT, Hq in Hq'. injection Hq' as <-.
      apply elem_of_cons in Hin as [Hin|Hin].
      * exfalso. rewrite <- Hin in Hsettled. simpl in Hsettled.
        apply (Hsettled w Hw Hst).
      * destruct rest as [|r rest]; [apply elem_of_nil in Hin; contradiction|].
        eexists; split; [reflexivity | exact Hin].
    + eauto.
  - exact H4.
Qed.

(** What [publishEvent] does when the queue of the type has a first entry. *)
Lemma publishEvent_head T d s p rest :
  pendingPromises s !! T = Some (entry_of p :: rest) ->
  publishEvent T d s
  = set_pendingPromises (dequeue T rest (pendingPromises s))
      (update_wait p (resolved (mkEvent T d (now s)))
         (emit (LogPublished T (d ≫= elementId)) s)).
Proof.
  intros Hq. unfold publishEvent. simpl. rewrite Hq. simpl.
  unfold clearInterval, clearTimeout.
  transitivity
    (update_wait p (settle (Fulfilled (mkEvent T d (now s))))
       (update_wait p (with_interval false)
          (update_wait p cleared
             (set_pendingPromises (dequeue T rest (pendingPromises s))
                (emit (LogPublished T (d ≫= elementId)) s))))).
  - change (fun w : Wait => match w_timer w with
                             | Armed => with_timer Finished w
                             | _ => w
                             end) with cleared.
    rewrite update_wait_set_pendingPromises.
    rewrite (proj1 (update_wait_fields p cleared _)). simpl.
    destruct rest; reflexivity.
  - rewrite !update_wait_twice, !update_wait_set_pendingPromises. reflexivity.
Qed.

(** Without a queue for the type the event only leaves its console line. *)
Lemma publishEvent_dropped T d s :
  pendingPromises s !! T = None ->
  publishEvent T d s = emit (LogPublished T (d ≫= elementId)) s.
Proof. intros Hq. unfold publishEvent. simpl. rewrite Hq. reflexivity. Qed.

Lemma head_entry s T q :
  wf s -> pendingPromises s !! T = Some q ->
  exists p rest w, q = entry_of p :: rest /\ waits s !! p = Some w /\ w_eventType w = T.
Proof.
  intros Hwf Hq. destruct q as [|e rest]; [destruct (wf_nonempty s Hwf T Hq)|].
  destruct (wf_entries s Hwf T _ e Hq) as (He & w & Hw & HT); [left|].
  exists (reject e), rest, w. rewrite <- He. auto.
Qed.

Lemma resolved_not_pending e w : w_state (resolved e w) <> Pending.
Proof.
  unfold resolved, cleared, settle.
  destruct w as [T d dl st tm iv]; destruct st, tm; simpl; congruence.
Qed.

Lemma publishEvent_wf T d s : wf s -> wf (publishEvent T d s).
Proof.
  intros Hwf. destruct (pendingPromises s !! T) as [q|] eqn:Hq.
  - destruct (head_entry s T q Hwf Hq) as (p & rest & w & -> & Hw & HT).
    rewrite (publishEvent_head T d s p rest Hq).
    set (s1 := update_wait p (resolved (mkEvent T d (now s)))
                 (emit (LogPublished T (d ≫= elementId)) s)).
    assert (Hwf1 : wf s1).
    { apply wf_update_wait; [apply benign_resolved|]. eapply wf_same; [| |exact Hwf]; reflexivity. }
    assert (Hp1 : pendingPromises s1 = pendingPromises s).
    { unfold s1. destruct (update_wait_fields p (resolved (mkEvent T d (now s)))
                             (emit (LogPublished T (d ≫= elementId)) s)) as (-> & _).
      reflexivity. }
    rewrite <- Hp1. apply (wf_dequeue T (entry_of p) rest s1 Hwf1).
    + rewrite Hp1. exact Hq.
    + simpl. intros w1. unfold s1. rewrite update_wait_lookup, decide_True by reflexivity.
      simpl. rewrite Hw. simpl. intros [= <-]. apply resolved_not_pending.
  - rewrite publishEvent_dropped by exact Hq. eapply wf_same; [| |exact Hwf]; reflexivity.
Qed.

(** The timeout handler looks for the executor's [resolve], but every stored
    entry holds the wrapper: the search never finds anything. *)
Lemma findIndex_wrapped tid q :
  (forall e, e ∈ q -> e = entry_of (reject e)) -> findIndex (ExecutorResolve tid) q = None.
Proof.
  induction q as [|e q IH]; intros Hq; [reflexivity|]. simpl.
  rewrite (Hq e) by left. simpl. rewrite IH; [reflexivity|].
  intros e' He'. apply Hq. right. exact He'.
Qed.

Lemma benign_on_timeout s : benign (on_timeout s).
Proof.
  unfold on_timeout. destruct (debug (options s)); [destruct (page s)|];
    auto using benign_collecting, benign_timed_out.
Qed.

Lemma timeoutHandler_spec tid w s :
  wf s -> waits s !! tid = Some w ->
  timeoutHandler tid w s = update_wait tid (on_timeout s) s.
Proof.
  intros Hwf Hw. unfold timeoutHandler, clearInterval, call_reject.
  destruct (update_wait_fields tid (with_interval false) s) as (Hp & _ & _ & _ & Ho & Hpg & _).
  rewrite Hp.
  assert (Hfind : forall q, pendingPromises s !! w_eventType w = Some q ->
                            findIndex (ExecutorResolve tid) q = None).
  { intros q Hq. apply findIndex_wrapped. intros e He.
    apply (wf_entries s Hwf _ _ e Hq He). }
  destruct (pendingPromises s !! w_eventType w) as [q|] eqn:Hq;
    [rewrite (Hfind q eq_refl)|]; rewrite Ho, Hpg; unfold on_timeout;
    (destruct (debug (options s)); [destruct (page s)|]);
    rewrite !update_wait_twice; unfold update_wait; rewrite Hw; reflexivity.
Qed.

Lemma timerFires_spec tid w s :
  wf s -> waits s !! tid = Some w -> w_timer w = Armed ->
  timerFires tid s
  = update_wait tid (on_timeout s) (set_now (Z.max (now s) (w_deadline w)) s).
Proof.
  intros Hwf Hw Ht. unfold timerFires. rewrite Hw, Ht.
  rewrite (timeoutHandler_spec tid w); [reflexivity| |exact Hw].
  eapply wf_same; [| |exact Hwf]; reflexivity.
Qed.

Lemma timerFires_idle tid s :
  (forall w, waits s !! tid = Some w -> w_timer w <> Armed) -> timerFires tid s = s.
Proof.
  intros H. unfold timerFires. destruct (waits s !! tid) as [w|]; [|reflexivity].
  specialize (H w eq_refl). destruct (w_timer w); congruence.
Qed.

Lemma diagnosticsDone_spec tid d w s :
  waits s !! tid = Some w -> w_timer w = Collecting ->
  diagnosticsDone tid d s
  = update_wait tid (fun w => settle (Rejected (TimeoutError (w_eventType w) (w_timeout w)
                                  (match d with Some x => Snapshot x | None => CouldNotCollect end)))
                                (with_timer Finished w)) s.
Proof.
  intros Hw Ht. unfold diagnosticsDone, call_reject. rewrite Hw, Ht.
  rewrite update_wait_twice. unfold update_wait. rewrite Hw. reflexivity.
Qed.

Lemma diagnosticsDone_idle tid d s :
  (forall w, waits s !! tid = Some w -> w_timer w <> Collecting) -> diagnosticsDone tid d s = s.
Proof.
  intros H. unfold diagnosticsDone. destruct (waits s !! tid) as [w|]; [|reflexivity].
  specialize (H w eq_refl). destruct (w_timer w); congruence.
Qed.

Lemma deliver_wf i s : wf s -> wf (deliver i s).
Proof.
  intros Hwf. destruct i as [T d|dt|tid|tid d|r]; simpl.
  - apply publishEvent_wf, Hwf.
  - eapply wf_same; [| |exact Hwf]; reflexivity.
  - destruct (waits s !! tid) as [w|] eqn:Hw.
    + destruct (w_timer w) eqn:Ht.
      * rewrite (timerFires_spec tid w s Hwf Hw Ht).
        apply wf_update_wait; [apply benign_on_timeout|].
        eapply wf_same; [| |exact Hwf]; reflexivity.
      * rewrite timerFires_idle; [exact Hwf|]. intros w'. rewrite Hw. intros [= <-]. congruence.
      * rewrite timerFires_idle; [exact Hwf|]. intros w'. rewrite Hw. intros [= <-]. congruence.
    + rewrite timerFires_idle; [exact Hwf|]. intros w'. rewrite Hw. discriminate.
  - destruct (waits s !! tid) as [w|] eqn:Hw.
    + destruct (w_timer w) eqn:Ht.
      * rewrite diagnosticsDone_idle; [exact Hwf|]. intros w'. rewrite Hw. intros [= <-]. congruence.
      * rewrite (diagnosticsDone_spec tid d w s Hw Ht).
        apply wf_update_wait; [|exact Hwf].
        intros [T dd dl st tm iv]; destruct st, tm; unfold settle; simpl; repeat split; congruence.
      * rewrite diagnosticsDone_idle; [exact Hwf|]. intros w'. rewrite Hw. intros [= <-]. congruence.
    + rewrite diagnosticsDone_idle; [exact Hwf|]. intros w'. rewrite Hw. discriminate.
  - exact Hwf.
Qed.

(** ** Teardown *)

Lemma rejectQueue_flat mkErr l s :
  foldl (rejectQueue mkErr) s l = foldl (rejectEntry mkErr) s (flat l).
Proof.
  revert s. induction l as [|[T q] l IH]; intros s; [reflexivity|].
  unfold flat. rewrite bind_cons, foldl_app. simpl. fold (flat l). rewrite <- IH. f_equal.
  unfold rejectQueue. simpl. rewrite foldl_fmap. reflexivity.
Qed.

Lemma torn_idem mkErr w : torn mkErr (torn mkErr w) = torn mkErr w.
Proof.
  unfold torn, cancelled, cleared, settle.
  destruct w as [T d dl st tm iv]; destruct st, tm; reflexivity.
Qed.

Lemma cancelled_torn mkErr w : cancelled (mkErr (w_eventType w)) (torn mkErr w) = torn mkErr w.
Proof.
  unfold torn, cancelled, cleared, settle.
  destruct w as [T d dl st tm iv]; destruct st, tm; reflexivity.
Qed.

Lemma rejectWaiter_entry err s p :
  rejectWaiter err s (entry_of p) = update_wait p (cancelled err) s.
Proof.
  unfold rejectWaiter, call_reject, clearTimeout. simpl. rewrite update_wait_twice. reflexivity.
Qed.

Lemma rejectEntries_spec mkErr s0 l :
  (forall T e, (T, e) ∈ l ->
     e = entry_of (reject e) /\ exists w, waits s0 !! reject e = Some w /\ w_eventType w = T) ->
  let s1 := foldl (rejectEntry mkErr) s0 l in
  pendingPromises s1 = pendingPromises s0
  /\ now s1 = now s0 /\ trace s1 = trace s0 /\ script s1 = script s0
  /\ options s1 = options s0 /\ page s1 = page s0 /\ browser s1 = browser s0
  /\ forall j, waits s1 !! j
       = (if decide (j ∈ (fun Te => reject Te.2) <$> l) then torn mkErr else id) <$> waits s0 !! j.
Proof.
  induction l as [|[T e] l IH] using rev_ind; intros Hl s1.
  - subst s1. simpl. repeat split. intros j.
    destruct (waits s0 !! j); reflexivity.
  - subst s1. rewrite foldl_snoc.
    destruct IH as (I1 & I2 & I3 & I4 & I5 & I6 & I7 & I8).
    { intros T' e' Hin. apply Hl, elem_of_app. left. exact Hin. }
    destruct (Hl T e) as (He & w & Hw & HT); [apply elem_of_app; right; left|].
    destruct e as [r p t]. unfold entry_of in He. simpl in He, Hw. injection He as -> ->.
    change (mkWaiter (WrappedResolve p) p p) with (entry_of p) in *.
    assert (Hstep : forall s, rejectEntry mkErr s (T, entry_of p)
                              = update_wait p (cancelled (mkErr T)) s)
      by (intros; apply rejectWaiter_entry).
    rewrite Hstep.
    destruct (update_wait_fields p (cancelled (mkErr T))
                (foldl (rejectEntry mkErr) s0 l)) as (U1 & U2 & U3 & U4 & U5 & U6 & U7 & _).
    rewrite U1, U2, U3, U4, U5, U6, U7. repeat split; try assumption.
    intros j. rewrite update_wait_lookup.
    assert (Hmem : j ∈ (fun Te : string * Waiter => reject Te.2) <$> l ++ [(T, entry_of p)]
                   <-> j ∈ (fun Te : string * Waiter => reject Te.2) <$> l \/ j = p).
    { rewrite fmap_app, elem_of_app. simpl. rewrite list_elem_of_singleton. reflexivity. }
    destruct (decide (j = p)) as [->|Hj].
    + rewrite I8, Hw.
      destruct (decide (p ∈ (fun Te : string * Waiter => reject Te.2) <$> l ++ [(T, entry_of p)]))
        as [_|Hn]; [|exfalso; apply Hn, Hmem; right; reflexivity].
      destruct (decide (p ∈ (fun Te : string * Waiter => reject Te.2) <$> l));
        simpl; f_equal; rewrite <- HT; [apply cancelled_torn | reflexivity].
    + rewrite I8.
      destruct (decide (j ∈ (fun Te : string * Waiter => reject Te.2) <$> l ++ [(T, entry_of p)]))
        as [Hin|Hn];
        destruct (decide (j ∈ (fun Te : string * Waiter => reject Te.2) <$> l)) as [Hin'|Hn'];
        try reflexivity.
      * apply Hmem in Hin as [Hin|Hin]; contradiction.
      * exfalso. apply Hn, Hmem. left. exact Hin'.
Qed.

Lemma elem_of_flat T e l :
  (T, e) ∈ flat l <-> exists q, (T, q) ∈ l /\ e ∈ q.
Proof.
  unfold flat. rewrite list_elem_of_bind. split.
  - intros ([T' q] & Hin & Hl). simpl in Hin.
    apply list_elem_of_fmap in Hin as (e' & [= -> ->] & He). eauto.
  - intros (q & Hl & He). exists (T, q). split; [|exact Hl]. simpl.
    apply list_elem_of_fmap. eauto.
Qed.

Lemma torn_settled mkErr w :
  w_state w <> Pending -> w_timer w <> Armed -> torn mkErr w = w.
Proof.
  unfold torn, cancelled, cleared, settle.
  destruct w as [T d dl st tm iv]; destruct st, tm; simpl; congruence.
Qed.

Lemma torn_state mkErr w :
  w_state (torn mkErr w)
  = match w_state w with
    | Pending => Rejected (mkErr (w_eventType w))
    | st => st
    end.
Proof.
  unfold torn, cancelled, cleared, settle.
  destruct w as [T d dl st tm iv]; destruct st, tm; reflexivity.
Qed.

Lemma torn_timer mkErr w : w_timer (torn mkErr w) <> Armed.
Proof.
  unfold torn, cancelled, cleared, settle.
  destruct w as [T d dl st tm iv]; destruct st, tm; simpl; congruence.
Qed.

Lemma rejectAllPending_spec mkErr s :
  wf s ->
  let s' := rejectAllPending mkErr s in
  pendingPromises s' = ∅
  /\ now s' = now s /\ trace s' = trace s /\ script s' = script s
  /\ options s' = options s /\ page s' = page s /\ browser s' = browser s
  /\ forall j, waits s' !! j = torn mkErr <$> waits s !! j.
Proof.
  intros Hwf s'. subst s'. unfold rejectAllPending. rewrite rejectQueue_flat.
  destruct (rejectEntries_spec mkErr s (flat (map_to_list (pendingPromises s))))
    as (I1 & I2 & I3 & I4 & I5 & I6 & I7 & I8).
  { intros T e (q & Hq & He)%elem_of_flat. apply elem_of_map_to_list in Hq.
    apply (wf_entries s Hwf T q e Hq He). }
  simpl. repeat split; try assumption.
  intros j. rewrite I8. destruct (waits s !! j) as [w|] eqn:Hw; [|reflexivity]. simpl.
  case_decide as Hin; [reflexivity|]. f_equal. symmetry.
  assert (Hst : w_state w <> Pending).
  { intros Hst. destruct (wf_pending s Hwf j w Hw Hst) as (q & Hq & He).
    apply Hin. apply list_elem_of_fmap. exists (w_eventType w, entry_of j).
    split; [reflexivity|]. apply elem_of_flat. exists q. split; [|exact He].
    apply elem_of_map_to_list, Hq. }
  apply torn_settled; [exact Hst|]. intros Ht. apply Hst, (wf_armed s Hwf j w Hw Ht).
Qed.

Lemma rejectAllPending_idem mkErr s :
  rejectAllPending mkErr (rejectAllPending mkErr s) = rejectAllPending mkErr s.
Proof.
  unfold rejectAllPending at 1. cbn [pendingPromises rejectAllPending set_pendingPromises].
  rewrite map_to_list_empty. reflexivity.
Qed.

Lemma rejectAllPending_wf mkErr s : wf s -> wf (rejectAllPending mkErr s).
Proof.
  intros Hwf. destruct (rejectAllPending_spec mkErr s Hwf) as (Hp & _ & _ & _ & _ & _ & _ & Hw).
  split; rewrite ?Hp.
  - intros T q e H. rewrite lookup_empty in H. discriminate.
  - intros T. rewrite lookup_empty. discriminate.
  - intros p w'. rewrite Hw. destruct (waits s !! p) as [w|]; [|discriminate]. simpl.
    intros [= <-]. rewrite torn_state. destruct (w_state w); discriminate.
  - intros p w'. rewrite Hw. destruct (waits s !! p) as [w|]; [|discriminate]. simpl.
    intros [= <-] Ht. destruct (torn_timer mkErr w Ht).
Qed.

Lemma rejectAllPending_quiescent mkErr s : wf s -> quiescent (rejectAllPending mkErr s).
Proof.
  intros Hwf. destruct (rejectAllPending_spec mkErr s Hwf) as (Hp & _ & _ & _ & _ & _ & _ & Hw).
  split; [exact Hp|]. intros j w'. rewrite Hw.
  destruct (waits s !! j) as [w|]; [|discriminate]. simpl.
  intros [= <-]. rewrite torn_state. destruct (w_state w); discriminate.
Qed.

Lemma state_of_update_wait k f s j :
  (forall w, waits s !! k = Some w -> w_state (f w) = w_state w) ->
  state_of j (update_wait k f s) = state_of j s.
Proof.
  intros Hf. unfold state_of. rewrite update_wait_lookup. case_decide as Hj; [|reflexivity].
  subst j. destruct (waits s !! k) as [w|]; [|reflexivity]. simpl. f_equal. auto.
Qed.

(** Once quiescent, nothing that arrives changes a promise or a queue. *)
Lemma deliver_quiescent i s :
  wf s -> quiescent s ->
  quiescent (deliver i s) /\ forall j, state_of j (deliver i s) = state_of j s.
Proof.
  intros Hwf [Hp Hst].
  assert (Hnot_armed : forall tid w, waits s !! tid = Some w -> w_timer w <> Armed).
  { intros tid w Hw Ht. apply (Hst tid w Hw), (wf_armed s Hwf tid w Hw Ht). }
  destruct i as [T d|dt|tid|tid d|r]; simpl.
  - rewrite publishEvent_dropped by (rewrite Hp; apply lookup_empty).
    split; [split; assumption | reflexivity].
  - split; [split; assumption | reflexivity].
  - rewrite timerFires_idle by exact (Hnot_armed tid). split; [split; assumption | reflexivity].
  - destruct (waits s !! tid) as [w|] eqn:Hw.
    + destruct (w_timer w) eqn:Ht.
      * destruct (Hnot_armed tid w Hw Ht).
      * rewrite (diagnosticsDone_spec tid d w s Hw Ht).
        assert (Hsame : forall w0, waits s !! tid = Some w0 ->
                  w_state (settle (Rejected (TimeoutError (w_eventType w0) (w_timeout w0)
                             (match d with Some x => Snapshot x | None => CouldNotCollect end)))
                             (with_timer Finished w0)) = w_state w0).
        { intros w0 Hw0. specialize (Hst tid w0 Hw0). unfold settle. simpl.
          destruct w0 as [T0 d0 dl0 st0 tm0 iv0]. simpl in *.
          destruct st0; [congruence|reflexivity..]. }
        split; [split|].
        -- rewrite (proj1 (update_wait_fields _ _ _)). exact Hp.
        -- intros j w'. rewrite update_wait_lookup. case_decide as Hj.
           ++ subst j. rewrite Hw. simpl. intros [= <-]. rewrite (Hsame w Hw). apply (Hst tid w Hw).
           ++ apply Hst.
        -- intros j. apply state_of_update_wait. exact Hsame.
      * rewrite diagnosticsDone_idle; [split; [split; assumption | reflexivity]|].
        intros w'. rewrite Hw. intros [= <-]. congruence.
    + rewrite diagnosticsDone_idle; [split; [split; assumption | reflexivity]|].
      intros w'. rewrite Hw. discriminate.
  - split; [split; assumption | reflexivity].
Qed.

(** ** What one incoming item can touch *)

Lemma frame_refl s : frame s s.
Proof. unfold frame. repeat split; try lia. reflexivity. Qed.

Lemma frame_trans s1 s2 s3 : frame s1 s2 -> frame s2 s3 -> frame s1 s3.
Proof.
  unfold frame. intros (A1 & A2 & A3 & A4 & A5 & A6 & A7) (B1 & B2 & B3 & B4 & B5 & B6 & B7).
  repeat split; try congruence; try lia. etrans; eassumption.
Qed.

Lemma frame_set_script l s : frame s (set_script l s).
Proof. unfold frame. simpl. repeat split; try lia. reflexivity. Qed.

Lemma frame_update_wait k f s : frame s (update_wait k f s).
Proof.
  unfold frame, update_wait. destruct (waits s !! k); simpl; rewrite ?length_insert;
    repeat split; try lia; reflexivity.
Qed.

Lemma frame_set_pendingPromises m s : frame s (set_pendingPromises m s).
Proof. unfold frame. simpl. repeat split; try lia. reflexivity. Qed.

Lemma frame_emit o s : frame s (emit o s).
Proof. unfold frame. simpl. repeat split; try lia. apply prefix_app_r. reflexivity. Qed.

Lemma frame_set_now t s : frame s (set_now t s).
Proof. unfold frame. simpl. repeat split; try lia. reflexivity. Qed.

Ltac frame_step :=
  first [ apply frame_refl
        | eapply frame_trans; [|apply frame_update_wait]
        | eapply frame_trans; [|apply frame_set_pendingPromises]
        | eapply frame_trans; [|apply frame_emit]
        | eapply frame_trans; [|apply frame_set_now] ].

Lemma deliver_frame i s : frame s (deliver i s).
Proof.
  destruct i as [T d|dt|tid|tid d|r]; simpl.
  - unfold publishEvent. simpl.
    destruct (pendingPromises s !! T) as [[|e rest]|]; simpl; [apply frame_emit | | apply frame_emit].
    unfold call_resolve, clearInterval, clearTimeout.
    destruct (resolve e); destruct rest; repeat frame_step.
  - apply frame_set_now.
  - unfold timerFires. destruct (waits s !! tid) as [w|]; [|apply frame_refl].
    destruct (w_timer w); try apply frame_refl.
    unfold timeoutHandler, call_reject, clearInterval.
    repeat match goal with
           | |- context [match ?x with _ => _ end] => destruct x
           end; repeat frame_step.
  - unfold diagnosticsDone, call_reject. destruct (waits s !! tid) as [w|]; [|apply frame_refl].
    destruct (w_timer w); try apply frame_refl. repeat frame_step.
  - apply frame_refl.
Qed.

Lemma timerFires_queues tid s : wf s -> pendingPromises (timerFires tid s) = pendingPromises s.
Proof.
  intros Hwf. destruct (waits s !! tid) as [w|] eqn:Hw.
  - destruct (w_timer w) eqn:Ht.
    + rewrite (timerFires_spec tid w s Hwf Hw Ht).
      rewrite (proj1 (update_wait_fields _ _ _)). reflexivity.
    + rewrite timerFires_idle; [reflexivity|]. intros w'. rewrite Hw. intros [= <-]. congruence.
    + rewrite timerFires_idle; [reflexivity|]. intros w'. rewrite Hw. intros [= <-]. congruence.
  - rewrite timerFires_idle; [reflexivity|]. intros w'. rewrite Hw. discriminate.
Qed.

Lemma diagnosticsDone_queues tid d s :
  pendingPromises (diagnosticsDone tid d s) = pendingPromises s.
Proof.
  unfold diagnosticsDone, call_reject. destruct (waits s !! tid) as [w|]; [|reflexivity].
  destruct (w_timer w); try reflexivity.
  rewrite !(proj1 (update_wait_fields _ _ _)). reflexivity.
Qed.

Lemma deliver_untouched i s p w :
  wf s -> waits s !! p = Some w -> ~ touches p (w_eventType w) i ->
  waits (deliver i s) !! p = Some w
  /\ pendingPromises (deliver i s) !! w_eventType w = pendingPromises s !! w_eventType w.
Proof.
  intros Hwf Hw Hi. destruct i as [T d|dt|tid|tid d|r]; simpl in *.
  - destruct (pendingPromises s !! T) as [q|] eqn:Hq.
    + destruct (head_entry s T q Hwf Hq) as (p' & rest & w' & -> & Hw' & HT').
      rewrite (publishEvent_head T d s p' rest Hq). simpl.
      rewrite dequeue_lookup, decide_False by congruence.
      split; [|reflexivity].
      rewrite update_wait_lookup. rewrite decide_False; [exact Hw|].
      intros ->. simpl in Hw'. rewrite Hw in Hw'. injection Hw' as <-. congruence.
    + rewrite publishEvent_dropped by exact Hq. auto.
  - auto.
  - rewrite timerFires_queues by exact Hwf. split; [|reflexivity].
    destruct (waits s !! tid) as [w'|] eqn:Hw'.
    + destruct (w_timer w') eqn:Ht.
      * rewrite (timerFires_spec tid w' s Hwf Hw' Ht).
        rewrite update_wait_lookup, decide_False by congruence. exact Hw.
      * rewrite timerFires_idle; [exact Hw|]. intros w0. rewrite Hw'. intros [= <-]. congruence.
      * rewrite timerFires_idle; [exact Hw|]. intros w0. rewrite Hw'. intros [= <-]. congruence.
    + rewrite timerFires_idle; [exact Hw|]. intros w0. rewrite Hw'. discriminate.
  - rewrite diagnosticsDone_queues. split; [|reflexivity].
    unfold diagnosticsDone, call_reject. destruct (waits s !! tid) as [w'|]; [|exact Hw].
    destruct (w_timer w'); try exact Hw.
    rewrite !update_wait_lookup, !decide_False by congruence. exact Hw.
  - auto.
Qed.

Lemma now_update_wait k f s : now (update_wait k f s) = now s.
Proof. apply update_wait_fields. Qed.

Lemma deliver_now i s : now s <= now (deliver i s).
Proof.
  destruct i as [T d|dt|tid|tid d|r]; simpl; try lia.
  - unfold publishEvent. simpl.
    destruct (pendingPromises s !! T) as [[|e rest]|]; simpl; try lia.
    unfold call_resolve, clearInterval, clearTimeout.
    destruct (resolve e); destruct rest; rewrite ?now_update_wait; simpl;
      rewrite ?now_update_wait; simpl; lia.
  - unfold timerFires. destruct (waits s !! tid) as [w|]; [|lia].
    destruct (w_timer w); try lia.
    unfold timeoutHandler, call_reject, clearInterval.
    repeat match goal with
           | |- context [match ?x with _ => _ end] => destruct x
           end; rewrite ?now_update_wait; simpl; rewrite ?now_update_wait; simpl; lia.
  - unfold diagnosticsDone, call_reject. destruct (waits s !! tid) as [w|]; [|lia].
    destruct (w_timer w); try lia. rewrite !now_update_wait. lia.
Qed.

(** ** The outcome of one wait *)

(** The verdict is a delivery exactly when an event of the type arrives while
    the wait is still waiting. *)
Lemma verdict_delivered (T : string) (p : nat) (dbg pg : bool) (d : option EventData)
    (incoming : list Incoming) :
  forall collecting,
    verdict T p dbg pg collecting incoming = Delivered d
    <-> exists before after,
          incoming = before ++ Publish T d :: after
          /\ verdict T p dbg pg collecting before = StillWaiting.
Proof.
  induction incoming as [|i incoming IH]; intros collecting.
  - split; [discriminate|]. intros (before & after & Heq & _).
    destruct before; discriminate Heq.
  - split.
    + intros Hv. destruct i as [T' d'|dt|tid|tid d'|r]; cbn [verdict] in Hv.
      * destruct (String.eqb_spec T' T) as [->|HT].
        -- injection Hv as ->. exists [], incoming. split; reflexivity.
        -- apply IH in Hv as (before & after & -> & Hb).
           exists (Publish T' d' :: before), after. split; [reflexivity|].
           cbn [verdict]. destruct (String.eqb_spec T' T); [contradiction | exact Hb].
      * apply IH in Hv as (before & after & -> & Hb).
        exists (Tick dt :: before), after. split; [reflexivity | exact Hb].
      * destruct (Nat.eqb tid p && negb collecting) eqn:Hc.
        -- destruct dbg; [destruct pg|]; try discriminate Hv.
           apply IH in Hv as (before & after & -> & Hb).
           exists (TimerFires tid :: before), after. split; [reflexivity|].
           cbn [verdict]. rewrite Hc. exact Hb.
        -- apply IH in Hv as (before & after & -> & Hb).
           exists (TimerFires tid :: before), after. split; [reflexivity|].
           cbn [verdict]. rewrite Hc. exact Hb.
      * destruct (Nat.eqb tid p && collecting) eqn:Hc; [discriminate Hv|].
        apply IH in Hv as (before & after & -> & Hb).
        exists (DiagnosticsDone tid d' :: before), after. split; [reflexivity|].
        cbn [verdict]. rewrite Hc. exact Hb.
      * apply IH in Hv as (before & after & -> & Hb).
        exists (Reply r :: before), after. split; [reflexivity | exact Hb].
    + intros (before & after & Heq & Hb).
      destruct before as [|i' before].
      * simpl in Heq. injection Heq as -> ->. cbn [verdict]. rewrite String.eqb_refl. reflexivity.
      * simpl in Heq. injection Heq as <- ->.
        destruct i as [T' d'|dt|tid|tid d'|r]; cbn [verdict] in *.
        -- destruct (String.eqb T' T); [discriminate Hb|]. apply IH. eauto.
        -- apply IH. eauto.
        -- destruct (Nat.eqb tid p && negb collecting).
           ++ destruct dbg; [destruct pg|]; try discriminate Hb. apply IH. eauto.
           ++ apply IH. eauto.
        -- destruct (Nat.eqb tid p && collecting); [discriminate Hb|]. apply IH. eauto.
        -- apply IH. eauto.
Qed.

Lemma await_settled_fulfilled p incoming s e :
  state_of p s = Some (Fulfilled e) -> await_settled p incoming s = (Ok e, set_script incoming s).
Proof. intros H. destruct incoming; simpl; rewrite H; reflexivity. Qed.

Lemma await_settled_rejected p incoming s err :
  state_of p s = Some (Rejected err) ->
  await_settled p incoming s = (Err err, set_script incoming s).
Proof. intros H. destruct incoming; simpl; rewrite H; reflexivity. Qed.

Lemma await_settled_pending p i rest s :
  state_of p s = Some Pending ->
  await_settled p (i :: rest) s = await_settled p rest (deliver i s).
Proof. intros H. simpl. rewrite H. reflexivity. Qed.

Lemma timed_out_state detail w :
  w_state w = Pending ->
  w_state (timed_out detail w) = Rejected (TimeoutError (w_eventType w) (w_timeout w) detail).
Proof.
  intros H. unfold timed_out, settle. destruct w as [T d dl st tm iv]. simpl in *.
  subst st. reflexivity.
Qed.

Lemma await_settled_spec incoming :
  forall (s : Tester) (p : nat) (w : Wait) (rest : list Waiter) (collecting : bool),
    wf s -> waits s !! p = Some w -> w_state w = Pending ->
    w_timer w = (if collecting then Collecting else Armed) ->
    (collecting = true -> w_deadline w <= now s) ->
    pendingPromises s !! w_eventType w = Some (entry_of p :: rest) ->
    let r := await_settled p incoming s in
    match verdict (w_eventType w) p (debug (options s)) (page s) collecting incoming with
    | Delivered d => exists t, r.1 = Ok (mkEvent (w_eventType w) d t)
    | TimedOut detail =>
        r.1 = Err (TimeoutError (w_eventType w) (w_timeout w) detail)
        /\ w_deadline w <= now r.2
    | StillWaiting => r.1 = Suspended
    end
    /\ wf r.2 /\ frame s r.2.
Proof.
  induction incoming as [|i incoming IH]; intros s p w rest collecting Hwf Hw Hst Ht Hdl Hq r.
  { subst r. simpl. unfold state_of. rewrite Hw. simpl. rewrite Hst. simpl.
    split; [reflexivity|]. split; [eapply wf_same; [| |exact Hwf]; reflexivity|].
    apply frame_set_script. }
  assert (Hpend : state_of p s = Some Pending) by (unfold state_of; rewrite Hw; simpl; congruence).
  subst r. rewrite (await_settled_pending p i incoming s Hpend).
  pose proof (deliver_frame i s) as Hfr.
  pose proof (deliver_wf i s Hwf) as Hwf'.
  pose proof (deliver_now i s) as Hnow.
  assert (Huntouched : ~ touches p (w_eventType w) i ->
            match verdict (w_eventType w) p (debug (options s)) (page s) collecting incoming with
            | Delivered d =>
                exists t, (await_settled p incoming (deliver i s)).1 = Ok (mkEvent (w_eventType w) d t)
            | TimedOut detail =>
                (await_settled p incoming (deliver i s)).1
                = Err (TimeoutError (w_eventType w) (w_timeout w) detail)
                /\ w_deadline w <= now (await_settled p incoming (deliver i s)).2
            | StillWaiting => (await_settled p incoming (deliver i s)).1 = Suspended
            end
            /\ wf (await_settled p incoming (deliver i s)).2
            /\ frame s (await_settled p incoming (deliver i s)).2).
  { intros Hi. destruct (deliver_untouched i s p w Hwf Hw Hi) as [Hw' Hq'].
    specialize (IH (deliver i s) p w rest collecting Hwf' Hw' Hst Ht).
    pose proof Hfr as Hfr'.
    destruct Hfr as (Ho & Hpg & Hrest).
    rewrite Ho, Hpg in IH. destruct IH as (IH1 & IH2 & IH3).
    - intros Hc. specialize (Hdl Hc). lia.
    - rewrite Hq'. exact Hq.
    - split; [exact IH1|]. split; [exact IH2|].
      eapply frame_trans; [|exact IH3]. apply deliver_frame. }
  destruct i as [T d|dt|tid|tid d|rp]; cbn [verdict].
  - (* an event is published *)
    destruct (String.eqb_spec T (w_eventType w)) as [->|HT]; [|apply Huntouched; exact HT].
    simpl deliver. rewrite (publishEvent_head _ d s p rest Hq).
    set (s' := set_pendingPromises _ _).
    assert (Hs' : state_of p s' = Some (Fulfilled (mkEvent (w_eventType w) d (now s)))).
    { unfold state_of, s'. simpl. rewrite update_wait_lookup, decide_True by reflexivity.
      simpl. rewrite Hw. simpl. unfold resolved, cleared, settle.
      destruct w as [T0 d0 dl0 st0 tm0 iv0]; simpl in *; subst st0; destruct tm0; reflexivity. }
    rewrite (await_settled_fulfilled p incoming s' _ Hs'). simpl.
    split; [eauto|]. split.
    + eapply wf_same; [| |exact Hwf']; simpl; rewrite (publishEvent_head _ d s p rest Hq); reflexivity.
    + eapply frame_trans; [exact Hfr|]. simpl deliver.
      rewrite (publishEvent_head _ d s p rest Hq). fold s'. apply frame_set_script.
  - apply Huntouched. simpl. tauto.
  - (* a timeout fires *)
    destruct (Nat.eqb_spec tid p) as [->|Htid]; [|apply Huntouched; exact Htid].
    destruct collecting; simpl andb; cbv iota.
    + (* it has fired before *)
      simpl deliver. simpl deliver in Hwf', Hfr, Hnow.
      rewrite timerFires_idle in * by (intros w0; rewrite Hw; intros [= <-]; congruence).
      apply (IH s p w rest true Hwf Hw Hst Ht Hdl Hq).
    + simpl deliver. simpl deliver in Hwf', Hfr, Hnow.
      rewrite (timerFires_spec p w s Hwf Hw Ht) in *.
      set (s' := update_wait p (on_timeout s) (set_now (Z.max (now s) (w_deadline w)) s)) in *.
      assert (Hnow' : w_deadline w <= now s').
      { unfold s'. rewrite now_update_wait. simpl. lia. }
      assert (Hw' : waits s' !! p = Some (on_timeout s w)).
      { unfold s'. rewrite update_wait_lookup, decide_True by reflexivity. simpl.
        rewrite Hw. reflexivity. }
      assert (Hq' : pendingPromises s' = pendingPromises s).
      { unfold s'. rewrite (proj1 (update_wait_fields _ _ _)). reflexivity. }
      unfold on_timeout in Hw'.
      destruct (debug (options s)) eqn:Hdbg; [destruct (page s) eqn:Hpg|].
      * (* debug: the handler starts collecting diagnostics *)
        specialize (IH s' p (collecting w) rest true Hwf' Hw' Hst eq_refl (fun _ => Hnow')).
        simpl in IH. rewrite Hq' in IH. specialize (IH Hq).
        pose proof Hfr as Hfr'.
        destruct Hfr as (Ho & Hpg' & Hrest). rewrite Ho, Hpg', Hdbg, Hpg in IH.
        destruct IH as (IH1 & IH2 & IH3). split; [exact IH1|]. split; [exact IH2|].
        eapply frame_trans; [|exact IH3]. exact Hfr'.
      * assert (Hs' : state_of p s'
                      = Some (Rejected (TimeoutError (w_eventType w) (w_timeout w) CouldNotCollect))).
        { unfold state_of. rewrite Hw'. simpl. f_equal. apply timed_out_state, Hst. }
        rewrite (await_settled_rejected p incoming s' _ Hs'). simpl.
        split; [split; [reflexivity | exact Hnow']|]. split.
        -- eapply wf_same; [| |exact Hwf']; reflexivity.
        -- eapply frame_trans; [exact Hfr|]. apply frame_set_script.
      * assert (Hs' : state_of p s'
                      = Some (Rejected (TimeoutError (w_eventType w) (w_timeout w) NoDetail))).
        { unfold state_of. rewrite Hw'. simpl. f_equal. apply timed_out_state, Hst. }
        rewrite (await_settled_rejected p incoming s' _ Hs'). simpl.
        split; [split; [reflexivity | exact Hnow']|]. split.
        -- eapply wf_same; [| |exact Hwf']; reflexivity.
        -- eapply frame_trans; [exact Hfr|]. apply frame_set_script.
  - (* the diagnostics arrive *)
    destruct (Nat.eqb_spec tid p) as [->|Htid]; [|apply Huntouched; exact Htid].
    destruct collecting; simpl andb; cbv iota.
    + simpl deliver. simpl deliver in Hwf', Hfr, Hnow.
      rewrite (diagnosticsDone_spec p d w s Hw Ht) in *.
      set (s' := update_wait p _ s) in *.
      assert (Hs' : state_of p s'
                    = Some (Rejected (TimeoutError (w_eventType w) (w_timeout w)
                              (match d with Some x => Snapshot x | None => CouldNotCollect end)))).
      { unfold state_of, s'. rewrite update_wait_lookup, decide_True by reflexivity.
        rewrite Hw. simpl. f_equal.
        destruct w as [T0 d0 dl0 st0 tm0 iv0]; simpl in *; subst st0; reflexivity. }
      rewrite (await_settled_rejected p incoming s' _ Hs'). simpl.
      split; [split; [reflexivity | specialize (Hdl eq_refl); lia]|]. split.
      * eapply wf_same; [| |exact Hwf']; reflexivity.
      * eapply frame_trans; [exact Hfr|]. apply frame_set_script.
    + simpl deliver. simpl deliver in Hwf', Hfr, Hnow.
      rewrite diagnosticsDone_idle in * by (intros w0; rewrite Hw; intros [= <-]; congruence).
      apply (IH s p w rest false Hwf Hw Hst Ht Hdl Hq).
  - apply Huntouched. simpl. tauto.
Qed.

(** ** Awaiting a collaborator *)

Lemma deliver_all_wf l s : wf s -> wf (deliver_all l s).
Proof.
  revert s. induction l as [|i l IH]; intros s Hwf; [exact Hwf|].
  simpl. apply IH, deliver_wf, Hwf.
Qed.

Lemma deliver_all_frame l s : frame s (deliver_all l s).
Proof.
  revert s. induction l as [|i l IH]; intros s; [apply frame_refl|].
  simpl. eapply frame_trans; [apply deliver_frame | apply IH].
Qed.

Lemma deliver_all_now l s : now s <= now (deliver_all l s).
Proof.
  revert s. induction l as [|i l IH]; intros s; [simpl; lia|].
  simpl. pose proof (deliver_now i s). specialize (IH (deliver i s)). lia.
Qed.

Lemma deliver_length i s : length (waits (deliver i s)) = length (waits s).
Proof.
  assert (U : forall k f s0, length (waits (update_wait k f s0)) = length (waits s0))
    by (intros; apply update_wait_fields).
  destruct i as [T d|dt|tid|tid d|r]; simpl; try reflexivity.
  - unfold publishEvent. simpl.
    destruct (pendingPromises s !! T) as [[|e rest]|]; simpl; try reflexivity.
    unfold call_resolve, clearInterval, clearTimeout.
    destruct (resolve e); destruct rest; rewrite ?U; simpl; rewrite ?U; reflexivity.
  - unfold timerFires. destruct (waits s !! tid) as [w|]; [|reflexivity].
    destruct (w_timer w); try reflexivity.
    unfold timeoutHandler, call_reject, clearInterval.
    repeat match goal with
           | |- context [match ?x with _ => _ end] => destruct x
           end; rewrite ?U; simpl; rewrite ?U; reflexivity.
  - unfold diagnosticsDone, call_reject. destruct (waits s !! tid) as [w|]; [|reflexivity].
    destruct (w_timer w); try reflexivity. rewrite !U. reflexivity.
Qed.

Lemma deliver_all_length l s : length (waits (deliver_all l s)) = length (waits s).
Proof.
  revert s. induction l as [|i l IH]; intros s; [reflexivity|].
  simpl. rewrite IH. apply deliver_length.
Qed.

(** Delivery never creates a queue. *)
Lemma deliver_no_queue i s T :
  wf s -> pendingPromises s !! T = None -> pendingPromises (deliver i s) !! T = None.
Proof.
  intros Hwf HT. destruct i as [T' d|dt|tid|tid d|r]; simpl; try exact HT.
  - destruct (pendingPromises s !! T') as [q|] eqn:Hq.
    + destruct (head_entry s T' q Hwf Hq) as (p' & rest & w' & -> & _ & _).
      rewrite (publishEvent_head T' d s p' rest Hq). simpl.
      rewrite dequeue_lookup. case_decide as Heq; [congruence | exact HT].
    + rewrite publishEvent_dropped by exact Hq. exact HT.
  - rewrite timerFires_queues by exact Hwf. exact HT.
  - rewrite diagnosticsDone_queues. exact HT.
Qed.

Lemma deliver_all_no_queue l s T :
  wf s -> pendingPromises s !! T = None -> pendingPromises (deliver_all l s) !! T = None.
Proof.
  revert s. induction l as [|i l IH]; intros s Hwf HT; [exact HT|].
  simpl. apply IH; [apply deliver_wf, Hwf | apply deliver_no_queue; assumption].
Qed.

Lemma await_reply_spec pre r rest s :
  forallb (fun i => negb (is_reply i)) pre = true ->
  await_reply (pre ++ Reply r :: rest) s = (outcome_of r, set_script rest (deliver_all pre s)).
Proof.
  revert s. induction pre as [|i pre IH]; intros s Hpre.
  - destruct r; reflexivity.
  - simpl in Hpre. apply andb_prop in Hpre as [Hi Hpre].
    destruct i; try discriminate Hi; simpl; apply IH, Hpre.
Qed.

Lemma await_reply_suspended l s :
  forallb (fun i => negb (is_reply i)) l = true ->
  await_reply l s = (Suspended, set_script [] (deliver_all l s)).
Proof.
  revert s. induction l as [|i l IH]; intros s Hl; [reflexivity|].
  simpl in Hl. apply andb_prop in Hl as [Hi Hl].
  destruct i; try discriminate Hi; simpl; apply IH, Hl.
Qed.

(** Any script splits at its first reply. *)
Lemma first_reply l :
  (exists pre r rest, l = pre ++ Reply r :: rest
                      /\ forallb (fun i => negb (is_reply i)) pre = true)
  \/ forallb (fun i => negb (is_reply i)) l = true.
Proof.
  induction l as [|i l IH]; [right; reflexivity|].
  destruct (is_reply i) eqn:Hi.
  - left. destruct i; try discriminate Hi. exists [], r, l. split; reflexivity.
  - destruct IH as [(pre & r & rest & -> & Hpre)|Hl].
    + left. exists (i :: pre), r, rest. split; [reflexivity|]. simpl. rewrite Hi, Hpre. reflexivity.
    + right. simpl. rewrite Hi, Hl. reflexivity.
Qed.

Lemma await_reply_wf l s : wf s -> wf (await_reply l s).2.
Proof.
  intros Hwf. destruct (first_reply l) as [(pre & r & rest & -> & Hpre)|Hl].
  - rewrite await_reply_spec by exact Hpre. simpl.
    eapply wf_same; [| |apply (deliver_all_wf pre s Hwf)]; reflexivity.
  - rewrite await_reply_suspended by exact Hl. simpl.
    eapply wf_same; [| |apply (deliver_all_wf l s Hwf)]; reflexivity.
Qed.

Lemma registerWaiter_spec T d s :
  let r := registerWaiter T d s in
  r.1 = length (waits s)
  /\ waits r.2 !! length (waits s)
     = Some (mkWait T d (now s + timerDelay d) Pending Armed (debug (options s)))
  /\ pendingPromises r.2 !! T
     = Some (default [] (pendingPromises s !! T) ++ [entry_of (length (waits s))])
  /\ options r.2 = options s /\ page r.2 = page s /\ now r.2 = now s
  /\ trace r.2 = trace s ++ [Waiting T d] /\ script r.2 = script s.
Proof.
  unfold registerWaiter. simpl. repeat split.
  - rewrite lookup_app_r by lia. rewrite Nat.sub_diag. reflexivity.
  - rewrite lookup_insert_eq. reflexivity.
Qed.

(** The outcome of a speak step with a file of the assets folder.  It first
    triggers the playback and then registers a wait for "speechend" with the
    default timeout of 30000 ms.  Once the playback call has returned, the
    outcome is the verdict of what arrives: success when "speechend" is
    published while the wait is unsettled, the timeout error (not before 30000
    ms have passed since the wait was registered; in debug mode with the
    diagnostics snapshot, or with the note that none could be collected) when
    the timeout rejects the wait first. *)
Lemma speak_file_outcome (s : Tester) (step : Step) (pre acts : list Incoming)
    (reply : Value) :
  wf s -> pendingPromises s !! "speechend" = None ->
  truthy (file step) = true -> truthy (text step) = false ->
  str (file step) ∈ assetFiles (disk s) ->
  script s = pre ++ Reply (inr reply) :: acts ->
  forallb (fun i => negb (is_reply i)) pre = true ->
  let r := handleSpeak step s in
  let registered := deliver_all pre (emit (Call (EvalSpeakFromUrl (str (file step)))) s) in
  (trace registered ++ [Waiting "speechend" 30000]) `prefix_of` trace r.2
  /\ match verdict "speechend" (length (waits s)) (debug (options s)) (page s) false acts with
     | Delivered _ => r.1 = Ok HUndefined
     | TimedOut detail =>
         r.1 = Err (TimeoutError "speechend" 30000 detail)
         /\ now registered + 30000 <= now r.2
     | StillWaiting => r.1 = Suspended
     end.
Proof.
  intros Hwf Hnone Hfile Htext Hasset Hscript Hpre r registered.
  set (s1 := set_script acts registered).
  assert (Heq : handleSpeak step s
                = match waitForAudioEvent "speechend" DEFAULT_TIMEOUT s1 with
                  | (Ok _, s2) => (Ok HUndefined, s2)
                  | (Err e, s2) =>
                      (Err e, emit (ErrorLine "Timeout waiting for speech to complete:" e) s2)
                  | (Suspended, s2) => (Suspended, s2)
                  end).
  { unfold handleSpeak. rewrite Hfile, Htext. simpl.
    unfold bind, read, call, try_catch, console, throw, ret.
    rewrite bool_decide_eq_true_2 by exact Hasset. simpl.
    rewrite Hscript, (await_reply_spec pre (inr reply) acts _ Hpre). simpl.
    fold registered. fold s1.
    destruct (waitForAudioEvent "speechend" DEFAULT_TIMEOUT s1) as [[e|e|] s2]; reflexivity. }
  subst r. rewrite Heq. clear Heq.
  assert (Hwf0 : wf registered).
  { apply deliver_all_wf. eapply wf_same; [| |exact Hwf]; reflexivity. }
  assert (Hwf1 : wf s1) by (eapply wf_same; [| |exact Hwf0]; reflexivity).
  assert (Hnone1 : pendingPromises s1 !! "speechend" = None).
  { unfold s1. simpl. apply deliver_all_no_queue; [|exact Hnone].
    eapply wf_same; [| |exact Hwf]; reflexivity. }
  pose proof (deliver_all_frame pre (emit (Call (EvalSpeakFromUrl (str (file step)))) s))
    as (Ho & Hpg & _).
  fold registered in Ho, Hpg. simpl in Ho, Hpg.
  assert (Hlen : length (waits s1) = length (waits s)).
  { unfold s1, registered. simpl. rewrite deliver_all_length. reflexivity. }
  unfold waitForAudioEvent.
  destruct (registerWaiter_spec "speechend" DEFAULT_TIMEOUT s1)
    as (Hp & Hw & Hq & Ho2 & Hpg2 & Hnow2 & Htr2 & Hsc2).
  pose proof (registerWaiter_wf "speechend" DEFAULT_TIMEOUT s1 Hwf1) as Hwf2.
  destruct (registerWaiter "speechend" DEFAULT_TIMEOUT s1) as [p s2]. simpl in *.
  subst p. rewrite Hnone1 in Hq. simpl in Hq.
  pose proof (await_settled_spec (script s2) s2 (length (waits s1)) _ [] false
                Hwf2 Hw eq_refl eq_refl ltac:(discriminate) Hq) as (Hv & _ & Hfr).
  simpl in Hv. rewrite Ho2, Hpg2, Hlen in Hv.
  change (options s1) with (options registered) in Hv.
  change (page s1) with (page registered) in Hv. rewrite Ho, Hpg, Hsc2 in Hv.
  change (script s1) with acts in Hv.
  assert (Hprefix : (trace registered ++ [Waiting "speechend" 30000])
                      `prefix_of` trace (await_settled (length (waits s)) (script s2) s2).2).
  { destruct Hfr as (_ & _ & _ & _ & _ & _ & Htr).
    change (length (waits s1)) with (length (waits registered)) in Htr.
    rewrite Hlen, Htr2 in Htr. exact Htr. }
  change (length (waits s1)) with (length (waits registered)) in *.
  rewrite Hlen in *. rewrite Hsc2 in *.
  destruct (await_settled (length (waits s)) acts s2) as [o s3]. simpl in *.
  destruct (verdict "speechend" (length (waits s)) (debug (options s)) (page s) false acts)
    as [d|detail|].
  - destruct Hv as [t ->]. simpl. split; [exact Hprefix | reflexivity].
  - destruct Hv as [-> Hdl]. simpl. split.
    + etrans; [exact Hprefix|]. apply prefix_app_r. reflexivity.
    + split; [reflexivity|]. exact Hdl.
  - rewrite Hv. simpl. split; [exact Hprefix | reflexivity].
Qed.

Lemma deliver_all_untouched l :
  forall (s : Tester) (p : nat) (w : Wait),
    wf s -> waits s !! p = Some w ->
    Forall (fun i => ~ touches p (w_eventType w) i) l ->
    waits (deliver_all l s) !! p = Some w.
Proof.
  induction l as [|i l IH]; intros s p w Hwf Hw Hl; [exact Hw|].
  inversion Hl as [|? ? Hi Hl']; subst. simpl.
  apply IH; [apply deliver_wf, Hwf | apply (deliver_untouched i s p w Hwf Hw Hi) | exact Hl'].
Qed.

(** C2, as far as the code goes, and where it stops.  A wait during which
    nothing that arrives concerns the waiter stays pending; when its timeout
    fires it is rejected with the timeout error, not before the delay of its
    timer has elapsed since the call, which is the timeout asked for unless
    that is above the maximum of the runtime.  But the entry of the waiter is
    still in the queue of its type afterwards: the handler searches the queue
    for the executor's [resolve], and the queue holds the wrapper. *)
Theorem timeout_leaves_waiter_queued (s : Tester) (T : string) (d : Z)
    (quiet : list Incoming) :
  wf s -> debug (options s) = false ->
  let p := length (waits s) in
  Forall (fun i => ~ touches p T i) quiet ->
  let s1 := (registerWaiter T d s).2 in
  let s2 := deliver_all quiet s1 in
  let s3 := deliver (TimerFires p) s2 in
  state_of p s2 = Some Pending
  /\ state_of p s3 = Some (Rejected (TimeoutError T d NoDetail))
  /\ now s + timerDelay d <= now s3
  /\ (d <= TIMEOUT_MAX -> now s + d <= now s3)
  /\ exists q, pendingPromises s3 !! T = Some q /\ entry_of p ∈ q.
Proof.
  intros Hwf Hdbg p Hquiet s1 s2 s3.
  destruct (registerWaiter_spec T d s) as (_ & Hw & _ & Ho & _ & _ & _ & _).
  fold s1 in Hw, Ho. fold p in Hw. rewrite Hdbg in Hw.
  set (w := mkWait T d (now s + timerDelay d) Pending Armed false) in *.
  assert (Hwf1 : wf s1) by apply registerWaiter_wf, Hwf.
  assert (Hwf2 : wf s2) by apply deliver_all_wf, Hwf1.
  assert (Hw2 : waits s2 !! p = Some w) by (apply deliver_all_untouched; assumption).
  assert (Hdbg2 : debug (options s2) = false).
  { destruct (deliver_all_frame quiet s1) as (Ho2 & _). unfold s2. rewrite Ho2, Ho. exact Hdbg. }
  assert (Hs3 : s3 = update_wait p (timed_out NoDetail)
                       (set_now (Z.max (now s2) (w_deadline w)) s2)).
  { unfold s3. simpl. rewrite (timerFires_spec p w s2 Hwf2 Hw2 eq_refl).
    unfold on_timeout. rewrite Hdbg2. reflexivity. }
  assert (Hnow3 : now s + timerDelay d <= now s3).
  { rewrite Hs3, now_update_wait. simpl. lia. }
  split; [unfold state_of; rewrite Hw2; reflexivity|].
  split; [|split; [|split]].
  - rewrite Hs3. unfold state_of. rewrite update_wait_lookup, decide_True by reflexivity.
    simpl. rewrite Hw2. reflexivity.
  - exact Hnow3.
  - intros Hd. pose proof (timerDelay_ge d Hd). lia.
  - destruct (wf_pending s2 Hwf2 p w Hw2 eq_refl) as (q & Hq & Hin).
    exists q. split; [|exact Hin].
    unfold s3. simpl. rewrite timerFires_queues by exact Hwf2. exact Hq.
Qed.

Lemma timeout_leaves_waiter_queued_witness :
  let s := construct plain_options empty_disk 0 [] in
  let s3 := deliver (TimerFires 0)
              (deliver_all [Tick 30000; Publish "audiostop" None]
                 (registerWaiter "audiostart" 30000 s).2) in
  state_of 0 s3 = Some (Rejected (TimeoutError "audiostart" 30000 NoDetail))
  /\ 0 + 30000 <= now s3
  /\ exists q, pendingPromises s3 !! "audiostart" = Some q /\ entry_of 0 ∈ q.
Proof.
  destruct (timeout_leaves_waiter_queued (construct plain_options empty_disk 0 [])
              "audiostart" 30000 [Tick 30000; Publish "audiostop" None])
    as (_ & Hrejected & _ & Hlate & Hqueued).
  - apply wf_construct.
  - reflexivity.
  - repeat constructor; simpl; [tauto | discriminate].
  - split; [exact Hrejected|]. split; [|exact Hqueued].
    apply Hlate. unfold TIMEOUT_MAX. lia.
Defined.

Example timeout_leak_run :
  let s0 := construct plain_options empty_disk 0 [] in
  let s1 := (registerWaiter "audiostart" 30000 s0).2 in
  let s2 := deliver (TimerFires 0) s1 in
  state_of 0 s2 = Some (Rejected (TimeoutError "audiostart" 30000 NoDetail))
  /\ now s2 = 30000
  /\ pendingPromises s2 !! "audiostart" = Some [mkWaiter (WrappedResolve 0) 0 0].
Proof. vm_compute. repeat split. Qed.

(** C1, at the input where the code departs from it.  A waiter for
    "audiostart" times out and a second one registers for the same type, the
    only unresolved waiter.  The event published next is handed to the entry
    that the first waiter left behind: the second waiter stays pending and the
    event is lost. *)
Theorem publish_misses_waiter_behind_timed_out :
  let s0 := construct plain_options empty_disk 0 [] in
  let s1 := (registerWaiter "audiostart" 1000 s0).2 in
  let s2 := deliver (TimerFires 0) s1 in
  let s3 := (registerWaiter "audiostart" 30000 s2).2 in
  let s4 := deliver (Publish "audiostart" None) s3 in
  state_of 0 s3 = Some (Rejected (TimeoutError "audiostart" 1000 NoDetail))
  /\ state_of 1 s3 = Some Pending
  /\ pendingPromises s3 !! "audiostart" = Some [entry_of 0; entry_of 1]
  /\ state_of 0 s4 = state_of 0 s3
  /\ state_of 1 s4 = Some Pending
  /\ pendingPromises s4 !! "audiostart" = Some [entry_of 1].
Proof. vm_compute. repeat split. Qed.

(** Delivery goes to the head of the queue of the type, and to nothing else. *)
Lemma publish_fifo (s : Tester) (T : string) (d : option EventData) :
  wf s ->
  match pendingPromises s !! T with
  | Some q =>
      exists p rest w,
        q = entry_of p :: rest /\ waits s !! p = Some w /\ w_eventType w = T
        /\ waits (publishEvent T d s) !! p = Some (resolved (mkEvent T d (now s)) w)
        /\ (forall j, j <> p -> waits (publishEvent T d s) !! j = waits s !! j)
        /\ pendingPromises (publishEvent T d s) = dequeue T rest (pendingPromises s)
  | None => publishEvent T d s = emit (LogPublished T (d ≫= elementId)) s
  end.
Proof.
  intros Hwf. destruct (pendingPromises s !! T) as [q|] eqn:Hq.
  - destruct (head_entry s T q Hwf Hq) as (p & rest & w & -> & Hw & HT).
    exists p, rest, w. rewrite (publishEvent_head T d s p rest Hq). simpl.
    repeat split; try assumption.
    + rewrite update_wait_lookup, decide_True by reflexivity. simpl. rewrite Hw. reflexivity.
    + intros j Hj. rewrite update_wait_lookup, decide_False by exact Hj. reflexivity.
  - apply publishEvent_dropped, Hq.
Qed.

Lemma await_reply_quiescent l s :
  wf s -> quiescent s ->
  let r := await_reply l s in
  wf r.2 /\ quiescent r.2 /\ (forall j, state_of j r.2 = state_of j s) /\ frame s r.2.
Proof.
  assert (Hall : forall l s, wf s -> quiescent s ->
            wf (deliver_all l s) /\ quiescent (deliver_all l s)
            /\ forall j, state_of j (deliver_all l s) = state_of j s).
  { clear. induction l as [|i l IH]; intros s Hwf Hq; [auto|]. simpl.
    destruct (deliver_quiescent i s Hwf Hq) as [Hq' Hst'].
    destruct (IH (deliver i s) (deliver_wf i s Hwf) Hq') as (I1 & I2 & I3).
    split; [exact I1|]. split; [exact I2|]. intros j. rewrite I3. apply Hst'. }
  intros Hwf Hq r. subst r.
  destruct (first_reply l) as [(pre & rp & rest & -> & Hpre)|Hl].
  - rewrite await_reply_spec by exact Hpre. simpl.
    destruct (Hall pre s Hwf Hq) as (I1 & I2 & I3).
    split; [eapply wf_same; [| |exact I1]; reflexivity|].
    split; [exact I2|]. split; [exact I3|].
    eapply frame_trans; [apply deliver_all_frame | apply frame_set_script].
  - rewrite await_reply_suspended by exact Hl. simpl.
    destruct (Hall l s Hwf Hq) as (I1 & I2 & I3).
    split; [eapply wf_same; [| |exact I1]; reflexivity|].
    split; [exact I2|]. split; [exact I3|].
    eapply frame_trans; [apply deliver_all_frame | apply frame_set_script].
Qed.

(** ** Stepping through host code *)

Lemma bind_ret {A B} (a : A) (k : A -> Async B) s : bind (ret a) k s = k a s.
Proof. reflexivity. Qed.

Lemma bind_throw {A B} (e : Error) (k : A -> Async B) s : bind (throw e) k s = (Err e, s).
Proof. reflexivity. Qed.

Lemma bind_read {A B} (f : Tester -> A) (k : A -> Async B) s : bind (read f) k s = k (f s) s.
Proof. reflexivity. Qed.

Lemma bind_modify {B} (f : Tester -> Tester) (k : unit -> Async B) s :
  bind (modify f) k s = k tt (f s).
Proof. reflexivity. Qed.

Lemma bind_console {B} (o : Output) (k : unit -> Async B) s :
  bind (console o) k s = k tt (emit o s).
Proof. reflexivity. Qed.

Lemma bind_call {B} (c : ExternalCall) (k : Value -> Async B) s :
  bind (call c) k s
  = match await_reply (script s) (emit (Call c) s) with
    | (Ok v, s') => k v s'
    | (Err e, s') => (Err e, s')
    | (Suspended, s') => (Suspended, s')
    end.
Proof. reflexivity. Qed.

Lemma bind_assoc {A B C} (m : Async A) (k : A -> Async B) (h : B -> Async C) s :
  bind (bind m k) h s = bind m (fun a => bind (k a) h) s.
Proof. unfold bind. destruct (m s) as [[a|e|] s']; reflexivity. Qed.

(** What [close] leaves behind when there is a session and no recording. *)
Lemma close_spec (s : Tester) :
  wf s -> browser s = true -> recordingStream s = false ->
  let s1 := rejectAllPending BrowserClosed s in
  let r := close s in
  quiescent r.2
  /\ (forall j, state_of j r.2 = state_of j s1)
  /\ (r.1 = Ok tt -> browser r.2 = false).
Proof.
  intros Hwf Hb Hrs s1 r.
  assert (Hr : r = close s) by reflexivity. clearbody r.
  unfold close in Hr. rewrite bind_read, Hb, bind_read, Hrs in Hr.
  unfold when at 1 in Hr. rewrite bind_ret, bind_modify, bind_call in Hr. fold s1 in Hr.
  assert (Hwf1 : wf s1) by apply rejectAllPending_wf, Hwf.
  assert (Hq1 : quiescent s1) by apply rejectAllPending_quiescent, Hwf.
  set (s1' := emit (Call BrowserClose) s1) in Hr.
  assert (Hwf1' : wf s1') by (eapply wf_same; [| |exact Hwf1]; reflexivity).
  assert (Hq1' : quiescent s1') by exact Hq1.
  destruct (await_reply_quiescent (script s1) s1' Hwf1' Hq1') as (Hwf2 & Hq2 & Hst2 & Hfr2).
  destruct (await_reply (script s1) s1') as [[v|e|] s2]; cbn [fst snd] in *;
    [|subst r; split; [exact Hq2|]; split; [exact Hst2 | discriminate]..].
  rewrite bind_modify, bind_read in Hr.
  set (s3 := set_page false (set_browser false s2)) in Hr.
  assert (Hwf3 : wf s3) by (eapply wf_same; [| |exact Hwf2]; reflexivity).
  assert (Hq3 : quiescent s3) by exact Hq2.
  destruct (record (options s3)); unfold when in Hr;
    [|subst r; split; [exact Hq3|]; split; [exact Hst2 | reflexivity]].
  unfold try_catch in Hr. rewrite bind_call in Hr.
  set (s3' := emit (Call WssClose) s3) in Hr.
  assert (Hwf3' : wf s3') by (eapply wf_same; [| |exact Hwf3]; reflexivity).
  destruct (await_reply_quiescent (script s3) s3' Hwf3' Hq3) as (Hwf4 & Hq4 & Hst4 & Hfr4).
  destruct Hfr4 as (_ & _ & Hbr & _).
  destruct (await_reply (script s3) s3') as [[v'|e'|] s4]; cbn [fst snd] in *; subst r;
    (split; [exact Hq4|]; split; [intros j; rewrite Hst4; apply Hst2 | intros _; exact Hbr]).
Qed.

Lemma close_without_session (s : Tester) : browser s = false -> close s = (Ok tt, s).
Proof. intros Hb. unfold close, bind, read. rewrite Hb. reflexivity. Qed.

(** Once the recording has stopped, [close] goes on as it does on a session
    without a recording. *)
Lemma close_after_recording (s : Tester) (pre rest : list Incoming) (stopped : Value) :
  browser s = true -> recordingStream s = true ->
  script s = pre ++ Reply (inr stopped) :: rest ->
  forallb (fun i => negb (is_reply i)) pre = true ->
  close s
  = close (set_recordingStream false
             (emit (LogLine "Recording saved")
                (set_script rest (deliver_all pre (emit (Call CloseRecordingFile) s))))).
Proof.
  intros Hb Hrs Hscript Hpre.
  set (s0 := set_recordingStream false _).
  assert (Hb0 : browser s0 = true).
  { unfold s0. cbn [browser set_recordingStream emit set_script].
    destruct (deliver_all_frame pre (emit (Call CloseRecordingFile) s)) as (_ & _ & Hbr & _).
    rewrite Hbr. exact Hb. }
  unfold close at 2. rewrite bind_read, Hb0, bind_read.
  change (recordingStream s0) with false. unfold when at 1. rewrite bind_ret.
  unfold close. rewrite bind_read, Hb, bind_read, Hrs. unfold when at 1.
  unfold bind at 1. unfold stopRecording. rewrite bind_read, Hrs. cbn [negb].
  rewrite bind_call. cbn [script emit]. rewrite Hscript.
  rewrite (await_reply_spec pre (inr stopped) rest _ Hpre). cbn [outcome_of].
  rewrite bind_console. unfold modify. fold s0. reflexivity.
Qed.

(** C3.  [clearAudioEventQueue] rejects every outstanding waiter, whatever
    its type, with the "queue cleared" error, leaves settled promises as they
    are, empties the registry and is idempotent; afterwards a published event
    only prints its console line.  [close] does the same with the "browser
    closed" error when there is a session.  When a recording is running it
    first waits until the recording has stopped: a waiter that nothing
    arriving in the meantime concerns is rejected by [close], and afterwards
    no waiter is outstanding at all.  Without a session [close] does nothing,
    so that a second [close] is a no-op. *)
Theorem teardown_cancels_all (s : Tester) :
  wf s ->
  let s' := clearAudioEventQueue s in
  (forall p w, waits s !! p = Some w -> w_state w = Pending ->
     state_of p s' = Some (Rejected (QueueCleared (w_eventType w))))
  /\ (forall p w, waits s !! p = Some w -> w_state w <> Pending ->
        state_of p s' = Some (w_state w))
  /\ pendingPromises s' = ∅
  /\ clearAudioEventQueue s' = s'
  /\ (forall T d, publishEvent T d s' = emit (LogPublished T (d ≫= elementId)) s')
  /\ (browser s = true ->
      forall (meanwhile rest : list Incoming) (stopped : Value),
        (recordingStream s = true ->
           script s = meanwhile ++ Reply (inr stopped) :: rest
           /\ forallb (fun i => negb (is_reply i)) meanwhile = true) ->
        (forall p w, waits s !! p = Some w -> w_state w = Pending ->
           (recordingStream s = true ->
              Forall (fun i => ~ touches p (w_eventType w) i) meanwhile) ->
           state_of p (close s).2 = Some (Rejected (BrowserClosed (w_eventType w))))
        /\ (forall p w, waits (close s).2 !! p = Some w -> w_state w <> Pending)
        /\ length (waits (close s).2) = length (waits s)
        /\ pendingPromises (close s).2 = ∅
        /\ (forall T d, publishEvent T d (close s).2
                        = emit (LogPublished T (d ≫= elementId)) (close s).2)
        /\ ((close s).1 = Ok tt -> close (close s).2 = (Ok tt, (close s).2)))
  /\ (browser s = false -> close s = (Ok tt, s)).
Proof.
  intros Hwf s'.
  destruct (rejectAllPending_spec QueueCleared s Hwf) as (Hp & _ & _ & _ & _ & _ & _ & Hw).
  fold (clearAudioEventQueue s) in Hp, Hw. fold s' in Hp, Hw.
  split; [|split; [|split; [|split; [|split; [|split]]]]].
  - intros p w Hpw Hst. unfold state_of. rewrite Hw, Hpw. simpl.
    rewrite torn_state, Hst. reflexivity.
  - intros p w Hpw Hst. unfold state_of. rewrite Hw, Hpw. simpl.
    rewrite torn_state. destruct (w_state w); congruence.
  - exact Hp.
  - apply rejectAllPending_idem.
  - intros T d. apply publishEvent_dropped. rewrite Hp. apply lookup_empty.
  - intros Hb meanwhile rest stopped Hscript.
    (* the tester when the recording, if any, has stopped *)
    assert (Hstop : exists s0,
               close s = close s0 /\ wf s0 /\ browser s0 = true /\ recordingStream s0 = false
               /\ length (waits s0) = length (waits s)
               /\ forall p w, waits s !! p = Some w ->
                    (recordingStream s = true ->
                       Forall (fun i => ~ touches p (w_eventType w) i) meanwhile) ->
                    waits s0 !! p = Some w).
    { destruct (recordingStream s) eqn:Hrs.
      - destruct (Hscript eq_refl) as [Hs Hpre].
        eexists. split; [apply (close_after_recording s meanwhile rest stopped Hb Hrs Hs Hpre)|].
        assert (Hwf1 : wf (emit (Call CloseRecordingFile) s))
          by (eapply wf_same; [| |exact Hwf]; reflexivity).
        split; [|split; [|split; [|split]]].
        + eapply wf_same; [| |apply (deliver_all_wf meanwhile _ Hwf1)]; reflexivity.
        + cbn [browser set_recordingStream emit set_script].
          destruct (deliver_all_frame meanwhile (emit (Call CloseRecordingFile) s))
            as (_ & _ & Hbr & _).
          rewrite Hbr. exact Hb.
        + reflexivity.
        + cbn [waits set_recordingStream emit set_script]. rewrite deliver_all_length.
          reflexivity.
        + intros p w Hpw Hquiet. cbn [waits set_recordingStream emit set_script].
          apply deliver_all_untouched; [exact Hwf1 | exact Hpw | exact (Hquiet eq_refl)].
      - exists s. split; [reflexivity|]. split; [exact Hwf|]. split; [exact Hb|].
        split; [exact Hrs|]. split; [reflexivity|]. intros p w Hpw _. exact Hpw. }
    destruct Hstop as (s0 & -> & Hwf0 & Hb0 & Hrs0 & Hlen0 & Hkept).
    destruct (close_spec s0 Hwf0 Hb0 Hrs0) as ((Hq & Hnone) & Hst & Hbr).
    destruct (rejectAllPending_spec BrowserClosed s0 Hwf0)
      as (_ & _ & _ & _ & _ & _ & _ & Hw').
    split; [|split; [|split; [|split; [|split]]]].
    + intros p w Hpw Hpend Hquiet. rewrite Hst. unfold state_of.
      rewrite Hw', (Hkept p w Hpw Hquiet). simpl.
      rewrite torn_state, Hpend. reflexivity.
    + exact Hnone.
    + rewrite <- Hlen0.
      assert (Hdom : forall j, is_Some (waits (close s0).2 !! j) <-> is_Some (waits s0 !! j)).
      { intros j. specialize (Hst j). unfold state_of in Hst. rewrite Hw' in Hst.
        destruct (waits (close s0).2 !! j), (waits s0 !! j); simpl in Hst;
          try discriminate Hst; split; intros [? ?]; try discriminate; eauto. }
      destruct (Nat.lt_trichotomy (length (waits (close s0).2)) (length (waits s0)))
        as [Hlt|[Heq|Hgt]]; [|exact Heq|].
      * apply lookup_lt_is_Some_2, Hdom, lookup_lt_is_Some_1 in Hlt. lia.
      * apply lookup_lt_is_Some_2, Hdom, lookup_lt_is_Some_1 in Hgt. lia.
    + exact Hq.
    + intros T d. apply publishEvent_dropped. rewrite Hq. apply lookup_empty.
    + intros Hok. apply close_without_session, Hbr, Hok.
  - apply close_without_session.
Qed.

(** ** The invariant holds in every state the broker can reach *)

Lemma wf_reachable (o : Options) (d : Disk) (t : Z) (incoming : list Incoming)
    (ops : list Operation) :
  wf (foldl perform (construct o d t incoming) ops).
Proof.
  induction ops as [|op ops IH] using rev_ind; [apply wf_construct|].
  rewrite foldl_snoc. destruct op; simpl.
  - apply registerWaiter_wf, IH.
  - apply deliver_wf, IH.
  - apply rejectAllPending_wf, IH.
  - apply rejectAllPending_wf, IH.
  - eapply wf_same; [| |exact IH]; reflexivity.
  - eapply wf_same; [| |exact IH]; reflexivity.
  - eapply wf_same; [| |exact IH]; reflexivity.
Qed.

(** While no timeout of the type has fired, the head of a queue is the
    earliest registered waiter of the type that is still pending: queues are
    filled at the back and emptied at the front. *)
Lemma registerWaiter_appends (s : Tester) (T : string) (d : Z) :
  pendingPromises (registerWaiter T d s).2 !! T
  = Some (default [] (pendingPromises s !! T) ++ [entry_of (length (waits s))])
  /\ forall T', T' <> T ->
       pendingPromises (registerWaiter T d s).2 !! T' = pendingPromises s !! T'.
Proof.
  split; [apply registerWaiter_spec|].
  intros T' HT. unfold registerWaiter. simpl. apply lookup_insert_ne. congruence.
Qed.

(** ** The step executor *)

Lemma dispatch_unknown (step : Step) (s : Tester) :
  action step ∉ knownActions ->
  dispatch step s = (Ok HUndefined, emit (LogUnknownAction (action step)) s).
Proof.
  intros Hunknown. unfold dispatch.
  repeat match goal with
         | |- context [String.eqb (action step) ?a] =>
             destruct (String.eqb_spec (action step) a) as [Heq|_];
               [exfalso; apply Hunknown; rewrite Heq; unfold knownActions;
                repeat (first [left | right]) |]
         end.
  reflexivity.
Qed.

(** C5.  A step whose action is none of the twelve known ones makes
    [executeStep] print the unknown action and the elapsed time (and record the
    elapsed time if the step asks for it) and return normally: no handler
    runs, nothing is called or awaited, and the loop goes on with the next
    step. *)
Theorem unknown_action_is_skipped (step : Step) (stepIndex : nat)
    (appName scenarioName : string) (repetition : Z) (rest : list Step) (s : Tester) :
  page s = true -> action step ∉ knownActions ->
  executeStep step stepIndex appName scenarioName repetition s
  = (Ok tt, skipped step stepIndex appName scenarioName repetition s)
  /\ executeSteps (step :: rest) stepIndex appName scenarioName repetition s
     = executeSteps rest (S stepIndex) appName scenarioName repetition
         (skipped step stepIndex appName scenarioName repetition
            (emit (LogExecutingStep (S stepIndex) (action step)) s)).
Proof.
  intros Hpage Hunknown.
  assert (Hstep : forall s0, page s0 = true ->
            executeStep step stepIndex appName scenarioName repetition s0
            = (Ok tt, skipped step stepIndex appName scenarioName repetition s0)).
  { intros s0 Hp. unfold executeStep. rewrite bind_read, Hp. cbn [negb].
    rewrite bind_read. unfold try_catch.
    unfold bind at 1. rewrite (dispatch_unknown step s0 Hunknown).
    rewrite bind_read. cbn [now emit]. rewrite Z.sub_diag, bind_console, bind_read.
    unfold skipped. cbn [options emit].
    destruct (metrics step) as [requested|]; [|reflexivity].
    destruct (reportGenerator (options s0)); [|reflexivity]. cbn [andb].
    unfold when, bind. destruct (bool_decide ("elapsed_time" ∈ requested)); reflexivity. }
  split; [apply Hstep, Hpage|].
  cbn [executeSteps]. rewrite bind_console. unfold bind at 1.
  rewrite Hstep by exact Hpage. reflexivity.
Qed.

Lemma first_line_spec (m : string) : is_first_line (first_line m) m.
Proof.
  induction m as [|c m [IH1 IH2]]; [split; [reflexivity | left; reflexivity]|].
  cbn [first_line]. destruct (Ascii.eqb_spec c "010"%char) as [->|Hc].
  - split; [reflexivity|]. right. exists m. reflexivity.
  - split.
    + cbn [single_line]. rewrite IH1.
      destruct (Ascii.eqb_spec c "010"%char); [contradiction | reflexivity].
    + destruct IH2 as [IH2|[more IH2]].
      * left. f_equal. exact IH2.
      * right. exists more.
        change (String c (first_line m) +:+ String "010"%char more)
          with (String c (first_line m +:+ String "010"%char more)).
        f_equal. exact IH2.
Qed.

(** What the [catch] blocks print is the short summary of the error. *)
Lemma shortMessage_summary (e : Error) : summary_of e (shortMessage e).
Proof.
  destruct e as [T d detail|T|T| |m|m]; cbn [summary_of shortMessage]; try reflexivity;
    eexists; (split; [reflexivity | apply first_line_spec]).
Qed.

Lemma executeStep_rethrows (step : Step) (stepIndex : nat) (appName scenarioName : string)
    (repetition : Z) (s s1 : Tester) (e : Error) :
  page s = true -> dispatch step s = (Err e, s1) ->
  executeStep step stepIndex appName scenarioName repetition s
  = (Err e, emit (ErrorExecutingStep (S stepIndex) (action step) (shortMessage e)) s1).
Proof.
  intros Hp Hd. unfold executeStep. rewrite bind_read, Hp. cbn [negb].
  rewrite bind_read. unfold try_catch. unfold bind at 1. rewrite Hd. reflexivity.
Qed.

Lemma executeSteps_app (pre post : list Step) (appName scenarioName : string)
    (repetition : Z) :
  forall (i : nat) (s : Tester),
    executeSteps (pre ++ post) i appName scenarioName repetition s
    = match executeSteps pre i appName scenarioName repetition s with
      | (Ok _, s1) => executeSteps post (i + length pre) appName scenarioName repetition s1
      | (Err e, s1) => (Err e, s1)
      | (Suspended, s1) => (Suspended, s1)
      end.
Proof.
  induction pre as [|step pre IH]; intros i s.
  - simpl. rewrite Nat.add_0_r. reflexivity.
  - cbn [app executeSteps length]. rewrite !bind_console. unfold bind.
    destruct (executeStep step i appName scenarioName repetition _) as [[[]|e|] s1];
      [|reflexivity..].
    rewrite IH. replace (i + S (length pre))%nat with (S i + length pre)%nat by lia.
    reflexivity.
Qed.

Lemma await_reply_frame l s : frame s (await_reply l s).2.
Proof.
  destruct (first_reply l) as [(pre & rp & rest & -> & Hpre)|Hl].
  - rewrite await_reply_spec by exact Hpre. simpl.
    eapply frame_trans; [apply deliver_all_frame | apply frame_set_script].
  - rewrite await_reply_suspended by exact Hl. simpl.
    eapply frame_trans; [apply deliver_all_frame | apply frame_set_script].
Qed.

Lemma call_frame c s : frame s (call c s).2.
Proof.
  unfold call. eapply frame_trans; [apply frame_emit | apply await_reply_frame].
Qed.

Lemma rejectAllPending_trace mkErr s : trace (rejectAllPending mkErr s) = trace s.
Proof.
  unfold rejectAllPending. simpl.
  generalize (map_to_list (pendingPromises s)). intros l. revert s.
  induction l as [|[T q] l IH]; intros s; [reflexivity|]. simpl. rewrite IH.
  unfold rejectQueue. simpl. clear IH. revert s.
  induction q as [|w q IHq]; intros s; [reflexivity|]. simpl. rewrite IHq.
  unfold rejectWaiter, call_reject, clearTimeout.
  rewrite !(proj1 (proj2 (proj2 (update_wait_fields _ _ _)))). reflexivity.
Qed.

Lemma reply_frame c s : frame s (await_reply (script s) (emit (Call c) s)).2.
Proof. exact (call_frame c s). Qed.

Lemma call_trace c s :
  trace s `prefix_of` trace (await_reply (script s) (emit (Call c) s)).2.
Proof. pose proof (call_frame c s) as (_ & _ & _ & _ & _ & _ & Htr). exact Htr. Qed.

(** Case analysis on the reply to a call, keeping what is known of the trace. *)
Ltac on_reply c s0 H :=
  pose proof (call_trace c s0) as H; revert H;
  destruct (await_reply (script s0) (emit (Call c) s0)) as [[?v|?e|] ?s];
  intros H; cbn [fst snd] in H.

Lemma stopRecording_trace s : trace s `prefix_of` trace (stopRecording s).2.
Proof.
  unfold stopRecording. rewrite bind_read. destruct (recordingStream s); [|reflexivity].
  cbn [negb]. rewrite bind_call. on_reply CloseRecordingFile s Htr; try exact Htr.
  rewrite bind_console. simpl. etrans; [exact Htr|]. apply prefix_app_r. reflexivity.
Qed.

Lemma close_trace s : trace s `prefix_of` trace (close s).2.
Proof.
  unfold close. rewrite bind_read. destruct (browser s); [|reflexivity].
  rewrite bind_read. unfold bind at 1.
  assert (Hstop : trace s `prefix_of` trace (when (recordingStream s) stopRecording s).2).
  { unfold when. destruct (recordingStream s); [apply stopRecording_trace | reflexivity]. }
  revert Hstop.
  destruct (when (recordingStream s) stopRecording s) as [[[]|e|] s1]; intros Hstop;
    cbn [fst snd] in *; try exact Hstop.
  rewrite bind_modify, bind_call.
  set (s2 := rejectAllPending BrowserClosed s1).
  assert (Htr2 : trace s `prefix_of` trace s2)
    by (unfold s2; rewrite rejectAllPending_trace; exact Hstop).
  on_reply BrowserClose s2 Htr3; try (etrans; eassumption).
  rewrite bind_modify, bind_read. cbn [options set_page set_browser].
  destruct (record (options s0)); unfold when; cbn [fst snd ret]; [|etrans; eassumption].
  unfold try_catch. rewrite bind_call.
  set (s4 := set_page false (set_browser false s0)).
  on_reply WssClose s4 Htr5; cbn [fst snd ret];
    (etrans; [exact Htr2|]; etrans; [exact Htr3|]; exact Htr5).
Qed.

Lemma stopAudioFromUrl_frame s :
  frame s (stopAudioFromUrl s).2 /\ (stopAudioFromUrl s).1 <> Err BrowserNotLaunched.
Proof.
  unfold stopAudioFromUrl, try_catch. rewrite bind_call.
  pose proof (reply_frame EvalStopAudioFromUrl s) as Hfr. revert Hfr.
  destruct (await_reply (script s) (emit (Call EvalStopAudioFromUrl) s)) as [[v|e|] s1];
    intros Hfr; cbn [fst snd] in *.
  - split; [|discriminate]. eapply frame_trans; [exact Hfr | apply frame_emit].
  - split; [exact Hfr | discriminate].
  - split; [exact Hfr | discriminate].
Qed.

(** The [finally] block of a failed run reports the failure to the report
    generator before it closes the session. *)
Lemma scenarioFinally_records (appName scenarioName : string) (repetition : Z)
    (success : bool) (s : Tester) :
  reportGenerator (options s) = true ->
  let r := scenarioFinally appName scenarioName repetition success s in
  r.1 <> Suspended -> EndRun appName scenarioName repetition success ∈ trace r.2.
Proof.
  intros Hrep r. subst r. unfold scenarioFinally.
  rewrite !bind_read, Hrep. unfold when at 2. unfold bind, console.
  assert (Hstop : let r1 := when (truthy (audioUrl (options s)) && page s)
                              (try_catch stopAudioFromUrl (fun _ => ret tt)) s in
                  frame s r1.2 /\ (r1.1 = Ok tt \/ r1.1 = Suspended)).
  { unfold when. destruct (truthy (audioUrl (options s)) && page s).
    - unfold try_catch. destruct (stopAudioFromUrl_frame s) as [Hfr _]. revert Hfr.
      destruct (stopAudioFromUrl s) as [[[]|e|] s1]; intros Hfr; cbn [fst snd] in *; auto.
    - split; [apply frame_refl | left; reflexivity]. }
  revert Hstop.
  destruct (when (truthy (audioUrl (options s)) && page s)
              (try_catch stopAudioFromUrl (fun _ => ret tt)) s) as [[[]|e|] s1];
    cbn [fst snd]; cbn beta iota; intros [Hfr Hout] Hns.
  - pose proof (close_trace (emit (EndRun appName scenarioName repetition success) s1)) as Htr.
    destruct Htr as [k Hk].
    change (EndRun appName scenarioName repetition success
            ∈ trace (close (emit (EndRun appName scenarioName repetition success) s1)).2).
    rewrite Hk. simpl.
    apply elem_of_app. left. apply elem_of_app. right. left.
  - destruct Hout; discriminate.
  - contradiction.
Qed.

(** The [finally] block prints and calls, and takes nothing back. *)
Lemma scenarioFinally_trace (appName scenarioName : string) (repetition : Z)
    (success : bool) (s : Tester) :
  trace s `prefix_of` trace (scenarioFinally appName scenarioName repetition success s).2.
Proof.
  unfold scenarioFinally. rewrite !bind_read. unfold bind at 1.
  assert (Hstop : frame s (when (truthy (audioUrl (options s)) && page s)
                             (try_catch stopAudioFromUrl (fun _ => ret tt)) s).2).
  { unfold when. destruct (truthy (audioUrl (options s)) && page s); [|apply frame_refl].
    unfold try_catch. destruct (stopAudioFromUrl_frame s) as [Hfr _]. revert Hfr.
    destruct (stopAudioFromUrl s) as [[[]|e|] s1]; intros Hfr; exact Hfr. }
  destruct Hstop as (_ & _ & _ & _ & _ & _ & Htr). revert Htr.
  destruct (when (truthy (audioUrl (options s)) && page s)
              (try_catch stopAudioFromUrl (fun _ => ret tt)) s) as [[[]|e|] s1];
    cbn [fst snd]; intros Htr; try exact Htr.
  unfold when. destruct (reportGenerator (options s)).
  - rewrite bind_console. etrans; [exact Htr|]. etrans; [|apply close_trace].
    cbn [trace emit]. apply prefix_app_r. reflexivity.
  - rewrite bind_ret. etrans; [exact Htr | apply close_trace].
Qed.

(** C4.  When the handler of a step raises an error, [executeStep] prints a
    short summary, the first line of the message without the diagnostics that
    follow it, and rethrows the error itself; the loop stops there, whatever
    steps follow; [runScenario] prints the same summary, runs the [finally]
    block with [success = false] (which reports the failed run to the report
    generator) and rethrows: the run never completes normally, and the error
    is the handler's unless the [finally] block itself raises. *)
Theorem step_failure_aborts_run (url : string) (appSteps scenarioSteps : list Step)
    (appName scenarioName : string) (repetition : Z) (pre post : list Step) (step : Step)
    (e : Error) (s s0 s1 s2 : Tester) :
  appSteps ++ scenarioSteps = pre ++ step :: post ->
  scenarioSetup url appName scenarioName repetition s = (Ok tt, s0) ->
  executeSteps pre 0 appName scenarioName repetition s0 = (Ok tt, s1) ->
  page s1 = true ->
  dispatch step (emit (LogExecutingStep (S (length pre)) (action step)) s1) = (Err e, s2) ->
  let failed := emit (ErrorExecutingStep (S (length pre)) (action step) (shortMessage e)) s2 in
  let r := runScenario url appSteps scenarioSteps appName scenarioName repetition s in
  executeStep step (length pre) appName scenarioName repetition
    (emit (LogExecutingStep (S (length pre)) (action step)) s1) = (Err e, failed)
  /\ executeSteps (pre ++ step :: post) 0 appName scenarioName repetition s0 = (Err e, failed)
  /\ r = match scenarioFinally appName scenarioName repetition false
                 (emit (ErrorDuringScenario (shortMessage e)) failed) with
         | (Ok _, s3) => (Err e, s3)
         | (Err e', s3) => (Err e', s3)
         | (Suspended, s3) => (Suspended, s3)
         end
  /\ r.1 <> Ok tt
  /\ (reportGenerator (options s2) = true -> r.1 <> Suspended ->
      EndRun appName scenarioName repetition false ∈ trace r.2)
  /\ summary_of e (shortMessage e)
  /\ ErrorExecutingStep (S (length pre)) (action step) (shortMessage e) ∈ trace r.2
  /\ ErrorDuringScenario (shortMessage e) ∈ trace r.2.
Proof.
  intros Hsteps Hsetup Hpre Hpage Hdispatch failed r.
  assert (Hstep : executeStep step (length pre) appName scenarioName repetition
                    (emit (LogExecutingStep (S (length pre)) (action step)) s1)
                  = (Err e, failed)).
  { apply executeStep_rethrows; [exact Hpage | exact Hdispatch]. }
  assert (Hall : executeSteps (pre ++ step :: post) 0 appName scenarioName repetition s0
                 = (Err e, failed)).
  { rewrite executeSteps_app, Hpre. cbn [executeSteps Nat.add].
    rewrite bind_console. unfold bind at 1. rewrite Hstep. reflexivity. }
  assert (Hr : r = match scenarioFinally appName scenarioName repetition false
                           (emit (ErrorDuringScenario (shortMessage e)) failed) with
                   | (Ok _, s3) => (Err e, s3)
                   | (Err e', s3) => (Err e', s3)
                   | (Suspended, s3) => (Suspended, s3)
                   end).
  { subst r. unfold runScenario, try_finally, try_catch.
    unfold bind at 1. rewrite Hsetup. cbv zeta. rewrite Hsteps.
    unfold bind at 1. rewrite Hall. rewrite bind_console. unfold throw. cbn [succeeded].
    destruct (scenarioFinally appName scenarioName repetition false
                (emit (ErrorDuringScenario (shortMessage e)) failed)) as [[[]|e'|] s3];
      reflexivity. }
  split; [exact Hstep|]. split; [exact Hall|]. split; [exact Hr|].
  pose proof (scenarioFinally_records appName scenarioName repetition false
                (emit (ErrorDuringScenario (shortMessage e)) failed)) as Hrec.
  pose proof (scenarioFinally_trace appName scenarioName repetition false
                (emit (ErrorDuringScenario (shortMessage e)) failed)) as [k Hk].
  cbv zeta in Hrec. rewrite Hr. clear Hr.
  assert (Hprinted :
            ErrorExecutingStep (S (length pre)) (action step) (shortMessage e)
              ∈ trace (emit (ErrorDuringScenario (shortMessage e)) failed) ++ k
            /\ ErrorDuringScenario (shortMessage e)
                 ∈ trace (emit (ErrorDuringScenario (shortMessage e)) failed) ++ k).
  { cbn [trace emit failed]. split.
    - apply elem_of_app. left. apply elem_of_app. left. apply elem_of_app. right. left.
    - apply elem_of_app. left. apply elem_of_app. right. left. }
  rewrite <- Hk in Hprinted.
  destruct (scenarioFinally appName scenarioName repetition false
              (emit (ErrorDuringScenario (shortMessage e)) failed)) as [[[]|e'|] s3];
    cbn [fst snd] in *; (split; [discriminate|]);
    (split; [intros Hrep Hns; try (apply Hrec; [exact Hrep | discriminate]); contradiction|]);
    (split; [apply shortMessage_summary | exact Hprinted]).
Qed.

(** ** The listen step *)

Lemma phases_app t1 t2 : phases (t1 ++ t2) = phases t1 ++ phases t2.
Proof. unfold phases. apply omap_app. Qed.

Lemma phases_emit (o : Output) (s : Tester) :
  phases (trace (emit o s))
  = phases (trace s) ++ match phase_of o with Some p => [p] | None => [] end.
Proof.
  cbn [trace emit]. rewrite phases_app. unfold phases at 2. simpl.
  destruct (phase_of o); reflexivity.
Qed.

Lemma trace_update_wait k f s : trace (update_wait k f s) = trace s.
Proof. apply update_wait_fields. Qed.

Lemma deliver_trace i s :
  trace (deliver i s)
  = trace s ++ match i with
               | Publish T d => [LogPublished T (d ≫= elementId)]
               | _ => []
               end.
Proof.
  destruct i as [T d|dt|tid|tid d|r]; simpl; rewrite ?app_nil_r; try reflexivity.
  - unfold publishEvent. simpl.
    destruct (pendingPromises s !! T) as [[|e rest]|]; simpl; try reflexivity.
    unfold call_resolve, clearInterval, clearTimeout.
    destruct (resolve e); destruct rest; rewrite ?trace_update_wait; simpl;
      rewrite ?trace_update_wait; reflexivity.
  - unfold timerFires. destruct (waits s !! tid) as [w|]; [|reflexivity].
    destruct (w_timer w); try reflexivity.
    unfold timeoutHandler, call_reject, clearInterval.
    repeat match goal with
           | |- context [match ?x with _ => _ end] => destruct x
           end; rewrite ?trace_update_wait; simpl; rewrite ?trace_update_wait; reflexivity.
  - unfold diagnosticsDone, call_reject. destruct (waits s !! tid) as [w|]; [|reflexivity].
    destruct (w_timer w); try reflexivity. rewrite !trace_update_wait. reflexivity.
Qed.

Lemma deliver_phases i s : phases (trace (deliver i s)) = phases (trace s).
Proof.
  rewrite deliver_trace, phases_app. destruct i; simpl; rewrite app_nil_r; reflexivity.
Qed.

Lemma await_reply_phases l s : phases (trace (await_reply l s).2) = phases (trace s).
Proof.
  revert s. induction l as [|i l IH]; intros s; [reflexivity|].
  destruct i as [T d|dt|tid|tid d|[e|v]]; cbn [await_reply]; try reflexivity;
    rewrite IH; apply deliver_phases.
Qed.

Lemma await_settled_phases p l s : phases (trace (await_settled p l s).2) = phases (trace s).
Proof.
  revert s. induction l as [|i l IH]; intros s; cbn [await_settled].
  - destruct (state_of p s) as [[| |]|]; reflexivity.
  - destruct (state_of p s) as [[| |]|]; try reflexivity; rewrite IH; apply deliver_phases.
Qed.

Lemma call_phases c s : phases (trace (call c s).2) = phases (trace s) ++ [Calls c].
Proof. unfold call. rewrite await_reply_phases. simpl. apply phases_app. Qed.

Lemma wait_phases T d s :
  phases (trace (waitForAudioEvent T d s).2) = phases (trace s) ++ [Waits T d].
Proof.
  unfold waitForAudioEvent.
  destruct (registerWaiter_spec T d s) as (_ & _ & _ & _ & _ & _ & Htr & _).
  destruct (registerWaiter T d s) as [p s1]. simpl in Htr.
  rewrite await_settled_phases, Htr. apply phases_app.
Qed.

(** A wait at the head of its queue takes the first event of its type. *)
Lemma await_settled_delivered (before : list Incoming) :
  forall (s : Tester) (p : nat) (w : Wait) (rest : list Waiter) (data : option EventData)
         (after : list Incoming),
    wf s -> waits s !! p = Some w -> w_state w = Pending ->
    pendingPromises s !! w_eventType w = Some (entry_of p :: rest) ->
    Forall (fun i => ~ touches p (w_eventType w) i) before ->
    await_settled p (before ++ Publish (w_eventType w) data :: after) s
    = (Ok (mkEvent (w_eventType w) data (now (deliver_all before s))),
       set_script after (publishEvent (w_eventType w) data (deliver_all before s)))
    /\ pendingPromises (deliver_all before s) !! w_eventType w = Some (entry_of p :: rest).
Proof.
  induction before as [|i before IH]; intros s p w rest data after Hwf Hw Hst Hq Hquiet.
  - cbn [app deliver_all foldl]. split; [|exact Hq].
    assert (Hpend : state_of p s = Some Pending)
      by (unfold state_of; rewrite Hw; simpl; congruence).
    rewrite (await_settled_pending p _ after s Hpend). cbn [deliver].
    apply await_settled_fulfilled.
    rewrite (publishEvent_head _ data s p rest Hq).
    unfold state_of. simpl. rewrite update_wait_lookup, decide_True by reflexivity.
    simpl. rewrite Hw. simpl. unfold resolved, cleared, settle.
    destruct w as [T0 d0 dl0 st0 tm0 iv0]; simpl in *; subst st0; destruct tm0; reflexivity.
  - inversion Hquiet as [|? ? Hi Hrest]; subst.
    assert (Hpend : state_of p s = Some Pending)
      by (unfold state_of; rewrite Hw; simpl; congruence).
    cbn [app]. rewrite (await_settled_pending p i _ s Hpend).
    destruct (deliver_untouched i s p w Hwf Hw Hi) as [Hw' Hq'].
    change (deliver_all (i :: before) s) with (deliver_all before (deliver i s)).
    apply (IH (deliver i s) p w rest data after);
      [apply deliver_wf, Hwf | exact Hw' | exact Hst | rewrite Hq'; exact Hq | exact Hrest].
Qed.

(** A call returns what the first reply of the script carries, once the
    items that arrive before it have been delivered. *)
Lemma call_replied_after (c : ExternalCall) (s : Tester) (reply : Error + Value)
    (meanwhile rest : list Incoming) :
  script s = meanwhile ++ Reply reply :: rest ->
  forallb (fun i => negb (is_reply i)) meanwhile = true ->
  call c s = (outcome_of reply, set_script rest (deliver_all meanwhile (emit (Call c) s))).
Proof.
  intros Hs Hquiet. unfold call. cbn [script emit]. rewrite Hs.
  apply await_reply_spec, Hquiet.
Qed.

Lemma listening_emit (o : Output) (n : nat) (incoming : list Incoming) (s : Tester) :
  listening n incoming s -> listening n incoming (emit o s).
Proof.
  intros (Hwf & Hs & Hn & Hnone). split; [|split; [|split]]; try assumption.
  eapply wf_same; [| |exact Hwf]; reflexivity.
Qed.

(** An answered call leaves the tester listening. *)
Lemma call_listening (c : ExternalCall) (n : nat) (meanwhile rest : list Incoming)
    (v : Value) (s : Tester) :
  listening n (meanwhile ++ Reply (inr v) :: rest) s ->
  forallb (fun i => negb (is_reply i)) meanwhile = true ->
  exists s', call c s = (Ok v, s') /\ listening n rest s'.
Proof.
  intros (Hwf & Hs & Hn & Hnone) Hquiet.
  rewrite (call_replied_after c s (inr v) meanwhile rest Hs Hquiet).
  eexists. split; [reflexivity|].
  assert (Hwf1 : wf (emit (Call c) s)) by (eapply wf_same; [| |exact Hwf]; reflexivity).
  split; [|split; [|split]].
  - apply wf_set_script, deliver_all_wf, Hwf1.
  - reflexivity.
  - cbn [waits set_script]. rewrite deliver_all_length. exact Hn.
  - intros T HT. cbn [pendingPromises set_script].
    apply deliver_all_no_queue; [exact Hwf1 | exact (Hnone T HT)].
Qed.

(** A wait for an event of a listen step that arrives leaves the tester
    listening, with one wait more. *)
Lemma wait_listening (T : string) (d : Z) (n : nat) (before after : list Incoming)
    (data : option EventData) (s : Tester) :
  listening n (before ++ Publish T data :: after) s ->
  T ∈ listenEvents ->
  Forall (fun i => ~ touches n T i) before ->
  exists t s', waitForAudioEvent T d s = (Ok (mkEvent T data t), s')
               /\ listening (S n) after s'.
Proof.
  intros (Hwf & Hs & Hn & Hnone) HT Hquiet. unfold waitForAudioEvent.
  destruct (registerWaiter_spec T d s) as (Hp & Hw & Hq & _ & _ & _ & _ & Hsc).
  destruct (registerWaiter_appends s T d) as [_ Hothers].
  pose proof (registerWaiter_wf T d s Hwf) as Hwf1.
  assert (Hlen1 : length (waits (registerWaiter T d s).2) = S (length (waits s))).
  { unfold registerWaiter. cbn [snd waits emit set_pendingPromises set_waits].
    rewrite length_app. simpl. lia. }
  destruct (registerWaiter T d s) as [p s1]. cbn [fst snd] in *. subst p.
  rewrite (Hnone T HT) in Hq. cbn [default app] in Hq.
  rewrite Hsc, Hs. rewrite Hn in *.
  set (w := mkWait T d (now s + timerDelay d) Pending Armed (debug (options s))) in *.
  destruct (await_settled_delivered before s1 n w [] data after Hwf1 Hw eq_refl Hq Hquiet)
    as [Hawait Hqueue].
  cbn [w_eventType w] in Hawait, Hqueue. rewrite Hawait.
  eexists _, _. split; [reflexivity|].
  pose proof (deliver_all_wf before s1 Hwf1) as HwfB.
  split; [|split; [|split]].
  - apply wf_set_script. apply (deliver_wf (Publish T data)). exact HwfB.
  - reflexivity.
  - cbn [waits set_script].
    pose proof (deliver_length (Publish T data) (deliver_all before s1)) as Hl.
    cbn [deliver] in Hl. rewrite Hl, deliver_all_length. exact Hlen1.
  - intros T' HT'. cbn [pendingPromises set_script].
    destruct (decide (T' = T)) as [->|Hne].
    + rewrite (publishEvent_head T data _ n [] Hqueue).
      cbn [pendingPromises set_pendingPromises].
      rewrite dequeue_lookup, decide_True by reflexivity. reflexivity.
    + apply (deliver_no_queue (Publish T data)); [exact HwfB|].
      apply deliver_all_no_queue; [exact Hwf1|].
      rewrite Hothers by exact Hne. exact (Hnone T' HT').
Qed.

Ltac listen_stop r :=
  subst r; cbn [fst snd trace emit]; rewrite ?phases_app; cbn [phases omap phase_of app];
  repeat match goal with H : phases (trace _) = _ |- _ => rewrite H; clear H end;
  rewrite <- ?app_assoc; cbn [app];
  eexists; split; [reflexivity|]; split;
  [ eexists _, _, _; eexists; cbn [listenPlan app]; reflexivity
  | intros res Hres; try discriminate Hres ].

(** The order of the calls and waits of a listen step, whatever arrives. *)
Lemma listen_order (step : Step) (s : Tester) :
  truthy (evaluation step) = true ->
  let r := handleListen step s in
  exists done,
    phases (trace r.2) = phases (trace s) ++ done
    /\ (exists recording audioFilePath transcription,
          done `prefix_of`
            listenPlan recording audioFilePath transcription (str (evaluation step)))
    /\ (forall res, r.1 = Ok res ->
          exists recording audioFilePath transcription evaluationResult,
            done = listenPlan recording audioFilePath transcription (str (evaluation step))
            /\ evaluationResult <> VUndefined
            /\ res = HObject [("score", score_of evaluationResult)]).
Proof.
  intros Heval r.
  assert (Hr : r = handleListen step s) by reflexivity. clearbody r.
  unfold handleListen, try_catch in Hr. rewrite Heval in Hr. cbn [negb] in Hr.
  unfold DEFAULT_TIMEOUT in Hr.
  (* start the recorder *)
  unfold bind at 1 in Hr. pose proof (call_phases EvalStartRecording s) as H1. revert H1 Hr.
  destruct (call EvalStartRecording s) as [[v1|e1|] s1]; cbn [fst snd]; intros H1 Hr;
    [|unfold bind, console, throw in Hr; listen_stop r..].
  (* recording-start *)
  unfold bind at 1 in Hr. pose proof (wait_phases "recordingstart" 30000 s1) as H2.
  revert H2 Hr.
  destruct (waitForAudioEvent "recordingstart" 30000 s1) as [[v2|e2|] s2]; cbn [fst snd];
    intros H2 Hr; [|unfold bind, console, throw in Hr; listen_stop r..].
  (* audio-start *)
  unfold bind at 1 in Hr. pose proof (wait_phases "audiostart" 30000 s2) as H3.
  revert H3 Hr.
  destruct (waitForAudioEvent "audiostart" 30000 s2) as [[v3|e3|] s3]; cbn [fst snd];
    intros H3 Hr; [|unfold bind, console, throw in Hr; listen_stop r..].
  (* audio-stop *)
  unfold bind at 1 in Hr. pose proof (wait_phases "audiostop" 30000 s3) as H4.
  revert H4 Hr.
  destruct (waitForAudioEvent "audiostop" 30000 s3) as [[v4|e4|] s4]; cbn [fst snd];
    intros H4 Hr; [|unfold bind, console, throw in Hr; listen_stop r..].
  (* stop the recorder *)
  unfold bind at 1 in Hr. pose proof (call_phases EvalStopRecording s4) as H5. revert H5 Hr.
  destruct (call EvalStopRecording s4) as [[v5|e5|] s5]; cbn [fst snd]; intros H5 Hr;
    [|unfold bind, console, throw in Hr; listen_stop r..].
  (* recording-complete *)
  unfold bind at 1 in Hr. pose proof (wait_phases "recordingcomplete" 30000 s5) as H6.
  revert H6 Hr.
  destruct (waitForAudioEvent "recordingcomplete" 30000 s5) as [[v6|e6|] s6]; cbn [fst snd];
    intros H6 Hr; [|unfold bind, console, throw in Hr; listen_stop r..].
  destruct (data v6) as [recording|];
    [|unfold bind, console, throw in Hr; listen_stop r].
  (* save, transcribe, evaluate *)
  unfold bind at 1 in Hr.
  pose proof (call_phases (SaveAudioAsWAV (audioData recording) (audioMetadata recording)) s6)
    as H7.
  revert H7 Hr.
  destruct (call (SaveAudioAsWAV (audioData recording) (audioMetadata recording)) s6)
    as [[v7|e7|] s7]; cbn [fst snd];
    intros H7 Hr; [|unfold bind, console, throw in Hr; listen_stop r..].
  rewrite bind_console in Hr.
  unfold bind at 1 in Hr.
  pose proof (call_phases (TranscribeAudio v7) (emit (LogValue "Audio saved as:" v7) s7))
    as H8.
  revert H8 Hr.
  destruct (call (TranscribeAudio v7) (emit (LogValue "Audio saved as:" v7) s7))
    as [[v8|e8|] s8];
    cbn [fst snd trace emit]; rewrite phases_app; cbn [phases omap phase_of]; rewrite app_nil_r;
    intros H8 Hr; [|unfold bind, console, throw in Hr; listen_stop r..].
  rewrite bind_console in Hr.
  unfold bind at 1 in Hr.
  pose proof (call_phases (EvaluateTranscription v8 (str (evaluation step)))
                (emit (LogValue "Transcription:" v8) s8)) as H9.
  revert H9 Hr.
  destruct (call (EvaluateTranscription v8 (str (evaluation step)))
              (emit (LogValue "Transcription:" v8) s8)) as [[v9|e9|] s9];
    cbn [fst snd trace emit]; rewrite phases_app; cbn [phases omap phase_of]; rewrite app_nil_r;
    intros H9 Hr; [|unfold bind, console, throw in Hr; listen_stop r..].
  assert (Hcases : v9 = VUndefined \/ v9 <> VUndefined)
    by (destruct v9; [left; reflexivity | right; discriminate..]).
  destruct Hcases as [->|Hdefined]; [unfold bind, console, throw in Hr; listen_stop r|].
  assert (Hr' : r = (Ok (HObject [("score", score_of v9)]),
                     emit (LogValue "Evaluation result:" v9) s9))
    by (destruct v9; [contradiction | exact Hr..]).
  clear Hr. listen_stop r. injection Hres as <-.
  exists recording, v7, v8, v9. split; [reflexivity|]. split; [exact Hdefined | reflexivity].
  Unshelve. all: first [exact VUndefined | exact (mkEventData None "" "" 0 0 0)].
Qed.

(** What a listen step forwards and returns on arrivals that let it run to its
    end. *)
Lemma listen_forwards (step : Step) (s : Tester) (run : ListenRun) (rest : list Incoming) :
  truthy (evaluation step) = true ->
  wf s -> (forall T, T ∈ listenEvents -> pendingPromises s !! T = None) ->
  listenQuiet (length (waits s)) run ->
  script s = listenArrivals run rest ->
  let r := handleListen step s in
  r.1 = Ok (HObject [("score", VNumber (lr_score run))])
  /\ phases (trace r.2)
     = phases (trace s)
       ++ listenPlan (lr_recording run) (lr_audioFilePath run) (lr_transcription run)
            (str (evaluation step))
  /\ script r.2 = rest.
Proof.
  intros Heval Hwf Hnone (Hcalls & Hq1 & Hq2 & Hq3 & Hq5) Hs r.
  set (n := length (waits s)) in *.
  assert (R0 : listening n (listenArrivals run rest) s).
  { split; [exact Hwf|]. split; [exact Hs|]. split; [reflexivity | exact Hnone]. }
  unfold listenArrivals in R0.
  destruct (call_listening EvalStartRecording _ _ _ _ _ R0) as (s1 & C1 & R1);
    [apply Hcalls; repeat constructor|].
  destruct (wait_listening "recordingstart" 30000 _ _ _ _ _ R1) as (t2 & s2 & C2 & R2);
    [repeat constructor | exact Hq1|].
  destruct (wait_listening "audiostart" 30000 _ _ _ _ _ R2) as (t3 & s3 & C3 & R3);
    [repeat constructor | replace (S n) with (n + 1)%nat by lia; exact Hq2|].
  destruct (wait_listening "audiostop" 30000 _ _ _ _ _ R3) as (t4 & s4 & C4 & R4);
    [repeat constructor | replace (S (S n)) with (n + 2)%nat by lia; exact Hq3|].
  destruct (call_listening EvalStopRecording _ _ _ _ _ R4) as (s5 & C5 & R5);
    [apply Hcalls; repeat constructor|].
  destruct (wait_listening "recordingcomplete" 30000 _ _ _ _ _ R5) as (t6 & s6 & C6 & R6);
    [repeat constructor | replace (S (S (S n))) with (n + 3)%nat by lia; exact Hq5|].
  destruct (call_listening
              (SaveAudioAsWAV (audioData (lr_recording run)) (audioMetadata (lr_recording run)))
              _ _ _ _ _ R6) as (s7 & C7 & R7);
    [apply Hcalls; repeat constructor|].
  apply (listening_emit (LogValue "Audio saved as:" (lr_audioFilePath run))) in R7.
  destruct (call_listening (TranscribeAudio (lr_audioFilePath run)) _ _ _ _ _ R7)
    as (s8 & C8 & R8); [apply Hcalls; repeat constructor|].
  apply (listening_emit (LogValue "Transcription:" (lr_transcription run))) in R8.
  destruct (call_listening
              (EvaluateTranscription (lr_transcription run) (str (evaluation step)))
              _ _ _ _ _ R8) as (s9 & C9 & R9); [apply Hcalls; repeat constructor|].
  pose proof (call_phases EvalStartRecording s) as P1. rewrite C1 in P1.
  pose proof (wait_phases "recordingstart" 30000 s1) as P2. rewrite C2 in P2.
  pose proof (wait_phases "audiostart" 30000 s2) as P3. rewrite C3 in P3.
  pose proof (wait_phases "audiostop" 30000 s3) as P4. rewrite C4 in P4.
  pose proof (call_phases EvalStopRecording s4) as P5. rewrite C5 in P5.
  pose proof (wait_phases "recordingcomplete" 30000 s5) as P6. rewrite C6 in P6.
  pose proof (call_phases (SaveAudioAsWAV (audioData (lr_recording run))
                             (audioMetadata (lr_recording run))) s6) as P7.
  rewrite C7 in P7.
  pose proof (call_phases (TranscribeAudio (lr_audioFilePath run))
                (emit (LogValue "Audio saved as:" (lr_audioFilePath run)) s7)) as P8.
  rewrite C8 in P8.
  pose proof (call_phases (EvaluateTranscription (lr_transcription run) (str (evaluation step)))
                (emit (LogValue "Transcription:" (lr_transcription run)) s8)) as P9.
  rewrite C9 in P9.
  cbn [fst snd] in *. rewrite phases_emit in P8, P9. cbn [phase_of] in P8, P9.
  rewrite app_nil_r in P8, P9.
  assert (Hr : r = (Ok (HObject [("score", VNumber (lr_score run))]),
                    emit (LogValue "Evaluation result:"
                            (VEvaluation (lr_score run) (lr_explanation run))) s9)).
  { subst r. unfold handleListen, try_catch. rewrite Heval. cbn [negb].
    unfold DEFAULT_TIMEOUT.
    unfold bind at 1. rewrite C1. unfold bind at 1. rewrite C2.
    unfold bind at 1. rewrite C3. unfold bind at 1. rewrite C4.
    unfold bind at 1. rewrite C5. unfold bind at 1. rewrite C6. cbn [data].
    unfold bind at 1. rewrite C7. rewrite bind_console.
    unfold bind at 1. rewrite C8. rewrite bind_console.
    unfold bind at 1. rewrite C9. rewrite bind_console. reflexivity. }
  rewrite Hr. cbn [fst snd]. split; [reflexivity|]. split.
  - rewrite phases_emit. cbn [phase_of]. rewrite app_nil_r.
    rewrite P9, P8, P7, P6, P5, P4, P3, P2, P1. unfold listenPlan.
    rewrite <- !app_assoc. reflexivity.
  - destruct R9 as (_ & Hscript & _). exact Hscript.
Qed.

(** C7.  The calls and waits of a listen step are, in this order: start the
    recorder, wait for "recordingstart", "audiostart" and "audiostop", stop
    the recorder, wait for "recordingcomplete", save the audio, transcribe it,
    evaluate the transcription.  A step that fails or is still waiting has
    done a prefix of them; a step that returns has done all of them.  When
    the page and the collaborators answer, whatever else arrives in between,
    the audio that is saved is the payload of the "recordingcomplete" event,
    the file that is transcribed is the one that saving returned, the text
    that is evaluated against the prompt of the step is the transcription, and
    the step returns the number that the evaluation gave as its score. *)
Theorem listen_runs_in_order (step : Step) (s : Tester) :
  truthy (evaluation step) = true ->
  let r := handleListen step s in
  (exists done,
     phases (trace r.2) = phases (trace s) ++ done
     /\ (exists recording audioFilePath transcription,
           done `prefix_of`
             listenPlan recording audioFilePath transcription (str (evaluation step)))
     /\ (forall res, r.1 = Ok res ->
           exists recording audioFilePath transcription evaluationResult,
             done = listenPlan recording audioFilePath transcription (str (evaluation step))
             /\ evaluationResult <> VUndefined
             /\ res = HObject [("score", score_of evaluationResult)]))
  /\ (forall (run : ListenRun) (rest : list Incoming),
        wf s -> (forall T, T ∈ listenEvents -> pendingPromises s !! T = None) ->
        listenQuiet (length (waits s)) run ->
        script s = listenArrivals run rest ->
        r.1 = Ok (HObject [("score", VNumber (lr_score run))])
        /\ phases (trace r.2)
           = phases (trace s)
             ++ listenPlan (lr_recording run) (lr_audioFilePath run) (lr_transcription run)
                  (str (evaluation step))
        /\ script r.2 = rest).
Proof.
  intros Heval r. split.
  - apply listen_order, Heval.
  - intros run rest Hwf Hnone Hquiet Hs.
    apply (listen_forwards step s run rest Heval Hwf Hnone Hquiet Hs).
Qed.

(** An evaluation that returns nothing makes the step fail when it reads the
    score. *)
Example listen_without_evaluation :
  (handleListen (listenStep "Does the agent greet?")
     (set_page true
        (construct plain_options empty_disk 0
           (listenArrivals (cooperativeRun (mkEventData None "UklGRg==" "audio/wav" 16000 1 16)
                              8 "greets the caller") []
            ++ [Reply (inr VUndefined)])))).1
  = Ok (HObject [("score", VNumber 8)])
  /\ (handleListen (listenStep "Does the agent greet?")
        (set_page true
           (construct plain_options empty_disk 0
              [Reply (inr VUndefined); Publish "recordingstart" None;
               Publish "audiostart" None; Publish "audiostop" None; Reply (inr VUndefined);
               Publish "recordingcomplete"
                 (Some (mkEventData None "UklGRg==" "audio/wav" 16000 1 16));
               Reply (inr (VString "output/recording.wav"));
               Reply (inr (VString "hello there")); Reply (inr VUndefined)]))).1
     = Err (Thrown "Cannot read properties of undefined (reading 'score')").
Proof. vm_compute. split; reflexivity. Qed.

Lemma listen_runs_in_order_witness :
  let recording := mkEventData None "UklGRg==" "audio/wav" 16000 1 16 in
  let s := set_page true (construct plain_options empty_disk 0
                            (cooperative recording 8 "greets the caller")) in
  let r := handleListen (listenStep "Does the agent greet?") s in
  r.1 = Ok (HObject [("score", VNumber 8)])
  /\ phases (trace r.2)
     = [ Calls EvalStartRecording;
         Waits "recordingstart" 30000; Waits "audiostart" 30000; Waits "audiostop" 30000;
         Calls EvalStopRecording;
         Waits "recordingcomplete" 30000;
         Calls (SaveAudioAsWAV "UklGRg==" (mkAudioMetadata "audio/wav" 16000 1 16));
         Calls (TranscribeAudio (VString "output/recording.wav"));
         Calls (EvaluateTranscription (VString "hello there") "Does the agent greet?") ]
  /\ script r.2 = [].
Proof.
  set (recording := mkEventData None "UklGRg==" "audio/wav" 16000 1 16).
  set (s := set_page true (construct plain_options empty_disk 0
                             (cooperative recording 8 "greets the caller"))).
  destruct (listen_runs_in_order (listenStep "Does the agent greet?") s eq_refl) as [_ H].
  apply (H (cooperativeRun recording 8 "greets the caller") []).
  - apply wf_set_page, wf_construct.
  - intros T _. apply lookup_empty.
  - split; [|repeat split].
    + intros k Hk. repeat (apply elem_of_cons in Hk as [->|Hk]; [reflexivity|]).
      apply elem_of_nil in Hk. contradiction.
    + constructor.
    + constructor.
    + repeat constructor. simpl. tauto.
    + constructor.
  - reflexivity.
Defined.

(** ** Concrete runs *)

Lemma teardown_cancels_all_witness :
  state_of 0 (clearAudioEventQueue three_waiters) = Some (Rejected (QueueCleared "audiostart"))
  /\ state_of 1 (clearAudioEventQueue three_waiters) = Some (Rejected (QueueCleared "audiostop"))
  /\ state_of 2 (clearAudioEventQueue three_waiters) = Some (Rejected (QueueCleared "audiostart"))
  /\ pendingPromises (clearAudioEventQueue three_waiters) = ∅
  /\ clearAudioEventQueue (clearAudioEventQueue three_waiters)
     = clearAudioEventQueue three_waiters
  /\ state_of 0 (close recorded_waiters).2 = Some (Rejected (BrowserClosed "audiostart"))
  /\ state_of 2 (close recorded_waiters).2 = Some (Rejected (BrowserClosed "audiostart"))
  /\ (forall p w, waits (close recorded_waiters).2 !! p = Some w -> w_state w <> Pending)
  /\ pendingPromises (close recorded_waiters).2 = ∅.
Proof.
  assert (Hwf : wf three_waiters).
  { unfold three_waiters. do 3 apply registerWaiter_wf.
    eapply wf_same; [| |apply (wf_construct plain_options empty_disk 0 [])]; reflexivity. }
  assert (Hwf' : wf recorded_waiters).
  { unfold recorded_waiters. apply wf_set_script. do 3 apply registerWaiter_wf.
    apply wf_set_recordingStream, wf_set_page, wf_set_browser, wf_construct. }
  destruct (teardown_cancels_all three_waiters Hwf) as (H1 & _ & H3 & H4 & _).
  destruct (teardown_cancels_all recorded_waiters Hwf') as (_ & _ & _ & _ & _ & Hclose & _).
  destruct (Hclose eq_refl [Publish "audiostop" None]
              [Reply (inr VUndefined); Reply (inr VUndefined)] VUndefined
              (fun _ => conj eq_refl eq_refl))
    as (Hrejected & Hsettled & _ & Hempty & _).
  split; [apply (H1 0%nat (mkWait "audiostart" 30000 30000 Pending Armed false)); reflexivity|].
  split; [apply (H1 1%nat (mkWait "audiostop" 30000 30000 Pending Armed false)); reflexivity|].
  split; [apply (H1 2%nat (mkWait "audiostart" 30000 30000 Pending Armed false)); reflexivity|].
  split; [exact H3|]. split; [exact H4|].
  split; [apply (Hrejected 0%nat (mkWait "audiostart" 30000 30000 Pending Armed false));
          [reflexivity..|intros _; repeat constructor; simpl; discriminate]|].
  split; [apply (Hrejected 2%nat (mkWait "audiostart" 30000 30000 Pending Armed false));
          [reflexivity..|intros _; repeat constructor; simpl; discriminate]|].
  split; [exact Hsettled | exact Hempty].
Defined.

Example close_cancels_three_waiters :
  let r := close (set_script [Reply (inr VUndefined)] three_waiters) in
  r.1 = Ok tt
  /\ state_of 0 r.2 = Some (Rejected (BrowserClosed "audiostart"))
  /\ state_of 1 r.2 = Some (Rejected (BrowserClosed "audiostop"))
  /\ state_of 2 r.2 = Some (Rejected (BrowserClosed "audiostart"))
  /\ browser r.2 = false.
Proof. vm_compute. repeat split. Qed.

(** With a recording running, [close] waits for the recording to stop: the
    waiter for "audiostop" takes the event published in the meantime, and the
    two others are rejected. *)
Example close_stops_recording_first :
  let r := close recorded_waiters in
  r.1 = Ok tt
  /\ state_of 0 r.2 = Some (Rejected (BrowserClosed "audiostart"))
  /\ state_of 1 r.2 = Some (Fulfilled (mkEvent "audiostop" None 0))
  /\ state_of 2 r.2 = Some (Rejected (BrowserClosed "audiostart"))
  /\ recordingStream r.2 = false /\ browser r.2 = false.
Proof. vm_compute. repeat split. Qed.

(** When the recording cannot be stopped, [close] fails there: it has not
    reached its rejection loop, and the waiters are still outstanding. *)
Example close_fails_with_the_recording :
  let r := close (set_script [Reply (inl (External "stream is locked"))] recorded_waiters) in
  r.1 = Err (External "stream is locked")
  /\ state_of 0 r.2 = Some Pending /\ state_of 1 r.2 = Some Pending
  /\ state_of 2 r.2 = Some Pending /\ browser r.2 = true.
Proof. vm_compute. repeat split. Qed.

Lemma unknown_action_is_skipped_witness :
  executeStep hoverStep 0 "app" "scenario" 1 (launched_tester plain_options empty_disk [])
  = (Ok tt, emit (LogElapsed 0) (emit (LogUnknownAction "hover")
                                   (launched_tester plain_options empty_disk []))).
Proof.
  apply (unknown_action_is_skipped hoverStep 0 "app" "scenario" 1 []
           (launched_tester plain_options empty_disk [])).
  - reflexivity.
  - unfold knownActions. intros H.
    repeat (apply elem_of_cons in H as [H|H]; [discriminate H|]).
    apply elem_of_nil in H. exact H.
Defined.

Example speak_succeeds :
  (handleSpeak speakStep
     (launched_tester plain_options greeting_assets
        [Publish "speechend" None; Reply (inr VUndefined); Tick 500;
         Publish "audiostart" None; Publish "speechend" None])).1
  = Ok HUndefined.
Proof.
  pose proof (speak_file_outcome
                (launched_tester plain_options greeting_assets
                   [Publish "speechend" None; Reply (inr VUndefined); Tick 500;
                    Publish "audiostart" None; Publish "speechend" None])
                speakStep [Publish "speechend" None]
                [Tick 500; Publish "audiostart" None; Publish "speechend" None] VUndefined)
    as H.
  destruct H as [_ H].
  - eapply wf_same; [| |apply (wf_construct plain_options greeting_assets 0 [])]; reflexivity.
  - vm_compute. reflexivity.
  - reflexivity.
  - reflexivity.
  - left.
  - reflexivity.
  - reflexivity.
  - vm_compute in H. vm_compute. exact H.
Qed.

(** C6, at the input where the code departs from it.  In debug mode the
    timeout of the speech wait fires after 30000 ms, and "speechend" is
    published while the handler is still collecting its diagnostics.  The
    claim makes the step fail with the timeout error and the snapshot; the
    step succeeds, because the entry of the timed-out wait is still queued and
    takes the event.  Without debug the same arrivals make the step fail. *)
Theorem speak_succeeds_after_timeout :
  let late := [Reply (inr VUndefined); TimerFires 0; Publish "speechend" None;
               DiagnosticsDone 0 (Some some_diagnostics)] in
  let r := handleSpeak speakStep (launched_tester debug_options greeting_assets late) in
  r.1 = Ok HUndefined
  /\ waits r.2 !! 0%nat
     = Some (mkWait "speechend" 30000 30000
               (Fulfilled (mkEvent "speechend" None 30000)) Collecting false)
  /\ (handleSpeak speakStep (launched_tester plain_options greeting_assets late)).1
     = Err (TimeoutError "speechend" 30000 NoDetail).
Proof. vm_compute. repeat split. Qed.

Example speak_times_out :
  (handleSpeak speakStep
     (launched_tester plain_options greeting_assets
        [Reply (inr VUndefined); Tick 29000; TimerFires 0; Publish "speechend" None])).1
  = Err (TimeoutError "speechend" 30000 NoDetail).
Proof. vm_compute. reflexivity. Qed.

(** An event published while the playback call is still awaited finds no
    waiter and is dropped: the step times out although "speechend" came before
    the timeout. *)
Example speak_misses_early_event :
  (handleSpeak speakStep
     (launched_tester plain_options greeting_assets
        [Publish "speechend" None; Reply (inr VUndefined); Tick 30000; TimerFires 0])).1
  = Err (TimeoutError "speechend" 30000 NoDetail).
Proof. vm_compute. reflexivity. Qed.

Example speak_times_out_with_snapshot :
  (handleSpeak speakStep
     (launched_tester debug_options greeting_assets
        [Reply (inr VUndefined); TimerFires 0; DiagnosticsDone 0 (Some some_diagnostics)])).1
  = Err (TimeoutError "speechend" 30000 (Snapshot some_diagnostics)).
Proof. vm_compute. reflexivity. Qed.

Example speak_missing_file :
  (handleSpeak speakStep (launched_tester plain_options empty_disk [])).1
  = Err (Thrown "Audio file not found: greeting.wav").
Proof. vm_compute. reflexivity. Qed.

Lemma step_failure_aborts_run_witness :
  let r := runScenario "http://localhost:3333/app" [hoverStep] [clickStart; hoverStep]
             "app" "scenario" 1 failing_session in
  let summary :=
    External "Waiting for selector #start failed: Waiting failed: 30000ms exceeded" in
  r.1 = Err selector_timeout
  /\ EndRun "app" "scenario" 1 false ∈ trace r.2
  /\ ErrorExecutingStep 2 "click" summary ∈ trace r.2
  /\ ErrorDuringScenario summary ∈ trace r.2
  /\ LogExecutingStep 3 "hover" ∉ trace r.2.
Proof.
  set (s := failing_session).
  set (s0 := (scenarioSetup "http://localhost:3333/app" "app" "scenario" 1 s).2).
  set (s1 := (executeSteps [hoverStep] 0 "app" "scenario" 1 s0).2).
  set (s2 := (dispatch clickStart (emit (LogExecutingStep 2 "click") s1)).2).
  destruct (step_failure_aborts_run "http://localhost:3333/app" [hoverStep]
              [clickStart; hoverStep] "app" "scenario" 1 [hoverStep] [hoverStep]
              clickStart selector_timeout s s0 s1 s2)
    as (_ & _ & Hr & _ & Hrec & _ & Hstep & Hscenario); try (vm_compute; reflexivity).
  cbv zeta. split; [|split; [|split; [|split]]].
  - rewrite Hr. vm_compute. reflexivity.
  - apply Hrec; [vm_compute; reflexivity|]. rewrite Hr. vm_compute. discriminate.
  - exact Hstep.
  - exact Hscenario.
  - rewrite Hr. vm_compute. intros Hin.
    repeat (apply elem_of_cons in Hin as [Hin|Hin]; [discriminate Hin|]).
    apply elem_of_nil in Hin. exact Hin.
Defined.

End VoiceAgentTesterProofs.

(* ===================================================================== *)
(** * Further properties of the event broker *)
(* ===================================================================== *)

Module BrokerProperties.
Import VoiceAgentTester VoiceAgentTesterProofs.

(** ** Promises settle once *)

Lemma update_wait_settled (k : nat) (f : Wait -> Wait) (s : Tester) (p : nat)
    (st : PromiseState) :
  (forall w, w_state w <> Pending -> w_state (f w) = w_state w) ->
  state_of p s = Some st -> st <> Pending ->
  state_of p (update_wait k f s) = Some st.
Proof.
  intros Hf Hp Hst. unfold state_of in *. rewrite update_wait_lookup.
  case_decide as Hk; [subst k|exact Hp].
  destruct (waits s !! p) as [w|]; [|discriminate]. simpl in *.
  injection Hp as Hw. rewrite Hf; congruence.
Qed.

Lemma settle_settled (st : PromiseState) (w : Wait) :
  w_state w <> Pending -> w_state (settle st w) = w_state w.
Proof.
  intros H. unfold settle. destruct (w_state w) eqn:E; [congruence|exact E..].
Qed.

Lemma clearTimeout_settled (tid : nat) (s : Tester) (p : nat) (st : PromiseState) :
  state_of p s = Some st -> state_of p (clearTimeout tid s) = Some st.
Proof.
  intros Hp. unfold clearTimeout. rewrite state_of_update_wait; [exact Hp|].
  intros w _. destruct (w_timer w); reflexivity.
Qed.

Lemma call_reject_settled (k : nat) (err : Error) (s : Tester) (p : nat)
    (st : PromiseState) :
  state_of p s = Some st -> st <> Pending -> state_of p (call_reject k err s) = Some st.
Proof.
  intros Hp Hst. apply update_wait_settled; [|exact Hp|exact Hst].
  intros w Hw. apply settle_settled, Hw.
Qed.

Lemma clearInterval_settled (k : nat) (s : Tester) (p : nat) (st : PromiseState) :
  state_of p s = Some st -> state_of p (clearInterval k s) = Some st.
Proof.
  intros Hp. unfold clearInterval. rewrite state_of_update_wait; [exact Hp|].
  reflexivity.
Qed.

Lemma call_resolve_settled (f : Fn) (e : Event) (s : Tester) (p : nat)
    (st : PromiseState) :
  state_of p s = Some st -> st <> Pending -> state_of p (call_resolve f e s) = Some st.
Proof.
  intros Hp Hst. destruct f as [k|k]; simpl.
  - apply update_wait_settled; [|exact Hp|exact Hst].
    intros w Hw. apply settle_settled, Hw.
  - apply update_wait_settled; [| |exact Hst].
    + intros w Hw. apply settle_settled, Hw.
    + apply clearInterval_settled, Hp.
Qed.

Lemma rejectWaiters_settled (err : Error) (q : list Waiter) :
  forall (s : Tester) (p : nat) (st : PromiseState),
    state_of p s = Some st -> st <> Pending ->
    state_of p (foldl (rejectWaiter err) s q) = Some st.
Proof.
  induction q as [|e q IH]; intros s p st Hp Hst; [exact Hp|].
  simpl. apply IH; [|exact Hst].
  unfold rejectWaiter. apply call_reject_settled; [|exact Hst].
  apply clearTimeout_settled, Hp.
Qed.

Lemma rejectAllPending_settled (mkErr : string -> Error) (s : Tester) (p : nat)
    (st : PromiseState) :
  state_of p s = Some st -> st <> Pending ->
  state_of p (rejectAllPending mkErr s) = Some st.
Proof.
  intros Hp Hst. unfold rejectAllPending.
  change (state_of p (foldl (rejectQueue mkErr) s (map_to_list (pendingPromises s)))
          = Some st).
  generalize (map_to_list (pendingPromises s)) as l. revert s Hp.
  intros s Hp l. revert s Hp.
  induction l as [|[T q] l IH]; intros s Hp; [exact Hp|].
  simpl. apply IH. unfold rejectQueue. simpl.
  apply rejectWaiters_settled; assumption.
Qed.

Lemma state_of_set_pendingPromises (m : gmap string (list Waiter)) (s : Tester) (p : nat) :
  state_of p (set_pendingPromises m s) = state_of p s.
Proof. reflexivity. Qed.

Lemma deliver_settled (i : Incoming) (s : Tester) (p : nat) (st : PromiseState) :
  state_of p s = Some st -> st <> Pending -> state_of p (deliver i s) = Some st.
Proof.
  intros Hp Hst. destruct i as [T d|dt|tid|tid d|r]; simpl.
  - unfold publishEvent.
    destruct (pendingPromises (emit _ s) !! T) as [[|first rest]|]; try exact Hp.
    apply call_resolve_settled; [|exact Hst].
    destruct rest; rewrite state_of_set_pendingPromises;
      apply clearTimeout_settled; exact Hp.
  - exact Hp.
  - unfold timerFires.
    destruct (waits s !! tid) as [w|] eqn:Hw; [|exact Hp].
    destruct (w_timer w); try exact Hp.
    unfold timeoutHandler.
    set (s1 := clearInterval tid (set_now _ s)).
    assert (H1 : state_of p s1 = Some st) by (apply clearInterval_settled, Hp).
    set (s2 := match pendingPromises s1 !! w_eventType w with
               | Some promises => _
               | None => s1
               end).
    assert (H2 : state_of p s2 = Some st).
    { subst s2. destruct (pendingPromises s1 !! w_eventType w) as [q|]; [|exact H1].
      destruct (findIndex _ q); [|exact H1].
      destruct (splice1 _ q); exact H1. }
    assert (Hfin : forall s', state_of p s' = Some st ->
                     state_of p (update_wait tid (with_timer Finished) s') = Some st).
    { intros s' H'. rewrite state_of_update_wait; [exact H'|reflexivity]. }
    destruct (debug (options s2)); [destruct (page s2)|].
    + rewrite state_of_update_wait; [exact H2|reflexivity].
    + apply call_reject_settled; [apply Hfin, H2|exact Hst].
    + apply call_reject_settled; [apply Hfin, H2|exact Hst].
  - unfold diagnosticsDone.
    destruct (waits s !! tid) as [w|]; [|exact Hp].
    destruct (w_timer w); try exact Hp.
    apply call_reject_settled; [|exact Hst].
    rewrite state_of_update_wait; [exact Hp|reflexivity].
  - exact Hp.
Qed.

Lemma registerWaiter_settled (T : string) (d : Z) (s : Tester) (p : nat)
    (st : PromiseState) :
  state_of p s = Some st -> state_of p (registerWaiter T d s).2 = Some st.
Proof.
  unfold state_of, registerWaiter. simpl. intros Hp.
  destruct (waits s !! p) as [w|] eqn:Hw; [|discriminate].
  rewrite (lookup_app_l_Some _ _ _ _ Hw). exact Hp.
Qed.

Lemma perform_settled (op : Operation) (s : Tester) (p : nat) (st : PromiseState) :
  state_of p s = Some st -> st <> Pending -> state_of p (perform s op) = Some st.
Proof.
  intros Hp Hst. destruct op; simpl.
  - apply registerWaiter_settled, Hp.
  - apply deliver_settled; assumption.
  - apply rejectAllPending_settled; assumption.
  - apply rejectAllPending_settled; assumption.
  - exact Hp.
  - exact Hp.
  - exact Hp.
Qed.

(** X1.  A promise of [waitForAudioEvent] settles once: after it has been
    fulfilled or rejected, no later wait, event, timeout, diagnostics result,
    queue clearing or shutdown changes its outcome. *)
Theorem settled_promise_is_final (ops : list Operation) :
  forall (s : Tester) (p : nat) (st : PromiseState),
    state_of p s = Some st -> st <> Pending ->
    state_of p (foldl perform s ops) = Some st.
Proof.
  induction ops as [|op ops IH]; intros s p st Hp Hst; [exact Hp|].
  simpl. apply IH; [|exact Hst]. apply perform_settled; assumption.
Qed.

(** ** The invariant of the broker, on every reachable state *)

Lemma registerWaiter_queued_once (T : string) (d : Z) (s : Tester) :
  wf s -> queued_once s -> queued_once (registerWaiter T d s).2.
Proof.
  intros Hwf Hq T' q Hl.
  destruct (registerWaiter_appends s T d) as [Hsame Hother].
  destruct (decide (T' = T)) as [->|Hne].
  - rewrite Hsame in Hl. injection Hl as <-.
    apply NoDup_app. split; [|split].
    + destruct (pendingPromises s !! T) as [q0|] eqn:Hq0; simpl;
        [apply (Hq T q0 Hq0) | constructor].
    + intros e He Hin. apply list_elem_of_singleton in Hin. subst e.
      destruct (pendingPromises s !! T) as [q0|] eqn:Hq0; simpl in He;
        [|apply elem_of_nil in He; exact He].
      destruct (wf_entries s Hwf T q0 _ Hq0 He) as (_ & w & Hw & _).
      simpl in Hw. apply lookup_lt_Some in Hw. lia.
    + apply NoDup_singleton.
  - rewrite (Hother T' Hne) in Hl. apply (Hq T' q Hl).
Qed.

Lemma publishEvent_queued_once (T : string) (d : option EventData) (s : Tester) :
  wf s -> queued_once s -> queued_once (publishEvent T d s).
Proof.
  intros Hwf Hq T' q Hl.
  pose proof (publish_fifo s T d Hwf) as Hf.
  destruct (pendingPromises s !! T) as [q0|] eqn:Hq0.
  - destruct Hf as (p & rest & w & -> & _ & _ & _ & _ & Hpp).
    rewrite Hpp, dequeue_lookup in Hl.
    pose proof (Hq T _ Hq0) as Hnd. apply NoDup_cons in Hnd as [_ Hnd].
    case_decide as HT.
    + destruct rest; [discriminate|]. injection Hl as <-. exact Hnd.
    + apply (Hq T' q Hl).
  - rewrite Hf in Hl. apply (Hq T' q Hl).
Qed.

Lemma deliver_queued_once (i : Incoming) (s : Tester) :
  wf s -> queued_once s -> queued_once (deliver i s).
Proof.
  intros Hwf Hq. destruct i as [T d|dt|tid|tid d|r]; simpl.
  - apply publishEvent_queued_once; assumption.
  - exact Hq.
  - intros T q. rewrite (timerFires_queues tid s Hwf). apply Hq.
  - intros T q. rewrite diagnosticsDone_queues. apply Hq.
  - exact Hq.
Qed.

Lemma rejectAllPending_queued_once (mkErr : string -> Error) (s : Tester) :
  queued_once (rejectAllPending mkErr s).
Proof.
  intros T q. unfold rejectAllPending. simpl. rewrite lookup_empty. discriminate.
Qed.

Lemma perform_wf (op : Operation) (s : Tester) : wf s -> wf (perform s op).
Proof.
  intros Hwf. destruct op; simpl.
  - apply registerWaiter_wf, Hwf.
  - apply deliver_wf, Hwf.
  - apply rejectAllPending_wf, Hwf.
  - apply rejectAllPending_wf, Hwf.
  - eapply wf_same; [| |exact Hwf]; reflexivity.
  - eapply wf_same; [| |exact Hwf]; reflexivity.
  - eapply wf_same; [| |exact Hwf]; reflexivity.
Qed.

Lemma perform_queued_once (op : Operation) (s : Tester) :
  wf s -> queued_once s -> queued_once (perform s op).
Proof.
  intros Hwf Hq. destruct op; simpl.
  - apply registerWaiter_queued_once; assumption.
  - apply deliver_queued_once; assumption.
  - apply rejectAllPending_queued_once.
  - apply rejectAllPending_queued_once.
  - exact Hq.
  - exact Hq.
  - exact Hq.
Qed.

Lemma reachable_queued_once (ops : list Operation) :
  forall s, wf s -> queued_once s ->
    wf (foldl perform s ops) /\ queued_once (foldl perform s ops).
Proof.
  induction ops as [|op ops IH]; intros s Hwf Hq; [split; assumption|].
  simpl. apply IH; [apply perform_wf, Hwf | apply perform_queued_once; assumption].
Qed.

(** X2.  On every state that a tester reaches from its construction by
    calls of [waitForAudioEvent], published events, timeouts, diagnostics
    results, [clearAudioEventQueue] and the rejection loop of [close]: the
    map of pending promises never holds an empty array; every queued entry
    was pushed by a wait for the type of its queue; no entry is queued
    twice; every pending promise still has its entry queued, so that an
    event or a shutdown can reach it; and an armed timeout always belongs to
    a pending promise. *)
Theorem broker_invariant (o : Options) (d : Disk) (t : Z) (incoming : list Incoming)
    (ops : list Operation) :
  let s := foldl perform (construct o d t incoming) ops in
  (forall T q, pendingPromises s !! T = Some q ->
     q <> [] /\ NoDup q
     /\ forall e, e ∈ q ->
          e = entry_of (reject e)
          /\ exists w, waits s !! reject e = Some w /\ w_eventType w = T)
  /\ (forall p w, waits s !! p = Some w -> w_state w = Pending ->
        exists q, pendingPromises s !! w_eventType w = Some q /\ entry_of p ∈ q)
  /\ (forall p w, waits s !! p = Some w -> w_timer w = Armed -> w_state w = Pending).
Proof.
  intros s.
  destruct (reachable_queued_once ops (construct o d t incoming)) as [Hwf Hq].
  { apply wf_construct. }
  { intros T q H. simpl in H. rewrite lookup_empty in H. discriminate. }
  fold s in Hwf, Hq. split; [|split].
  - intros T q Hl. split; [|split].
    + intros ->. apply (wf_nonempty s Hwf T Hl).
    + apply (Hq T q Hl).
    + intros e He. apply (wf_entries s Hwf T q e Hl He).
  - apply (wf_pending s Hwf).
  - apply (wf_armed s Hwf).
Qed.

(** ** Delivery *)

(** X3.  A published event goes to the head of the queue of its type and to
    nobody else: the promise of the head entry is fulfilled with the event
    (type, data and the time of publication) if it is still pending, its
    timeout is disarmed, the entry leaves the queue (the key with it when the
    queue gets empty), and every other wait and every queue of another type
    stay as they are. *)
Theorem publish_resolves_head (s : Tester) (T : string) (d : option EventData)
    (first : Waiter) (rest : list Waiter) :
  wf s -> pendingPromises s !! T = Some (first :: rest) ->
  let p := reject first in
  let s' := publishEvent T d s in
  (exists w w',
      waits s !! p = Some w /\ w_eventType w = T /\ waits s' !! p = Some w'
      /\ w_state w' = match w_state w with
                      | Pending => Fulfilled (mkEvent T d (now s))
                      | st => st
                      end
      /\ w_timer w' <> Armed)
  /\ (forall j, j <> p -> waits s' !! j = waits s !! j)
  /\ pendingPromises s' !! T = match rest with [] => None | _ => Some rest end
  /\ (forall T', T' <> T -> pendingPromises s' !! T' = pendingPromises s !! T')
  /\ trace s' = trace s ++ [LogPublished T (d ≫= elementId)]
  /\ now s' = now s.
Proof.
  intros Hwf Hq p s'.
  pose proof (publish_fifo s T d Hwf) as Hf. rewrite Hq in Hf.
  destruct Hf as (p0 & rest0 & w & Heq & Hw & HT & Hw' & Hothers & Hpp).
  injection Heq as -> ->. change (reject (entry_of p0)) with p0 in p. subst p.
  split; [|split; [|split; [|split; [|split]]]].
  - exists w, (resolved (mkEvent T d (now s)) w). fold s' in Hw'.
    split; [exact Hw|]. split; [exact HT|]. split; [exact Hw'|]. split.
    + destruct w as [wT wd wdl st tm iv]. destruct tm, st; reflexivity.
    + destruct w as [wT wd wdl st tm iv]. destruct tm, st; discriminate.
  - exact Hothers.
  - subst s'. rewrite Hpp, dequeue_lookup. rewrite decide_True by reflexivity. reflexivity.
  - intros T' Hne. subst s'. rewrite Hpp, dequeue_lookup.
    rewrite decide_False by exact Hne. reflexivity.
  - subst s'. rewrite (publishEvent_head T d s p0 rest0 Hq). simpl.
    rewrite trace_update_wait. reflexivity.
  - subst s'. rewrite (publishEvent_head T d s p0 rest0 Hq). simpl.
    rewrite now_update_wait. reflexivity.
Qed.

(** ** Shutdown *)

Lemma deliver_all_quiescent (l : list Incoming) :
  forall s, wf s -> quiescent s ->
    quiescent (deliver_all l s) /\ forall j, state_of j (deliver_all l s) = state_of j s.
Proof.
  induction l as [|i l IH]; intros s Hwf Hq; [split; [exact Hq|reflexivity]|].
  unfold deliver_all in *. simpl.
  destruct (deliver_quiescent i s Hwf Hq) as [Hq1 Hst1].
  destruct (IH (deliver i s) (deliver_wf i s Hwf) Hq1) as [Hq2 Hst2].
  split; [exact Hq2|]. intros j. rewrite Hst2. apply Hst1.
Qed.

(** X4.  Shutdown is final.  After [clearAudioEventQueue] (and after the
    same loop in [close], which differs in the error only) has run, whatever
    arrives later, be it an event, a timeout that was scheduled before, or the
    diagnostics of a timeout handler that was already running, changes no
    promise and queues nothing. *)
Theorem nothing_fires_after_teardown (mkErr : string -> Error) (s : Tester)
    (later : list Incoming) :
  wf s ->
  let s' := rejectAllPending mkErr s in
  clearAudioEventQueue s = rejectAllPending QueueCleared s
  /\ pendingPromises (deliver_all later s') = ∅
  /\ (forall p, state_of p (deliver_all later s') = state_of p s')
  /\ (forall p w, waits (deliver_all later s') !! p = Some w -> w_state w <> Pending).
Proof.
  intros Hwf s'. split; [reflexivity|].
  destruct (deliver_all_quiescent later s' (rejectAllPending_wf mkErr s Hwf)
              (rejectAllPending_quiescent mkErr s Hwf)) as [[Hpp Hnone] Hst].
  split; [exact Hpp|]. split; [exact Hst|exact Hnone].
Qed.

(** X5.  The diagnostic interval of a wait (set in debug mode) is cleared
    when an event resolves the wait and when its timeout fires.  Clearing the
    queue rejects the promise and disarms the timeout, but leaves the interval
    as it was. *)
Theorem diagnostic_interval_lifetime (s : Tester) (p : nat) (w : Wait) :
  wf s -> waits s !! p = Some w ->
  (forall rest d,
      pendingPromises s !! w_eventType w = Some (entry_of p :: rest) ->
      w_interval <$> waits (publishEvent (w_eventType w) d s) !! p = Some false)
  /\ (w_timer w = Armed -> w_interval <$> waits (timerFires p s) !! p = Some false)
  /\ (forall mkErr,
        exists w', waits (rejectAllPending mkErr s) !! p = Some w'
                   /\ w_interval w' = w_interval w
                   /\ w_timer w' <> Armed /\ w_state w' <> Pending).
Proof.
  intros Hwf Hw. split; [|split].
  - intros rest d Hq. rewrite (publishEvent_head _ d s p rest Hq). simpl.
    rewrite update_wait_lookup. rewrite decide_True by reflexivity.
    simpl. rewrite Hw. simpl. f_equal.
    destruct w as [wT wd wdl st tm iv]. destruct tm, st; reflexivity.
  - intros Harmed. rewrite (timerFires_spec p w s Hwf Hw Harmed).
    rewrite update_wait_lookup. rewrite decide_True by reflexivity.
    simpl. rewrite Hw. simpl. f_equal.
    unfold on_timeout. simpl.
    destruct w as [wT wd wdl st tm iv].
    destruct (debug (options s)); [destruct (page s)|]; destruct st; reflexivity.
  - intros mkErr.
    destruct (rejectAllPending_spec mkErr s Hwf) as (_ & _ & _ & _ & _ & _ & _ & Hwaits).
    exists (torn mkErr w). rewrite Hwaits, Hw. split; [reflexivity|]. split; [|split].
    + destruct w as [wT wd wdl st tm iv]. destruct tm, st; reflexivity.
    + apply torn_timer.
    + rewrite torn_state. destruct (w_state w); discriminate.
Qed.

(** ** Events are handed out in the order of the calls *)

Lemma registerWaiter_lined_up (s : Tester) (T : string) (d : Z) (p k : nat) :
  lined_up s T p k -> lined_up (registerWaiter T d s).2 T p (S k).
Proof.
  intros (Hwf & Hlen & Hq & Hpend).
  destruct (registerWaiter_spec T d s) as (_ & Hnew & Hqueue & _).
  split; [apply registerWaiter_wf, Hwf|]. split; [|split].
  - unfold registerWaiter. simpl. rewrite length_app. simpl. lia.
  - rewrite Hqueue, Hq, Hlen. rewrite seq_S, fmap_app. simpl.
    destruct k; reflexivity.
  - intros i Hi. destruct (decide (i = k)) as [->|Hne].
    + rewrite <- Hlen, Hnew. eexists; split; reflexivity.
    + destruct (Hpend i) as (w & Hw & Hst); [lia|].
      exists w. split; [|exact Hst].
      unfold registerWaiter. simpl. apply lookup_app_l_Some, Hw.
Qed.

Lemma registerWaiters_lined_up (T : string) (timeouts : list Z) :
  forall (s : Tester) (p k : nat),
    lined_up s T p k ->
    let s' := foldl (fun s d => (registerWaiter T d s).2) s timeouts in
    lined_up s' T p (k + length timeouts) /\ now s' = now s.
Proof.
  induction timeouts as [|d timeouts IH]; intros s p k H.
  - simpl. rewrite Nat.add_0_r. split; [exact H|reflexivity].
  - cbv zeta. cbn [foldl length].
    destruct (IH _ p (S k) (registerWaiter_lined_up s T d p k H)) as [H1 H2].
    cbv zeta in H1, H2. split.
    + replace (k + S (length timeouts))%nat with (S k + length timeouts)%nat by lia.
      exact H1.
    + rewrite H2. reflexivity.
Qed.

Lemma publish_lined_up (events : list (option EventData)) (T : string) :
  forall (s : Tester) (p k : nat),
    lined_up s T p k ->
    let s' := deliver_all (Publish T <$> events) s in
    (forall i, (i < k)%nat ->
       state_of (p + i) s'
       = Some (match events !! i with
               | Some data => Fulfilled (mkEvent T data (now s))
               | None => Pending
               end))
    /\ (forall j, (j < p)%nat -> waits s' !! j = waits s !! j).
Proof.
  induction events as [|data events IH]; intros s p k (Hwf & Hlen & Hq & Hpend).
  - simpl. split; [|reflexivity].
    intros i Hi. destruct (Hpend i Hi) as (w & Hw & Hst).
    unfold state_of. rewrite Hw. simpl. rewrite Hst. reflexivity.
  - change (deliver_all (Publish T <$> data :: events) s)
      with (deliver_all (Publish T <$> events) (publishEvent T data s)).
    destruct k as [|k].
    + (* nobody waits: the event is dropped *)
      rewrite (publishEvent_dropped T data s Hq).
      destruct (IH (emit (LogPublished T (data ≫= elementId)) s) p 0%nat) as [_ H2].
      { split; [|split; [|split]].
        - eapply wf_same; [| |exact Hwf]; reflexivity.
        - exact Hlen.
        - exact Hq.
        - intros i Hi. lia. }
      split; [intros i Hi; lia|exact H2].
    + (* the head of the queue takes it *)
      assert (Hq' : pendingPromises s !! T
                    = Some (entry_of p :: (entry_of <$> seq (S p) k))) by exact Hq.
      pose proof (publish_fifo s T data Hwf) as Hf. rewrite Hq' in Hf.
      destruct Hf as (p0 & rest0 & w & Heq & Hw & _ & Hw' & Hothers & Hpp).
      assert (Hp0 : entry_of p = entry_of p0) by congruence.
      apply entry_of_inj in Hp0. subst p0.
      assert (Hrest : rest0 = entry_of <$> seq (S p) k) by congruence. subst rest0.
      set (s1 := publishEvent T data s) in *.
      assert (Hnow : now s1 = now s).
      { subst s1. rewrite (publishEvent_head T data s p _ Hq'). simpl.
        rewrite now_update_wait. reflexivity. }
      assert (Hlen1 : length (waits s1) = length (waits s)).
      { apply (deliver_length (Publish T data) s). }
      destruct (IH s1 (S p) k) as [H1 H2].
      { split; [apply publishEvent_wf, Hwf|]. split; [|split].
        - rewrite Hlen1, Hlen. lia.
        - rewrite Hpp, dequeue_lookup. rewrite decide_True by reflexivity.
          destruct k; reflexivity.
        - intros i Hi. destruct (Hpend (S i)) as (wi & Hwi & Hst); [lia|].
          exists wi. split; [|exact Hst].
          rewrite Hothers by lia. rewrite <- Hwi. f_equal. lia. }
      split.
      * intros i Hi. destruct i as [|i].
        -- rewrite Nat.add_0_r. unfold state_of. rewrite H2 by lia. rewrite Hw'.
           simpl. f_equal.
           destruct (Hpend 0%nat) as (w0 & Hw0 & Hst0); [lia|].
           rewrite Nat.add_0_r in Hw0. rewrite Hw in Hw0. injection Hw0 as <-.
           destruct w as [wT wd wdl st tm iv]. simpl in Hst0. subst st.
           destruct tm; reflexivity.
        -- replace (p + S i)%nat with (S p + i)%nat by lia.
           rewrite H1 by lia. rewrite Hnow. reflexivity.
      * intros j Hj. rewrite H2 by lia. apply Hothers. lia.
Qed.

(** X6.  Events are handed out in the order of the calls.  When several
    waits for one type are made, on a tester where nobody waits for that type
    yet, and events of that type are published afterwards, the i-th event
    fulfils the i-th wait, with the data of that event; the waits beyond the
    number of events stay pending, and the events beyond the number of waits
    are dropped. *)
Theorem events_resolve_waits_in_order (s : Tester) (T : string) (timeouts : list Z)
    (events : list (option EventData)) :
  wf s -> pendingPromises s !! T = None ->
  let registered := foldl (fun s d => (registerWaiter T d s).2) s timeouts in
  let s' := deliver_all (Publish T <$> events) registered in
  forall i, (i < length timeouts)%nat ->
    state_of (length (waits s) + i) s'
    = Some (match events !! i with
            | Some data => Fulfilled (mkEvent T data (now s))
            | None => Pending
            end).
Proof.
  intros Hwf Hq registered s' i Hi.
  destruct (registerWaiters_lined_up T timeouts s (length (waits s)) 0%nat) as [H1 H2].
  { split; [exact Hwf|]. split; [lia|]. split; [exact Hq|]. intros j Hj. lia. }
  fold registered in H1, H2.
  destruct (publish_lined_up events T registered _ _ H1) as [H3 _].
  fold s' in H3. rewrite H3 by (simpl; exact Hi). rewrite H2. reflexivity.
Qed.

(** ** The outcome of a wait *)

Lemma verdict_quiet (T : string) (p : nat) (dbg pg : bool) (before : list Incoming) :
  forall (c : bool) (rest : list Incoming),
    Forall (fun i => ~ touches p T i) before ->
    verdict T p dbg pg c (before ++ rest) = verdict T p dbg pg c rest.
Proof.
  induction before as [|i before IH]; intros c rest Hq; [reflexivity|].
  apply Forall_cons in Hq as [Hi Hq]. simpl.
  destruct i as [T' d|dt|tid|tid d|r]; simpl in Hi.
  - destruct (String.eqb_spec T' T) as [->|_]; [contradiction|]. apply IH, Hq.
  - apply IH, Hq.
  - destruct (Nat.eqb_spec tid p) as [->|_]; [contradiction|]. simpl. apply IH, Hq.
  - destruct (Nat.eqb_spec tid p) as [->|_]; [contradiction|]. simpl. apply IH, Hq.
  - apply IH, Hq.
Qed.

Lemma waitForAudioEvent_verdict (s : Tester) (T : string) (d : Z) :
  wf s -> pendingPromises s !! T = None ->
  let r := waitForAudioEvent T d s in
  match verdict T (length (waits s)) (debug (options s)) (page s) false (script s) with
  | Delivered data => exists t, r.1 = Ok (mkEvent T data t)
  | TimedOut detail =>
      r.1 = Err (TimeoutError T d detail) /\ now s + timerDelay d <= now r.2
  | StillWaiting => r.1 = Suspended
  end.
Proof.
  intros Hwf Hq r.
  assert (Hr : r = await_settled (length (waits s)) (script s) (registerWaiter T d s).2)
    by reflexivity.
  destruct (registerWaiter_spec T d s) as (_ & Hnew & Hqueue & Hopt & Hpage & _ & _ & Hscr).
  rewrite Hq in Hqueue. simpl in Hqueue.
  pose proof (await_settled_spec (script s) (registerWaiter T d s).2 (length (waits s))
                _ [] false (registerWaiter_wf T d s Hwf) Hnew eq_refl eq_refl
                ltac:(discriminate) Hqueue) as [H _].
  cbv zeta in H. cbn [w_eventType w_timeout w_deadline] in H.
  rewrite Hopt, Hpage, <- Hr in H. exact H.
Qed.

(** X7.  The outcome of [waitForAudioEvent], on a tester where nobody waits
    for the type yet, as a function of what arrives while it waits.  As long
    as neither an event of its type nor its own timeout arrives, the wait stays
    pending.  The first event of its type fulfils it, with the type and the
    data of that event.  Without debug, its timeout rejects it with the timeout
    error (naming the type and the timeout asked for), and not before the
    delay of its timer has elapsed since the call: that is the timeout asked
    for when it lies between 1 and [2^31 - 1] ms, and 1 ms otherwise, so that
    a wait with a longer timeout may be rejected long before it. *)
Theorem wait_outcome (s : Tester) (T : string) (d : Z) (before after : list Incoming) :
  wf s -> pendingPromises s !! T = None ->
  let p := length (waits s) in
  Forall (fun i => ~ touches p T i) before ->
  let r := waitForAudioEvent T d s in
  (script s = before -> r.1 = Suspended)
  /\ (forall data, script s = before ++ Publish T data :: after ->
        exists t, r.1 = Ok (mkEvent T data t))
  /\ (debug (options s) = false -> script s = before ++ TimerFires p :: after ->
        r.1 = Err (TimeoutError T d NoDetail)
        /\ now s + timerDelay d <= now r.2
        /\ (d <= TIMEOUT_MAX -> now s + d <= now r.2)).
Proof.
  intros Hwf Hq p Hquiet r.
  pose proof (waitForAudioEvent_verdict s T d Hwf Hq) as H. cbv zeta in H.
  fold r p in H. split; [|split].
  - intros Hs. rewrite Hs in H.
    rewrite <- (app_nil_r before), (verdict_quiet T p _ _ before false [] Hquiet) in H.
    exact H.
  - intros data Hs. rewrite Hs in H.
    rewrite (verdict_quiet T p _ _ before false _ Hquiet) in H. simpl in H.
    rewrite String.eqb_refl in H. exact H.
  - intros Hdbg Hs. rewrite Hs, Hdbg in H.
    rewrite (verdict_quiet T p _ _ before false _ Hquiet) in H. simpl in H.
    rewrite Nat.eqb_refl in H. destruct H as [Herr Hlate].
    split; [exact Herr|]. split; [exact Hlate|].
    intros Hd. pose proof (timerDelay_ge d Hd). lia.
Qed.

(** X8.  With debug, the timeout of a wait does not reject at once.  With
    a page, the handler first collects diagnostics, and the promise is still
    pending while it does; it is rejected when the collection returns, with
    the timeout error carrying the snapshot, or the note that none could be
    collected.  Without a page it is rejected at once with that note.  The
    rejection never comes before the delay of the timer has elapsed since the
    call: the timeout asked for when it lies between 1 and [2^31 - 1] ms, and
    1 ms otherwise. *)
Theorem debug_timeout_carries_diagnostics (s : Tester) (T : string) (d : Z)
    (before during after : list Incoming) (diagnostics : option Diagnostics) :
  wf s -> pendingPromises s !! T = None -> debug (options s) = true ->
  let p := length (waits s) in
  Forall (fun i => ~ touches p T i) before ->
  Forall (fun i => ~ touches p T i) during ->
  let r := waitForAudioEvent T d s in
  (page s = true -> script s = before ++ TimerFires p :: during -> r.1 = Suspended)
  /\ (page s = true ->
      script s = before ++ TimerFires p :: during ++ DiagnosticsDone p diagnostics :: after ->
      r.1 = Err (TimeoutError T d (match diagnostics with
                                   | Some x => Snapshot x
                                   | None => CouldNotCollect
                                   end))
      /\ now s + timerDelay d <= now r.2
      /\ (d <= TIMEOUT_MAX -> now s + d <= now r.2))
  /\ (page s = false -> script s = before ++ TimerFires p :: after ->
      r.1 = Err (TimeoutError T d CouldNotCollect)
      /\ now s + timerDelay d <= now r.2
      /\ (d <= TIMEOUT_MAX -> now s + d <= now r.2)).
Proof.
  intros Hwf Hq Hdbg p Hquiet Hduring r.
  pose proof (waitForAudioEvent_verdict s T d Hwf Hq) as H. cbv zeta in H.
  fold r p in H. rewrite Hdbg in H. split; [|split].
  - intros Hpg Hs. rewrite Hs, Hpg in H.
    rewrite (verdict_quiet T p _ _ before false _ Hquiet) in H. simpl in H.
    rewrite Nat.eqb_refl in H. simpl in H.
    rewrite <- (app_nil_r during), (verdict_quiet T p _ _ during true [] Hduring) in H.
    exact H.
  - intros Hpg Hs. rewrite Hs, Hpg in H.
    rewrite (verdict_quiet T p _ _ before false _ Hquiet) in H. simpl in H.
    rewrite Nat.eqb_refl in H. simpl in H.
    rewrite (verdict_quiet T p _ _ during true _ Hduring) in H. simpl in H.
    rewrite Nat.eqb_refl in H. destruct H as [Herr Hlate].
    split; [exact Herr|]. split; [exact Hlate|].
    intros Hd. pose proof (timerDelay_ge d Hd). lia.
  - intros Hpg Hs. rewrite Hs, Hpg in H.
    rewrite (verdict_quiet T p _ _ before false _ Hquiet) in H. simpl in H.
    rewrite Nat.eqb_refl in H. destruct H as [Herr Hlate].
    split; [exact Herr|]. split; [exact Hlate|].
    intros Hd. pose proof (timerDelay_ge d Hd). lia.
Qed.

(** ** The properties at concrete testers *)

Lemma wf_launched_tester (o : Options) (d : Disk) (incoming : list Incoming) :
  wf (launched_tester o d incoming).
Proof.
  eapply wf_same; [| |apply (wf_construct o d 0 incoming)]; reflexivity.
Qed.

Lemma wf_three_waiters : wf three_waiters.
Proof.
  unfold three_waiters. do 3 apply registerWaiter_wf.
  apply (wf_launched_tester plain_options empty_disk []).
Qed.

Lemma publish_resolves_head_witness :
  let s' := publishEvent "audiostart" None three_waiters in
  (forall j, j <> 0%nat -> waits s' !! j = waits three_waiters !! j)
  /\ pendingPromises s' !! "audiostart" = Some [entry_of 2]
  /\ pendingPromises s' !! "audiostop" = Some [entry_of 1]
  /\ state_of 0 s' = Some (Fulfilled (mkEvent "audiostart" None 0)).
Proof.
  destruct (publish_resolves_head three_waiters "audiostart" None (entry_of 0) [entry_of 2]
              wf_three_waiters eq_refl) as (_ & Hothers & Hq & Hother_types & _).
  split; [exact Hothers|]. split; [exact Hq|].
  split; [rewrite Hother_types by discriminate; reflexivity|].
  vm_compute. reflexivity.
Defined.

Lemma events_resolve_waits_in_order_witness :
  let s := construct plain_options empty_disk 0 [] in
  let greeting := Some (mkEventData (Some "audio-1") "" "" 0 0 0) in
  let registered :=
    foldl (fun s d => (registerWaiter "audiostart" d s).2) s [1000; 2000; 3000] in
  let s' := deliver_all (Publish "audiostart" <$> [None; greeting]) registered in
  state_of 0 s' = Some (Fulfilled (mkEvent "audiostart" None 0))
  /\ state_of 1 s' = Some (Fulfilled (mkEvent "audiostart" greeting 0))
  /\ state_of 2 s' = Some Pending.
Proof.
  pose proof (events_resolve_waits_in_order (construct plain_options empty_disk 0 [])
                "audiostart" [1000; 2000; 3000]
                [None; Some (mkEventData (Some "audio-1") "" "" 0 0 0)]
                (wf_construct _ _ _ _) eq_refl) as H.
  split; [apply (H 0%nat); simpl; lia|].
  split; [apply (H 1%nat); simpl; lia | apply (H 2%nat); simpl; lia].
Defined.

Lemma wait_outcome_witness :
  let s := construct plain_options empty_disk 0
             [Tick 5; Publish "audiostop" None; Publish "audiostart" None; Tick 7] in
  exists t, (waitForAudioEvent "audiostart" 30000 s).1 = Ok (mkEvent "audiostart" None t).
Proof.
  destruct (wait_outcome
              (construct plain_options empty_disk 0
                 [Tick 5; Publish "audiostop" None; Publish "audiostart" None; Tick 7])
              "audiostart" 30000 [Tick 5; Publish "audiostop" None] [Tick 7]
              (wf_construct _ _ _ _) eq_refl) as (_ & H & _).
  - repeat constructor; simpl; [tauto | discriminate].
  - apply H. reflexivity.
Defined.

Lemma debug_timeout_carries_diagnostics_witness :
  let s := launched_tester debug_options empty_disk
             [Tick 30000; TimerFires 0; Publish "audiostop" None;
              DiagnosticsDone 0 (Some some_diagnostics); Tick 1] in
  (waitForAudioEvent "audiostart" 30000 s).1
  = Err (TimeoutError "audiostart" 30000 (Snapshot some_diagnostics))
  /\ 0 + 30000 <= now (waitForAudioEvent "audiostart" 30000 s).2.
Proof.
  destruct (debug_timeout_carries_diagnostics
              (launched_tester debug_options empty_disk
                 [Tick 30000; TimerFires 0; Publish "audiostop" None;
                  DiagnosticsDone 0 (Some some_diagnostics); Tick 1])
              "audiostart" 30000 [Tick 30000] [Publish "audiostop" None] [Tick 1]
              (Some some_diagnostics)
              (wf_launched_tester _ _ _) eq_refl eq_refl) as (_ & H & _).
  - repeat constructor; simpl; tauto.
  - repeat constructor; simpl; discriminate.
  - destruct H as (Herr & _ & Hlate); [reflexivity..|].
    split; [exact Herr|]. apply Hlate. unfold TIMEOUT_MAX. lia.
Defined.

(** A timeout above the maximum of the runtime is armed with a delay of 1 ms:
    the wait is rejected after 1 ms, with an error that names the timeout
    asked for. *)
Example oversized_timeout_fires_early :
  let s := construct plain_options empty_disk 0 [Tick 1; TimerFires 0] in
  let r := waitForAudioEvent "audiostart" 2147483648 s in
  r.1 = Err (TimeoutError "audiostart" 2147483648 NoDetail) /\ now r.2 = 1.
Proof. vm_compute. split; reflexivity. Qed.

Lemma settled_promise_is_final_witness :
  let s0 := construct plain_options empty_disk 0 [] in
  let s := deliver (TimerFires 0) (registerWaiter "audiostart" 1000 s0).2 in
  state_of 0 (foldl perform s [DoArrive (Publish "audiostart" None); DoClear;
                               DoArrive (TimerFires 0)])
  = Some (Rejected (TimeoutError "audiostart" 1000 NoDetail)).
Proof.
  apply (settled_promise_is_final
           [DoArrive (Publish "audiostart" None); DoClear; DoArrive (TimerFires 0)]
           (deliver (TimerFires 0)
              (registerWaiter "audiostart" 1000 (construct plain_options empty_disk 0 [])).2)
           0%nat (Rejected (TimeoutError "audiostart" 1000 NoDetail))).
  - vm_compute. reflexivity.
  - discriminate.
Defined.

Lemma nothing_fires_after_teardown_witness :
  let later := [TimerFires 0; Publish "audiostart" None; Tick 30000; TimerFires 1] in
  pendingPromises (deliver_all later (clearAudioEventQueue three_waiters)) = ∅
  /\ (forall p, state_of p (deliver_all later (clearAudioEventQueue three_waiters))
                = state_of p (clearAudioEventQueue three_waiters)).
Proof.
  destruct (nothing_fires_after_teardown QueueCleared three_waiters
              [TimerFires 0; Publish "audiostart" None; Tick 30000; TimerFires 1]
              wf_three_waiters) as (_ & H1 & H2 & _).
  split; [exact H1 | exact H2].
Defined.

Lemma diagnostic_interval_lifetime_witness :
  let s := (registerWaiter "audiostart" 30000
              (launched_tester debug_options empty_disk [])).2 in
  w_interval <$> waits s !! 0%nat = Some true
  /\ w_interval <$> waits (publishEvent "audiostart" None s) !! 0%nat = Some false
  /\ w_interval <$> waits (timerFires 0 s) !! 0%nat = Some false
  /\ exists w', waits (clearAudioEventQueue s) !! 0%nat = Some w'
                /\ w_interval w' = true /\ w_timer w' <> Armed /\ w_state w' <> Pending.
Proof.
  destruct (diagnostic_interval_lifetime
              (registerWaiter "audiostart" 30000
                 (launched_tester debug_options empty_disk [])).2
              0%nat (mkWait "audiostart" 30000 30000 Pending Armed true)
              (registerWaiter_wf _ _ _ (wf_launched_tester _ _ _)) eq_refl)
    as (H1 & H2 & H3).
  split; [reflexivity|].
  split; [apply (H1 [] None); reflexivity|].
  split; [apply H2; reflexivity|].
  apply (H3 QueueCleared).
Defined.

End BrokerProperties.

(* ===================================================================== *)
(** * Further properties of the steps and of the session *)
(* ===================================================================== *)

Module StepProperties.
Import VoiceAgentTester VoiceAgentTesterProofs.
Local Open Scope async_scope.

(** ** Stepping through host code *)

Lemma bind_Ok_inv {A B} (m : Async A) (k : A -> Async B) (s s' : Tester) (b : B) :
  bind m k s = (Ok b, s') -> exists a s1, m s = (Ok a, s1) /\ k a s1 = (Ok b, s').
Proof.
  unfold bind. destruct (m s) as [[a|e|] s1]; intros H; try discriminate H.
  exists a, s1. split; [reflexivity|exact H].
Qed.

Lemma call_Ok (c : ExternalCall) (s s' : Tester) (v : Value) :
  call c s = (Ok v, s') ->
  frame s s' /\ phases (trace s') = phases (trace s) ++ [Calls c].
Proof.
  intros H. pose proof (call_frame c s) as Hf. pose proof (call_phases c s) as Hp.
  rewrite H in Hf, Hp. split; assumption.
Qed.

Lemma emit_all_trace (outs : list Output) :
  forall s, trace (emit_all outs s) = trace s ++ outs.
Proof.
  induction outs as [|o outs IH]; intros s; simpl.
  - rewrite app_nil_r. reflexivity.
  - unfold emit_all in *. simpl. rewrite IH. simpl. rewrite <- app_assoc. reflexivity.
Qed.

(** ** Validation of a step *)

(** X9.  A click, wait, wait_for_element, type, fill or select step
    without a selector (absent or empty) is refused before anything is asked
    of the page: the handler throws "No selector specified for ... action",
    naming the action, the tester is left as it was, and [executeStep] prints
    the error once and rethrows it. *)
Theorem missing_selector_is_refused (step : Step) (stepIndex : nat)
    (appName scenarioName : string) (repetition : Z) (s : Tester) :
  action step ∈ selectorActions -> truthy (selector step) = false ->
  let e := Thrown ("No selector specified for " +:+ action step +:+ " action") in
  dispatch step s = (Err e, s)
  /\ (page s = true ->
      executeStep step stepIndex appName scenarioName repetition s
      = (Err e, emit (ErrorExecutingStep (S stepIndex) (action step) e) s)).
Proof.
  intros Ha Hsel e.
  assert (Hd : dispatch step s = (Err e, s) /\ shortMessage e = e).
  { subst e. unfold selectorActions in Ha.
    repeat (apply elem_of_cons in Ha as [Ha|Ha]);
      [ | | | | | | apply elem_of_nil in Ha; contradiction ];
      unfold dispatch; rewrite Ha; cbn [String.eqb Ascii.eqb Bool.eqb];
      unfold handleClick, handleWait, handleWaitForElement, handleType, handleFill,
        handleSelect; rewrite Hsel; split; reflexivity. }
  destruct Hd as [Hd Hshort]. split; [exact Hd|].
  intros Hpage. rewrite (executeStep_rethrows _ _ _ _ _ _ _ _ Hpage Hd), Hshort. reflexivity.
Qed.

(** X10.  A speak step needs exactly one of [text] and [file], and the file
    must be in the assets folder.  Otherwise the handler throws before it
    touches the page and before it waits for anything: the tester is left as
    it was. *)
Theorem speak_needs_one_source (step : Step) (s : Tester) :
  action step = "speak" ->
  (truthy (text step) = false -> truthy (file step) = false ->
   dispatch step s = (Err (Thrown "No text or file specified for speak action"), s))
  /\ (truthy (text step) = true -> truthy (file step) = true ->
      dispatch step s
      = (Err (Thrown "Cannot specify both text and file for speak action"), s))
  /\ (truthy (text step) = false -> truthy (file step) = true ->
      str (file step) ∉ assetFiles (disk s) ->
      dispatch step s = (Err (Thrown ("Audio file not found: " +:+ str (file step))), s)).
Proof.
  intros Ha.
  assert (Hd : dispatch step s = handleSpeak step s).
  { unfold dispatch. rewrite Ha. reflexivity. }
  rewrite Hd. unfold handleSpeak. split; [|split].
  - intros -> ->. reflexivity.
  - intros -> ->. reflexivity.
  - intros -> -> Hnot. cbn [negb andb].
    rewrite !bind_assoc, bind_read, bool_decide_eq_false_2 by exact Hnot.
    cbn [negb]. rewrite bind_throw. reflexivity.
Qed.

Lemma call_replied (c : ExternalCall) (s : Tester) (r : Error + Value)
    (rest : list Incoming) :
  script s = Reply r :: rest ->
  call c s = (outcome_of r, set_script rest (emit (Call c) s)).
Proof.
  intros Hs. unfold call. cbn [script emit]. rewrite Hs.
  destruct r; reflexivity.
Qed.

Lemma call_replied_next (c : ExternalCall) (s : Tester) (r : Error + Value)
    (rest : list Incoming) :
  call c (set_script (Reply r :: rest) s)
  = (outcome_of r, set_script rest (emit (Call c) s)).
Proof. destruct r; reflexivity. Qed.

(** X11.  An empty text is no text for a type step, but it is one for a fill
    step: with a selector, a type step whose text is empty is refused before
    the page is touched, as is a fill step without any text, while a fill step
    whose text is empty waits for the element and sets its value to the empty
    string. *)
Theorem empty_text_fills_but_does_not_type (step : Step) (s : Tester) (sel : string)
    (found filled : Value) (rest : list Incoming) :
  selector step = Some sel -> sel <> "" ->
  (action step = "type" -> text step = Some "" ->
   dispatch step s = (Err (Thrown "No text specified for type action"), s))
  /\ (action step = "fill" -> text step = None ->
      dispatch step s = (Err (Thrown "No text specified for fill action"), s))
  /\ (action step = "fill" -> text step = Some "" ->
      script s = Reply (inr found) :: Reply (inr filled) :: rest ->
      dispatch step s
      = (Ok HUndefined,
         set_script rest
           (emit (Call (EvalFill sel "")) (emit (Call (WaitForSelector sel)) s)))).
Proof.
  intros Hsel Hne.
  assert (Htruthy : truthy (selector step) = true).
  { rewrite Hsel. destruct sel; [contradiction|reflexivity]. }
  assert (Hstr : str (selector step) = sel) by (rewrite Hsel; reflexivity).
  split; [|split].
  - intros Ha Ht. unfold dispatch. rewrite Ha. cbn [String.eqb Ascii.eqb Bool.eqb].
    unfold handleType. rewrite Htruthy, Ht. reflexivity.
  - intros Ha Ht. unfold dispatch. rewrite Ha. cbn [String.eqb Ascii.eqb Bool.eqb].
    unfold handleFill. rewrite Htruthy, Ht. reflexivity.
  - intros Ha Ht Hs. unfold dispatch. rewrite Ha. cbn [String.eqb Ascii.eqb Bool.eqb].
    unfold handleFill. rewrite Htruthy, Ht, Hstr. cbn [negb].
    unfold bind at 1. rewrite (call_replied _ s _ _ Hs). cbn [outcome_of].
    unfold bind at 1. rewrite call_replied_next. reflexivity.
Qed.

(** X12.  A select step on a checkbox clicks it only to change it.  The
    handler reads the state of the checkbox; it clicks when that state differs
    from the requested one, and when no state is requested (the checkbox is
    toggled); it does not click a checkbox that already is in the requested
    state. *)
Theorem checkbox_is_clicked_only_to_change (step : Step) (s : Tester) (sel : string)
    (found clicked : Value) (multiple current : bool) (rest : list Incoming) :
  action step = "select" -> selector step = Some sel -> sel <> "" ->
  script s = Reply (inr found) :: Reply (inr (VElementInfo "INPUT" (Some "checkbox") multiple))
               :: Reply (inr (VBool current)) :: Reply (inr clicked) :: rest ->
  let r := dispatch step s in
  r.1 = Ok HUndefined
  /\ phases (trace r.2)
     = phases (trace s)
       ++ [Calls (WaitForSelector sel); Calls (EvalElementInfo sel); Calls (EvalChecked sel)]
       ++ (if bool_decide (checked step = Some current) then [] else [Calls (Click sel)]).
Proof.
  intros Ha Hsel Hne Hs r.
  assert (Htruthy : truthy (selector step) = true).
  { rewrite Hsel. destruct sel; [contradiction|reflexivity]. }
  assert (Hstr : str (selector step) = sel) by (rewrite Hsel; reflexivity).
  set (s3 := emit (Call (EvalChecked sel))
               (emit (Call (EvalElementInfo sel)) (emit (Call (WaitForSelector sel)) s))).
  assert (Hr : r = (Ok HUndefined,
                    if bool_decide (checked step = Some current)
                    then set_script (Reply (inr clicked) :: rest) s3
                    else set_script rest (emit (Call (Click sel)) s3))).
  { subst r. unfold dispatch. rewrite Ha. cbn [String.eqb Ascii.eqb Bool.eqb].
    unfold handleSelect. rewrite Htruthy, Hstr. cbn [negb].
    unfold bind at 1. rewrite (call_replied _ s _ _ Hs). cbn [outcome_of].
    unfold bind at 1. rewrite call_replied_next. cbn [outcome_of].
    cbn [String.eqb Ascii.eqb Bool.eqb].
    rewrite bool_decide_eq_true_2 by reflexivity.
    unfold handleSelectCheckbox.
    unfold bind at 1. unfold bind at 1. rewrite call_replied_next.
    cbn [outcome_of].
    destruct (checked step) as [target|] eqn:Hc; cbn [default from_option id].
    - destruct (Bool.eqb_spec current target) as [->|Hdiff].
      + rewrite bool_decide_eq_true_2 by reflexivity. reflexivity.
      + rewrite bool_decide_eq_false_2 by congruence. cbn [negb].
        unfold bind. rewrite call_replied_next. reflexivity.
    - rewrite bool_decide_eq_false_2 by discriminate.
      replace (Bool.eqb current (negb current)) with false by (destruct current; reflexivity).
      cbn [negb].
      unfold bind. rewrite call_replied_next. reflexivity. }
  rewrite Hr. cbn [fst snd]. split; [reflexivity|].
  subst s3. destruct (bool_decide (checked step = Some current));
    cbn [trace emit set_script]; rewrite !phases_app; rewrite <- !app_assoc; reflexivity.
Qed.

(** ** Metrics of a step *)

Lemma recordHandlerMetrics_spec (app scenario : string) (repetition : Z) (stepIndex : nat)
    (act : string) (requested : list string) (entries : list (string * Value)) :
  forall s,
    recordHandlerMetrics app scenario repetition stepIndex act requested entries s
    = (Ok tt,
       emit_all ((fun e => RecordStepMetric app scenario repetition stepIndex act e.1 e.2)
                   <$> filter (fun e => e.1 ∈ requested) entries) s).
Proof.
  induction entries as [|[metricName metricValue] entries IH]; intros s; [reflexivity|].
  cbn [recordHandlerMetrics]. rewrite filter_cons. cbn [fst].
  case_bool_decide as Hin.
  - rewrite decide_True by exact Hin. unfold when. rewrite bind_console, IH. reflexivity.
  - rewrite decide_False by exact Hin. unfold when. rewrite bind_ret, IH. reflexivity.
Qed.

(** X13.  What [executeStep] does once the handler of a step has returned:
    it prints the elapsed time and, when a report generator is present and
    the step lists metrics, hands over the elapsed time if "elapsed_time" is
    listed, and then those entries of the handler's result whose names are
    listed, in the order of the result.  An entry that is not listed is never
    recorded, nor is anything without a report generator or for a step
    without metrics; the result of the handler is not returned. *)
Theorem executeStep_records_requested_metrics (step : Step) (stepIndex : nat)
    (appName scenarioName : string) (repetition : Z) (s s1 : Tester)
    (handlerResult : HandlerResult) :
  page s = true -> dispatch step s = (Ok handlerResult, s1) ->
  executeStep step stepIndex appName scenarioName repetition s
  = (Ok tt,
     emit_all (LogElapsed (now s1 - now s)
               :: recorded_metrics step stepIndex appName scenarioName repetition
                    (reportGenerator (options s1)) (now s1 - now s) handlerResult) s1).
Proof.
  intros Hpage Hd. unfold executeStep.
  rewrite bind_read, Hpage. cbn [negb]. rewrite bind_read.
  unfold try_catch. unfold bind at 1. rewrite Hd.
  rewrite bind_read, bind_console, bind_read. cbn [options emit].
  unfold recorded_metrics.
  destruct (metrics step) as [requested|]; [|reflexivity].
  destruct (reportGenerator (options s1)); [|reflexivity].
  unfold when. case_bool_decide as Hin.
  - rewrite bind_console.
    destruct handlerResult as [|str|entries]; try reflexivity.
    rewrite recordHandlerMetrics_spec. reflexivity.
  - rewrite bind_ret.
    destruct handlerResult as [|str|entries]; try reflexivity.
    rewrite recordHandlerMetrics_spec. reflexivity.
Qed.

(** ** The life cycle of a session *)

Lemma frame_fields (s s' : Tester) :
  frame s s' ->
  options s' = options s /\ page s' = page s /\ browser s' = browser s
  /\ recordingStream s' = recordingStream s.
Proof. intros (Ho & Hp & Hb & _ & Hr & _). repeat split; assumption. Qed.

(** The value that a call returns is the first reply of the script. *)
Lemma call_value (c : ExternalCall) (s s' : Tester) (v : Value)
    (meanwhile rest : list Incoming) (reply : Error + Value) :
  call c s = (Ok v, s') ->
  script s = meanwhile ++ Reply reply :: rest ->
  forallb (fun i => negb (is_reply i)) meanwhile = true ->
  reply = inr v.
Proof.
  intros H Hs Hquiet. unfold call in H. cbn [script emit] in H.
  rewrite Hs, (await_reply_spec meanwhile reply rest _ Hquiet) in H.
  destruct reply as [e|v']; cbn [outcome_of] in H; [discriminate H|].
  injection H as -> _. reflexivity.
Qed.

(** X14.  [launch] opens one session.  On a tester without a browser, a
    launch that returns has asked for the installed browsers, launched the
    browser (through the streaming launcher exactly when recording is on, and
    then with the executable of the installed Chrome that
    [chromeExecutablePath] selects), read its version, overridden the media
    permissions exactly when the URL starts with http:// or https://, opened a
    page and exposed [__publishEvent], in this order; the tester then has a
    browser and a page, and a further [launch], with whatever URL, does
    nothing. *)
Theorem launch_opens_one_session (url url' : string) (s s' : Tester) :
  browser s = false -> launch url s = (Ok tt, s') ->
  browser s' = true /\ page s' = true
  /\ (exists path,
        phases (trace s') = phases (trace s) ++ launchPlan (record (options s)) path url
        /\ forall meanwhile browsers rest,
             record (options s) = true ->
             script s = meanwhile ++ Reply (inr (VBrowsers browsers)) :: rest ->
             forallb (fun i => negb (is_reply i)) meanwhile = true ->
             chromeExecutablePath browsers = Some path)
  /\ launch url' s' = (Ok tt, s').
Proof.
  intros Hb H. unfold launch in H. rewrite bind_read, Hb in H.
  apply bind_Ok_inv in H as (v1 & s1 & H1 & H).
  pose proof H1 as Hreply.
  apply call_Ok in H1 as [F1 P1]. apply frame_fields in F1 as (O1 & _ & _ & _).
  destruct (installedBrowsers v1) as [typeError|installed] eqn:Hinstalled;
    [discriminate H|].
  rewrite bind_console, bind_read in H. cbn [options emit] in H.
  apply bind_Ok_inv in H as (v2 & s2 & H2 & H).
  set (path := default "" (chromeExecutablePath installed)).
  assert (H2' : call (if record (options s) then LaunchWithStream path else PuppeteerLaunch)
                  (emit (LogLine "Installed browsers") s1) = (Ok v2, s2)
                /\ (record (options s) = true -> chromeExecutablePath installed = Some path)).
  { rewrite <- O1. unfold path. destruct (record (options s1)); [|split; [exact H2|discriminate]].
    destruct (chromeExecutablePath installed) as [chrome|]; [|discriminate H2].
    split; [exact H2 | reflexivity]. }
  clear H2. destruct H2' as [H2' Hchrome].
  apply call_Ok in H2' as [F2 P2]. rewrite phases_emit in P2. cbn [phase_of] in P2.
  rewrite bind_modify in H.
  apply bind_Ok_inv in H as (v3 & s3 & H3 & H).
  apply call_Ok in H3 as [F3 P3]. apply frame_fields in F3 as (_ & _ & B3 & _).
  cbn [trace set_browser browser] in P3, B3.
  rewrite bind_console in H.
  apply bind_Ok_inv in H as ([] & s4 & H4 & H).
  assert (H4' : browser s4 = true
                /\ phases (trace s4)
                   = phases (trace s3)
                     ++ (if String.prefix "http://" url || String.prefix "https://" url
                         then [Calls ClearPermissionOverrides; Calls (OverridePermissions url)]
                         else [])).
  { unfold when in H4.
    destruct (String.prefix "http://" url || String.prefix "https://" url).
    - apply bind_Ok_inv in H4 as (w1 & t1 & G1 & H4).
      apply bind_Ok_inv in H4 as (w2 & t2 & G2 & H4).
      injection H4 as <-.
      apply call_Ok in G1 as [FG1 PG1]. apply call_Ok in G2 as [FG2 PG2].
      apply frame_fields in FG1 as (_ & _ & BG1 & _).
      apply frame_fields in FG2 as (_ & _ & BG2 & _).
      rewrite phases_emit in PG1. cbn [phase_of browser emit] in PG1, BG1.
      split; [congruence|]. rewrite PG2, PG1, app_nil_r, <- app_assoc. reflexivity.
    - injection H4 as <-. rewrite phases_emit. cbn [phase_of browser emit].
      split; [exact B3 | reflexivity]. }
  clear H4. destruct H4' as [B4 P4].
  apply bind_Ok_inv in H as (v5 & s5 & H5 & H).
  apply call_Ok in H5 as [F5 P5]. apply frame_fields in F5 as (_ & _ & B5 & _).
  rewrite bind_modify in H.
  apply bind_Ok_inv in H as (v6 & s6 & H6 & H).
  apply call_Ok in H6 as [F6 P6]. apply frame_fields in F6 as (_ & G6 & B6 & _).
  cbn [trace set_page browser page] in P6, G6, B6.
  injection H as <-.
  split; [congruence|]. split; [exact G6|]. split.
  - exists path. split.
    + rewrite P6, P5, P4, P3, P2, P1. unfold launchPlan.
      rewrite app_nil_r, <- !app_assoc. reflexivity.
    + intros meanwhile browsers rest Hrec Hs Hquiet.
      pose proof (call_value _ _ _ _ _ _ _ Hreply Hs Hquiet) as Hv.
      injection Hv as <-. cbn [installedBrowsers] in Hinstalled.
      injection Hinstalled as <-. apply Hchrome, Hrec.
  - unfold launch. rewrite bind_read.
    replace (browser s6) with true by congruence. reflexivity.
Qed.

Lemma rejectWaiters_frame (err : Error) (q : list Waiter) :
  forall s, frame s (foldl (rejectWaiter err) s q).
Proof.
  induction q as [|e q IH]; intros s; [apply frame_refl|].
  simpl. eapply frame_trans; [|apply IH].
  unfold rejectWaiter, call_reject, clearTimeout.
  eapply frame_trans; apply frame_update_wait.
Qed.

Lemma rejectAllPending_frame (mkErr : string -> Error) (s : Tester) :
  frame s (rejectAllPending mkErr s).
Proof.
  unfold rejectAllPending. eapply frame_trans; [|apply frame_set_pendingPromises].
  generalize (map_to_list (pendingPromises s)) as l. intros l. revert s.
  induction l as [|[T q] l IH]; intros s; [apply frame_refl|].
  simpl. eapply frame_trans; [|apply IH]. apply rejectWaiters_frame.
Qed.

(** X15.  [close] releases a session in a fixed order.  A close that
    returns on a tester with a browser has first stopped the recording, if one
    was running, then closed the browser, and last closed the websocket server
    of the recorder, if recording is on; whether that server could be closed
    makes no difference.  Afterwards the tester has no browser, no page and no
    recording. *)
Theorem close_releases_in_order (s s' : Tester) :
  browser s = true -> close s = (Ok tt, s') ->
  browser s' = false /\ page s' = false /\ recordingStream s' = false
  /\ phases (trace s')
     = phases (trace s)
       ++ (if recordingStream s then [Calls CloseRecordingFile] else [])
       ++ [Calls BrowserClose]
       ++ (if record (options s) then [Calls WssClose] else []).
Proof.
  intros Hb H. unfold close in H. rewrite bind_read, Hb, bind_read in H.
  apply bind_Ok_inv in H as ([] & s1 & H1 & H).
  assert (H1' : recordingStream s1 = false /\ options s1 = options s
                /\ phases (trace s1)
                   = phases (trace s)
                     ++ (if recordingStream s then [Calls CloseRecordingFile] else [])).
  { unfold when in H1. destruct (recordingStream s) eqn:Hrec.
    - unfold stopRecording in H1. rewrite bind_read, Hrec in H1. cbn [negb] in H1.
      apply bind_Ok_inv in H1 as (v & t1 & G1 & H1).
      rewrite bind_console in H1. injection H1 as <-.
      apply call_Ok in G1 as [FG1 PG1]. apply frame_fields in FG1 as (OG1 & _).
      split; [reflexivity|]. split; [exact OG1|].
      cbn [trace set_recordingStream]. rewrite phases_emit. cbn [phase_of].
      rewrite app_nil_r. exact PG1.
    - injection H1 as <-. rewrite app_nil_r. repeat split; assumption. }
  clear H1. destruct H1' as (R1 & O1 & P1).
  rewrite bind_modify in H.
  apply bind_Ok_inv in H as (v2 & s2 & H2 & H).
  apply call_Ok in H2 as [F2 P2]. apply frame_fields in F2 as (O2 & _ & _ & R2).
  rewrite rejectAllPending_trace in P2.
  destruct (frame_fields _ _ (rejectAllPending_frame BrowserClosed s1)) as (RO & _ & _ & RR).
  rewrite RO in O2. rewrite RR in R2.
  rewrite bind_modify, bind_read in H. cbn [options set_page set_browser] in H.
  unfold when in H. rewrite O2, O1 in H.
  assert (Hfinal : recordingStream s' = false /\ browser s' = false /\ page s' = false
                   /\ phases (trace s')
                      = phases (trace s2)
                        ++ (if record (options s) then [Calls WssClose] else [])).
  { destruct (record (options s)).
    - unfold try_catch in H.
      pose proof (call_frame WssClose (set_page false (set_browser false s2))) as Fw.
      pose proof (call_phases WssClose (set_page false (set_browser false s2))) as Pw.
      apply frame_fields in Fw as (_ & Gw & Bw & Rw).
      unfold bind in H.
      destruct (call WssClose (set_page false (set_browser false s2))) as [[vw|ew|] sw];
        try discriminate H; injection H as <-;
        cbn [snd page browser recordingStream set_page set_browser trace] in *;
        (split; [congruence|]); (split; [exact Bw|]); (split; [exact Gw|exact Pw]).
    - injection H as <-. rewrite app_nil_r.
      cbn [page browser recordingStream set_page set_browser trace].
      split; [congruence|]. repeat split. }
  destruct Hfinal as (Rf & Bf & Gf & Pf).
  split; [exact Bf|]. split; [exact Gf|]. split; [exact Rf|].
  rewrite Pf, P2, P1, <- !app_assoc. reflexivity.
Qed.

(** ** Best-effort helpers *)

Lemma injectFiles_cons (jsFile : string) (rest : list string) (s : Tester) :
  injectFiles (jsFile :: rest) s
  = match call (EvaluateOnNewDocument jsFile) s with
    | (Ok _, s1) =>
        injectFiles rest
          (if verbose (options s1)
           then emit (LogLine ("Configured injection on navigation: " +:+ jsFile)) s1
           else s1)
    | (Err e, s1) =>
        injectFiles rest (emit (ErrorLine ("Error configuring injection for " +:+ jsFile) e) s1)
    | (Suspended, s1) => (Suspended, s1)
    end.
Proof.
  cbn [injectFiles]. unfold bind at 1. unfold try_catch. unfold bind at 1.
  destruct (call (EvaluateOnNewDocument jsFile) s) as [[v|err|] s1]; try reflexivity.
  rewrite bind_read. unfold when. destruct (verbose (options s1)); reflexivity.
Qed.

Lemma injectFiles_spec (jsFiles : list string) :
  forall s,
    (forall e, (injectFiles jsFiles s).1 <> Err e)
    /\ ((injectFiles jsFiles s).1 = Ok tt ->
        phases (trace (injectFiles jsFiles s).2)
        = phases (trace s) ++ ((fun f => Calls (EvaluateOnNewDocument f)) <$> jsFiles)).
Proof.
  induction jsFiles as [|jsFile rest IH]; intros s.
  - split; [intros e; discriminate|]. intros _. simpl. rewrite app_nil_r. reflexivity.
  - rewrite injectFiles_cons.
    pose proof (call_phases (EvaluateOnNewDocument jsFile) s) as Hp.
    destruct (call (EvaluateOnNewDocument jsFile) s) as [[v|err|] s1]; cbn [snd] in Hp.
    + set (s2 := if verbose (options s1) then _ else s1).
      assert (Hs2 : phases (trace s2) = phases (trace s1)).
      { subst s2. destruct (verbose (options s1)); [|reflexivity].
        rewrite phases_emit. cbn [phase_of]. apply app_nil_r. }
      destruct (IH s2) as [Hnever Hcalls]. split; [exact Hnever|].
      intros Hok. rewrite (Hcalls Hok), Hs2, Hp. cbn [fmap list_fmap].
      rewrite <- app_assoc. reflexivity.
    + destruct (IH (emit (ErrorLine ("Error configuring injection for " +:+ jsFile) err) s1))
        as [Hnever Hcalls].
      split; [exact Hnever|].
      intros Hok. rewrite (Hcalls Hok), phases_emit. cbn [phase_of].
      rewrite app_nil_r, Hp. cbn [fmap list_fmap]. rewrite <- app_assoc. reflexivity.
    + split; [intros e; discriminate | intros Hok; discriminate Hok].
Qed.

(** X16.  The helpers that are run for their effect only never fail.
    [injectJavaScriptFiles] attempts every file of the folder, in order: a
    file that cannot be configured is reported and skipped, and the loop over
    the files never throws.  Likewise [startAudioFromUrl] and
    [stopAudioFromUrl] never throw, whatever the page answers. *)
Theorem best_effort_helpers_never_throw (jsFiles : list string) (url : string)
    (s : Tester) (e : Error) :
  (injectFiles jsFiles s).1 <> Err e
  /\ ((injectFiles jsFiles s).1 = Ok tt ->
      phases (trace (injectFiles jsFiles s).2)
      = phases (trace s) ++ ((fun f => Calls (EvaluateOnNewDocument f)) <$> jsFiles))
  /\ (startAudioFromUrl url s).1 <> Err e
  /\ (stopAudioFromUrl s).1 <> Err e.
Proof.
  destruct (injectFiles_spec jsFiles s) as [Hnever Hcalls].
  split; [apply Hnever|]. split; [exact Hcalls|]. split.
  - unfold startAudioFromUrl. rewrite bind_console. unfold try_catch, bind.
    destruct (call (EvalStartAudioFromUrl url) _) as [[v|err|] s1]; discriminate.
  - unfold stopAudioFromUrl, try_catch, bind.
    destruct (call EvalStopAudioFromUrl s) as [[v|err|] s1]; discriminate.
Qed.

(** ** A run that completes *)

(** X17.  A run whose setup, application steps, scenario steps and final
    pause all succeed.  The scenario steps run after the application steps and
    are numbered on from them; no error is printed by [runScenario]; the
    [finally] block then reports the run as successful to the report generator
    and closes the session, and the run returns normally unless the [finally]
    block itself fails. *)
Theorem completed_run_is_reported (url : string) (appSteps scenarioSteps : list Step)
    (appName scenarioName : string) (repetition : Z) (s s0 sa s1 s2 : Tester) :
  scenarioSetup url appName scenarioName repetition s = (Ok tt, s0) ->
  executeSteps appSteps 0 appName scenarioName repetition s0 = (Ok tt, sa) ->
  executeSteps scenarioSteps (length appSteps) appName scenarioName repetition sa
  = (Ok tt, s1) ->
  sleep 500 s1 = (Ok tt, s2) ->
  let r := runScenario url appSteps scenarioSteps appName scenarioName repetition s in
  r = match scenarioFinally appName scenarioName repetition true s2 with
      | (Ok _, s3) => (Ok tt, s3)
      | (Err e, s3) => (Err e, s3)
      | (Suspended, s3) => (Suspended, s3)
      end
  /\ (reportGenerator (options s2) = true -> r.1 <> Suspended ->
      EndRun appName scenarioName repetition true ∈ trace r.2).
Proof.
  intros Hsetup Happ Hscen Hsleep r.
  assert (Hr : r = match scenarioFinally appName scenarioName repetition true s2 with
                   | (Ok _, s3) => (Ok tt, s3)
                   | (Err e, s3) => (Err e, s3)
                   | (Suspended, s3) => (Suspended, s3)
                   end).
  { subst r. unfold runScenario, try_finally, try_catch.
    unfold bind at 1. rewrite Hsetup.
    unfold bind at 1. rewrite executeSteps_app, Happ. cbn [Nat.add]. rewrite Hscen, Hsleep.
    cbn [succeeded]. reflexivity. }
  split; [exact Hr|].
  intros Hrep Hns.
  pose proof (scenarioFinally_records appName scenarioName repetition true s2 Hrep) as Hend.
  cbv zeta in Hend. rewrite Hr in Hns |- *.
  destruct (scenarioFinally appName scenarioName repetition true s2) as [[[]|e|] s3];
    cbn [fst snd] in *; try (apply Hend; discriminate). contradiction.
Qed.

(** ** Further edge cases of the steps *)

(** X18.  A sleep step needs a time that is not zero.  Without a time, and
    with the time 0, the handler throws "No time specified for sleep action"
    and nothing is scheduled; with any other time it waits for a timer of
    that many milliseconds and for nothing else. *)
Theorem sleep_needs_a_nonzero_time (step : Step) (s : Tester) (done : Value)
    (rest : list Incoming) :
  action step = "sleep" ->
  (time step = None \/ time step = Some 0 ->
   dispatch step s = (Err (Thrown "No time specified for sleep action"), s))
  /\ (forall t, time step = Some t -> t <> 0 -> script s = Reply (inr done) :: rest ->
        dispatch step s = (Ok HUndefined, set_script rest (emit (Call (SetTimeout t)) s))).
Proof.
  intros Ha.
  assert (Hd : dispatch step s = handleSleep step s).
  { unfold dispatch. rewrite Ha. reflexivity. }
  rewrite Hd. unfold handleSleep. split.
  - intros [-> | ->]; reflexivity.
  - intros t -> Hne Hs. cbn [truthy_number default from_option id].
    rewrite (proj2 (Z.eqb_neq t 0) Hne). cbn [negb].
    unfold sleep. rewrite bind_assoc. unfold bind at 1.
    rewrite (call_replied _ s _ _ Hs). reflexivity.
Qed.

(** X19.  A run whose setup fails (the browser cannot be launched, the
    page cannot be loaded, ...) executes no step at all: [runScenario] prints
    the short summary of the error, the first line of its message without the
    lines that follow, runs the [finally] block with [success = false], which
    reports the failed run and closes whatever session exists, and rethrows
    the error itself. *)
Theorem setup_failure_runs_no_step (url : string) (appSteps scenarioSteps : list Step)
    (appName scenarioName : string) (repetition : Z) (s s0 : Tester) (e : Error) :
  scenarioSetup url appName scenarioName repetition s = (Err e, s0) ->
  let r := runScenario url appSteps scenarioSteps appName scenarioName repetition s in
  r = match scenarioFinally appName scenarioName repetition false
              (emit (ErrorDuringScenario (shortMessage e)) s0) with
      | (Ok _, s1) => (Err e, s1)
      | (Err e', s1) => (Err e', s1)
      | (Suspended, s1) => (Suspended, s1)
      end
  /\ r.1 <> Ok tt
  /\ (reportGenerator (options s0) = true -> r.1 <> Suspended ->
      EndRun appName scenarioName repetition false ∈ trace r.2)
  /\ summary_of e (shortMessage e)
  /\ ErrorDuringScenario (shortMessage e) ∈ trace r.2.
Proof.
  intros Hsetup r.
  assert (Hr : r = match scenarioFinally appName scenarioName repetition false
                           (emit (ErrorDuringScenario (shortMessage e)) s0) with
                   | (Ok _, s1) => (Err e, s1)
                   | (Err e', s1) => (Err e', s1)
                   | (Suspended, s1) => (Suspended, s1)
                   end).
  { subst r. unfold runScenario, try_finally, try_catch.
    unfold bind at 1. rewrite Hsetup. cbv iota beta. rewrite bind_console.
    unfold throw. cbn [succeeded]. reflexivity. }
  split; [exact Hr|].
  pose proof (scenarioFinally_records appName scenarioName repetition false
                (emit (ErrorDuringScenario (shortMessage e)) s0)) as Hend.
  pose proof (scenarioFinally_trace appName scenarioName repetition false
                (emit (ErrorDuringScenario (shortMessage e)) s0)) as [k Hk].
  assert (Hprinted : ErrorDuringScenario (shortMessage e)
                       ∈ trace (emit (ErrorDuringScenario (shortMessage e)) s0) ++ k).
  { cbn [trace emit]. apply elem_of_app. left. apply elem_of_app. right. left. }
  rewrite <- Hk in Hprinted.
  cbv zeta in Hend. rewrite Hr.
  destruct (scenarioFinally appName scenarioName repetition false
              (emit (ErrorDuringScenario (shortMessage e)) s0)) as [[[]|e'|] s1];
    cbn [fst snd] in *; (split; [discriminate|]);
    (split; [|split; [apply shortMessage_summary | exact Hprinted]]).
  - intros Hrep _. apply Hend; [exact Hrep|discriminate].
  - intros Hrep _. apply Hend; [exact Hrep|discriminate].
  - intros _ Hns. contradiction.
Qed.

(** ** The browser that records, and the name of a recording *)

Example pathJoin_values :
  pathJoin ["/repo/src"; ".."; "output"] = "/repo/output"
  /\ pathJoin ["shots/"; "/page.png"] = "shots/page.png"
  /\ pathJoin ["shots"; "../../page.png"] = "../page.png"
  /\ pathJoin ["/"; "../page.png"] = "/page.png"
  /\ pathJoin ["."; "page.png"] = "page.png"
  /\ pathJoin ["shots"; "."; "day/"] = "shots/day/"
  /\ pathJoin [""; ""] = "."
  /\ pathJoin ["./"; ".."] = "..".
Proof. vm_compute. repeat split. Qed.

Lemma buildId_lt_irrefl (b : InstalledBrowser) : buildId_lt b b = false.
Proof.
  unfold buildId_lt. destruct (String_as_OT.compare (buildId b) (buildId b)) eqn:H;
    try reflexivity.
  exfalso. apply (StrictOrder_Irreflexive (R := String_as_OT.lt) (buildId b)). exact H.
Qed.

Lemma buildId_lt_trans (a b c : InstalledBrowser) :
  buildId_lt a b = true -> buildId_lt b c = true -> buildId_lt a c = true.
Proof.
  unfold buildId_lt. intros Hab Hbc.
  assert (H1 : String_as_OT.lt (buildId a) (buildId b)).
  { unfold String_as_OT.lt. destruct (String_as_OT.compare (buildId a) (buildId b));
      [discriminate|reflexivity|discriminate]. }
  assert (H2 : String_as_OT.lt (buildId b) (buildId c)).
  { unfold String_as_OT.lt. destruct (String_as_OT.compare (buildId b) (buildId c));
      [discriminate|reflexivity|discriminate]. }
  pose proof (StrictOrder_Transitive (R := String_as_OT.lt) _ _ _ H1 H2) as H3.
  unfold String_as_OT.lt in H3. rewrite H3. reflexivity.
Qed.

Lemma head_insertDescending (b : InstalledBrowser) (sorted : list InstalledBrowser) :
  head (insertDescending b sorted)
  = Some (match head sorted with
          | Some x => if buildId_lt x b then b else x
          | None => b
          end).
Proof.
  destruct sorted as [|x rest]; [reflexivity|]. cbn [insertDescending head].
  destruct (buildId_lt x b); reflexivity.
Qed.

Lemma head_sortDescending (l : list InstalledBrowser) :
  match head (sortDescending l) with
  | None => l = []
  | Some h => h ∈ l /\ forall x, x ∈ l -> buildId_lt h x = false
  end.
Proof.
  induction l as [|b l IH] using rev_ind; [reflexivity|].
  unfold sortDescending in *. rewrite foldl_snoc, head_insertDescending.
  destruct (head (foldl (fun sorted b => insertDescending b sorted) [] l)) as [h|].
  - destruct IH as [Hin Hmax]. destruct (buildId_lt h b) eqn:Hhb.
    + split; [apply elem_of_app; right; apply list_elem_of_singleton; reflexivity|].
      intros x Hx. apply elem_of_app in Hx as [Hx|Hx].
      * destruct (buildId_lt b x) eqn:Hbx; [|reflexivity].
        pose proof (Hmax x Hx) as Hhx.
        rewrite (buildId_lt_trans h b x Hhb Hbx) in Hhx. discriminate Hhx.
      * apply list_elem_of_singleton in Hx. subst x. apply buildId_lt_irrefl.
    + split; [apply elem_of_app; left; exact Hin|].
      intros x Hx. apply elem_of_app in Hx as [Hx|Hx]; [apply Hmax, Hx|].
      apply list_elem_of_singleton in Hx. subst x. exact Hhb.
  - subst l. split; [apply list_elem_of_singleton; reflexivity|].
    intros x Hx. apply list_elem_of_singleton in Hx. subst x. apply buildId_lt_irrefl.
Qed.

(** X20.  The browser that [launch] uses for recording.  Among the
    installed browsers it takes a Chrome whose build id is the greatest,
    where build ids are compared as strings, code unit by code unit (so that
    "99.0" is greater than "120.0").  When no Chrome is installed the
    expression fails: a [launch] with recording on throws a TypeError once
    the installed browsers are known, before any launcher is called, and the
    tester has no browser. *)
Theorem chrome_with_greatest_build_id_is_chosen (browsers : list InstalledBrowser) :
  match chromeExecutablePath browsers with
  | None =>
      (forall b, b ∈ browsers -> ib_browser b <> "chrome")
      /\ forall (url : string) (s : Tester) (meanwhile rest : list Incoming),
           browser s = false -> record (options s) = true ->
           script s = meanwhile ++ Reply (inr (VBrowsers browsers)) :: rest ->
           forallb (fun i => negb (is_reply i)) meanwhile = true ->
           (launch url s).1
           = Err (Thrown "Cannot read properties of undefined (reading 'executablePath')")
           /\ phases (trace (launch url s).2) = phases (trace s) ++ [Calls GetInstalledBrowsers]
           /\ browser (launch url s).2 = false
  | Some path =>
      exists b, b ∈ browsers /\ ib_browser b = "chrome" /\ executablePath b = path
                /\ forall b', b' ∈ browsers -> ib_browser b' = "chrome" ->
                     buildId_lt b b' = false
  end.
Proof.
  destruct (chromeExecutablePath browsers) as [path|] eqn:Hpath.
  - unfold chromeExecutablePath in Hpath.
    pose proof (head_sortDescending (filter (fun b => ib_browser b = "chrome") browsers)) as H.
    destruct (head (sortDescending _)) as [h|]; cbn [fmap option_fmap option_map] in Hpath;
      [|discriminate Hpath].
    injection Hpath as <-.
    destruct H as [Hin Hmax]. apply list_elem_of_filter in Hin as [Hchrome Hin].
    exists h. split; [exact Hin|]. split; [exact Hchrome|]. split; [reflexivity|].
    intros b' Hb' Hc'. apply Hmax. apply list_elem_of_filter. split; assumption.
  - split.
    + unfold chromeExecutablePath in Hpath.
      pose proof (head_sortDescending (filter (fun b => ib_browser b = "chrome") browsers))
        as H.
      destruct (head (sortDescending _)) as [h|]; cbn [fmap option_fmap option_map] in Hpath;
        [discriminate Hpath|].
      intros b Hb Hc.
      assert (Hin : b ∈ filter (fun b => ib_browser b = "chrome") browsers).
      { apply list_elem_of_filter. split; assumption. }
      rewrite H in Hin. apply elem_of_nil in Hin. exact Hin.
    + intros url s meanwhile rest Hb Hrec Hs Hquiet.
      pose proof (call_replied_after GetInstalledBrowsers s _ _ _ Hs Hquiet) as Hcall.
      pose proof (call_frame GetInstalledBrowsers s) as Hframe.
      pose proof (call_phases GetInstalledBrowsers s) as Hphases.
      set (s1 := set_script rest _) in Hcall.
      rewrite Hcall in Hframe, Hphases. cbn [fst snd outcome_of] in *.
      apply frame_fields in Hframe as (Ho & _ & Hbr & _).
      assert (Hrec1 : record (options (emit (LogLine "Installed browsers") s1)) = true).
      { cbn [options emit]. rewrite Ho. exact Hrec. }
      assert (Hlaunch : launch url s
                = (Err (Thrown "Cannot read properties of undefined (reading 'executablePath')"),
                   emit (LogLine "Installed browsers") s1)).
      { unfold launch. rewrite bind_read, Hb. unfold bind at 1. rewrite Hcall.
        cbn [outcome_of installedBrowsers]. rewrite bind_console, bind_read.
        rewrite Hrec1, Hpath, bind_throw. reflexivity. }
      rewrite Hlaunch. cbn [fst snd]. split; [reflexivity|]. split.
      * rewrite phases_emit. cbn [phase_of]. rewrite app_nil_r. exact Hphases.
      * cbn [browser emit]. rewrite Hbr. exact Hb.
Qed.

(** Without a Chrome among the installed browsers, a recorded session cannot
    be launched. *)
Example launch_without_chrome :
  let s := construct (mkOptions false true false true false None) empty_disk 0
             (Reply (inr (VBrowsers [mkInstalledBrowser "firefox" "stable_121.0"
                                       "/cache/firefox/firefox"])) :: replies 6) in
  launch "https://agent.example/" s
  = (Err (Thrown "Cannot read properties of undefined (reading 'executablePath')"),
     set_script (replies 6)
       (emit (LogLine "Installed browsers") (emit (Call GetInstalledBrowsers) s))).
Proof. vm_compute. reflexivity. Qed.

Example lexicographic_build_ids :
  chromeExecutablePath
    [mkInstalledBrowser "chrome" "120.0.6099.109" "/cache/chrome/120/chrome";
     mkInstalledBrowser "firefox" "stable_133.0" "/cache/firefox/firefox";
     mkInstalledBrowser "chrome" "99.0.4844.51" "/cache/chrome/99/chrome"]
  = Some "/cache/chrome/99/chrome".
Proof. vm_compute. reflexivity. Qed.

Lemma sanitize_chars (name : string) :
  all_chars (fun c => is_alphanumeric c || Ascii.eqb c "_") (sanitize name) = true.
Proof.
  induction name as [|c name IH]; [reflexivity|]. cbn [sanitize all_chars].
  rewrite IH, andb_true_r. destruct (is_alphanumeric c) eqn:Hc; [rewrite Hc|]; reflexivity.
Qed.

Lemma sanitize_without (c : ascii) (name : string) :
  is_alphanumeric c || Ascii.eqb c "_" = false ->
  ProviderImport.has_char c (sanitize name) = false.
Proof.
  intros Hc. apply orb_false_iff in Hc as [Hc1 Hc2].
  induction name as [|a name IH]; [reflexivity|].
  cbn [sanitize ProviderImport.has_char]. rewrite IH, orb_false_r.
  destruct (is_alphanumeric a) eqn:Ha; [|exact Hc2].
  apply Ascii.eqb_neq. intros ->. congruence.
Qed.

Lemma sanitize_length (name : string) : String.length (sanitize name) = String.length name.
Proof.
  induction name as [|a name IH]; [reflexivity|]. cbn [sanitize String.length].
  rewrite IH. reflexivity.
Qed.

Lemma sanitize_idempotent (name : string) : sanitize (sanitize name) = sanitize name.
Proof.
  induction name as [|a name IH]; [reflexivity|]. cbn [sanitize]. rewrite IH.
  destruct (is_alphanumeric a) eqn:Ha; [rewrite Ha|]; reflexivity.
Qed.

Lemma sanitize_alphanumeric (name : string) :
  all_chars is_alphanumeric name = true -> sanitize name = name.
Proof.
  induction name as [|a name IH]; [reflexivity|]. cbn [all_chars sanitize].
  intros H. apply andb_true_iff in H as [Ha Hrest]. rewrite Ha, (IH Hrest). reflexivity.
Qed.

(** X21.  The names in the file name of a recording.  The application and
    scenario names are written with every character other than a letter of
    a-z or A-Z or a digit replaced by an underscore: the result has the length
    of the name, consists of such letters, digits and underscores only, so it
    holds no path separator and no dot, and a name that is made of letters and
    digits only is written as it is. *)
Theorem recording_names_are_plain_words (name : string) :
  all_chars (fun c => is_alphanumeric c || Ascii.eqb c "_") (sanitize name) = true
  /\ String.length (sanitize name) = String.length name
  /\ ProviderImport.has_char "/" (sanitize name) = false
  /\ ProviderImport.has_char "\" (sanitize name) = false
  /\ ProviderImport.has_char "." (sanitize name) = false
  /\ sanitize (sanitize name) = sanitize name
  /\ (all_chars is_alphanumeric name = true -> sanitize name = name).
Proof.
  split; [apply sanitize_chars|]. split; [apply sanitize_length|].
  split; [apply sanitize_without; reflexivity|].
  split; [apply sanitize_without; reflexivity|].
  split; [apply sanitize_without; reflexivity|].
  split; [apply sanitize_idempotent | apply sanitize_alphanumeric].
Qed.

(** ** The properties at concrete steps and sessions *)

Lemma missing_selector_is_refused_witness :
  let s := launched_tester plain_options empty_disk [] in
  dispatch clickNothing s = (Err (Thrown "No selector specified for click action"), s)
  /\ executeStep clickNothing 1 "app" "scenario" 1 s
     = (Err (Thrown "No selector specified for click action"),
        emit (ErrorExecutingStep 2 "click" (Thrown "No selector specified for click action")) s).
Proof.
  destruct (missing_selector_is_refused clickNothing 1 "app" "scenario" 1
              (launched_tester plain_options empty_disk [])) as [H1 H2].
  - unfold selectorActions. apply elem_of_cons. left. reflexivity.
  - reflexivity.
  - split; [exact H1 | apply H2; reflexivity].
Defined.

Lemma speak_needs_one_source_witness :
  let both := mkStep "speak" None (Some "hello") (Some "greeting.wav") None None None None
                None None None None in
  let missing := mkStep "speak" None None (Some "missing.wav") None None None None
                   None None None None in
  let s := launched_tester plain_options greeting_assets [] in
  dispatch both s = (Err (Thrown "Cannot specify both text and file for speak action"), s)
  /\ dispatch missing s = (Err (Thrown "Audio file not found: missing.wav"), s).
Proof.
  split.
  - apply (speak_needs_one_source
             (mkStep "speak" None (Some "hello") (Some "greeting.wav") None None None None
                None None None None)
             (launched_tester plain_options greeting_assets []) eq_refl); reflexivity.
  - apply (speak_needs_one_source
             (mkStep "speak" None None (Some "missing.wav") None None None None
                None None None None)
             (launched_tester plain_options greeting_assets []) eq_refl);
      [reflexivity | reflexivity |].
    intros Hin. apply list_elem_of_singleton in Hin. discriminate Hin.
Defined.

Lemma empty_text_fills_but_does_not_type_witness :
  let fill := mkStep "fill" (Some "#name") (Some "") None None None None None
                None None None None in
  let s := launched_tester plain_options empty_disk (replies 2) in
  dispatch fill s
  = (Ok HUndefined,
     set_script [] (emit (Call (EvalFill "#name" "")) (emit (Call (WaitForSelector "#name")) s))).
Proof.
  apply (empty_text_fills_but_does_not_type
           (mkStep "fill" (Some "#name") (Some "") None None None None None
              None None None None)
           (launched_tester plain_options empty_disk (replies 2)) "#name"
           VUndefined VUndefined [] eq_refl);
    [discriminate | reflexivity | reflexivity | reflexivity].
Defined.

Lemma checkbox_is_clicked_only_to_change_witness :
  let agree := mkStep "select" (Some "#agree") None None None None None None
                 (Some true) None None None in
  let answers checked :=
    [Reply (inr VUndefined); Reply (inr (VElementInfo "INPUT" (Some "checkbox") false));
     Reply (inr (VBool checked)); Reply (inr VUndefined)] in
  phases (trace (dispatch agree (launched_tester plain_options empty_disk (answers true))).2)
  = [Calls (WaitForSelector "#agree"); Calls (EvalElementInfo "#agree");
     Calls (EvalChecked "#agree")]
  /\ phases (trace (dispatch agree (launched_tester plain_options empty_disk (answers false))).2)
     = [Calls (WaitForSelector "#agree"); Calls (EvalElementInfo "#agree");
        Calls (EvalChecked "#agree"); Calls (Click "#agree")].
Proof.
  split.
  - apply (checkbox_is_clicked_only_to_change
             (mkStep "select" (Some "#agree") None None None None None None
                (Some true) None None None)
             (launched_tester plain_options empty_disk
                [Reply (inr VUndefined);
                 Reply (inr (VElementInfo "INPUT" (Some "checkbox") false));
                 Reply (inr (VBool true)); Reply (inr VUndefined)])
             "#agree" VUndefined VUndefined false true [] eq_refl eq_refl);
      [discriminate | reflexivity].
  - apply (checkbox_is_clicked_only_to_change
             (mkStep "select" (Some "#agree") None None None None None None
                (Some true) None None None)
             (launched_tester plain_options empty_disk
                [Reply (inr VUndefined);
                 Reply (inr (VElementInfo "INPUT" (Some "checkbox") false));
                 Reply (inr (VBool false)); Reply (inr VUndefined)])
             "#agree" VUndefined VUndefined false false [] eq_refl eq_refl);
      [discriminate | reflexivity].
Defined.

Lemma executeStep_records_requested_metrics_witness :
  let recording := mkEventData None "AAAA" "audio/wav" 16000 1 16 in
  let s := set_page true
             (construct (mkOptions false true false false true None) empty_disk 0
                (cooperative recording 8 "polite")) in
  let step := listenStep "Is the answer polite?" in
  executeStep step 3 "app" "scenario" 1 s
  = (Ok tt,
     emit_all [LogElapsed 1200;
               RecordStepMetric "app" "scenario" 1 3 "listen" "score" (VNumber 8)]
       (dispatch step s).2).
Proof.
  apply (executeStep_records_requested_metrics (listenStep "Is the answer polite?") 3
           "app" "scenario" 1
           (set_page true
              (construct (mkOptions false true false false true None) empty_disk 0
                 (cooperative (mkEventData None "AAAA" "audio/wav" 16000 1 16) 8 "polite")))
           (dispatch (listenStep "Is the answer polite?")
              (set_page true
                 (construct (mkOptions false true false false true None) empty_disk 0
                    (cooperative (mkEventData None "AAAA" "audio/wav" 16000 1 16) 8
                       "polite")))).2
           (HObject [("score", VNumber 8)]) eq_refl).
  vm_compute. reflexivity.
Defined.

Lemma launch_opens_one_session_witness :
  let s := construct (mkOptions false true false true false None) empty_disk 0 (answers 7) in
  let s' := (launch "https://agent.example/" s).2 in
  browser s' = true /\ page s' = true
  /\ phases (trace s')
     = [Calls GetInstalledBrowsers; Calls (LaunchWithStream "/cache/chrome/121/chrome");
        Calls BrowserVersion;
        Calls ClearPermissionOverrides; Calls (OverridePermissions "https://agent.example/");
        Calls NewPage; Calls (ExposeFunction "__publishEvent")]
  /\ launch "file:///other.html" s' = (Ok tt, s').
Proof.
  set (s := construct (mkOptions false true false true false None) empty_disk 0 (answers 7)).
  destruct (launch_opens_one_session "https://agent.example/" "file:///other.html"
              s (launch "https://agent.example/" s).2 eq_refl)
    as (Hbrowser & Hpage & (path & Hplan & Hpath) & Hagain);
    [vm_compute; reflexivity|].
  cbv zeta. split; [exact Hbrowser|]. split; [exact Hpage|]. split; [|exact Hagain].
  rewrite Hplan.
  pose proof (Hpath [] two_chromes (replies 6) eq_refl eq_refl eq_refl) as Hchrome.
  vm_compute in Hchrome. injection Hchrome as <-. reflexivity.
Defined.

Lemma close_releases_in_order_witness :
  let s := launched_tester (mkOptions false false false true false None) empty_disk
             [Reply (inr VUndefined); Reply (inl (External "server is not running"))] in
  browser (close s).2 = false /\ page (close s).2 = false
  /\ recordingStream (close s).2 = false
  /\ phases (trace (close s).2) = [Calls BrowserClose; Calls WssClose].
Proof.
  apply (close_releases_in_order
           (launched_tester (mkOptions false false false true false None) empty_disk
              [Reply (inr VUndefined); Reply (inl (External "server is not running"))])
           (close (launched_tester (mkOptions false false false true false None) empty_disk
                     [Reply (inr VUndefined);
                      Reply (inl (External "server is not running"))])).2 eq_refl).
  vm_compute. reflexivity.
Defined.

Lemma completed_run_is_reported_witness :
  let r := runScenario "file:///widget.html" [hoverStep] [] "app" "scenario" 1 fresh_session in
  r.1 = Ok tt /\ EndRun "app" "scenario" 1 true ∈ trace r.2.
Proof.
  set (s0 := (scenarioSetup "file:///widget.html" "app" "scenario" 1 fresh_session).2).
  set (sa := (executeSteps [hoverStep] 0 "app" "scenario" 1 s0).2).
  set (s2 := (sleep 500 sa).2).
  destruct (completed_run_is_reported "file:///widget.html" [hoverStep] [] "app" "scenario" 1
              fresh_session s0 sa sa s2) as [Hr Hend];
    try (vm_compute; reflexivity).
  cbv zeta. split.
  - rewrite Hr. vm_compute. reflexivity.
  - apply Hend; [vm_compute; reflexivity|]. rewrite Hr. vm_compute. discriminate.
Defined.

Lemma sleep_needs_a_nonzero_time_witness :
  let nap := mkStep "sleep" None None None None (Some 0) None None None None None None in
  let s := launched_tester plain_options empty_disk (replies 1) in
  dispatch nap s = (Err (Thrown "No time specified for sleep action"), s).
Proof.
  apply (sleep_needs_a_nonzero_time
           (mkStep "sleep" None None None None (Some 0) None None None None None None)
           (launched_tester plain_options empty_disk (replies 1)) VUndefined [] eq_refl).
  right. reflexivity.
Defined.

Lemma setup_failure_runs_no_step_witness :
  let crash :=
    External ("Could not find Chrome (ver. 121.0.6167.85)"
              +:+ String "010"%char "    at ChromeLauncher.resolveExecutablePath") in
  let s := construct (mkOptions false true false false true None) empty_disk 0
             [Reply (inr (VBrowsers [])); Reply (inl crash)] in
  let r := runScenario "https://agent.example/" [hoverStep] [clickNothing] "app" "scenario" 1 s in
  r.1 = Err crash
  /\ trace r.2 = [BeginRun "app" "scenario" 1; Call GetInstalledBrowsers;
                  LogLine "Installed browsers"; Call PuppeteerLaunch;
                  ErrorDuringScenario (External "Could not find Chrome (ver. 121.0.6167.85)");
                  EndRun "app" "scenario" 1 false].
Proof.
  intros crash s r. subst r.
  destruct (setup_failure_runs_no_step "https://agent.example/" [hoverStep] [clickNothing]
              "app" "scenario" 1 s
              (scenarioSetup "https://agent.example/" "app" "scenario" 1 s).2
              crash) as [Hr _].
  - vm_compute. reflexivity.
  - cbv zeta in Hr. rewrite Hr. vm_compute. split; reflexivity.
Defined.

End StepProperties.

(* ===================================================================== *)
(** * Further properties of provider-import.js *)
(* ===================================================================== *)

Module ProviderImportProperties.
Import ProviderImport ProviderImportProofs.

(** ** Every attempt sends the same request *)

Lemma configure_loop_requests (reply : nat -> FetchResult unit) (assistantId newName : string) :
  forall fuel attempt,
    Forall (fun e => is_request e = true -> e = ConfigureRequest assistantId newName)
      (configure_loop fuel attempt assistantId newName reply).2.
Proof.
  induction fuel as [|fuel IH]; intros attempt; [constructor|].
  cbn [configure_loop].
  destruct (attempt <=? MAX_RETRIES)%nat; [|constructor].
  pose proof (IH (S attempt)) as Hnext.
  destruct (configure_loop fuel (S attempt) assistantId newName reply) as [b t].
  cbn [snd] in Hnext.
  assert (Hretry : forall (o : Effect) (ms : Z),
             is_request o = false ->
             Forall (fun e => is_request e = true -> e = ConfigureRequest assistantId newName)
               (ConfigureRequest assistantId newName :: o :: Sleep ms :: t)).
  { intros o ms Ho. repeat constructor; [congruence|discriminate|exact Hnext]. }
  assert (Hstop : forall (o : Effect),
             is_request o = false ->
             Forall (fun e => is_request e = true -> e = ConfigureRequest assistantId newName)
               [ConfigureRequest assistantId newName; o]).
  { intros o Ho. repeat constructor. congruence. }
  destruct (reply attempt) as [m|r].
  - destruct (attempt <? MAX_RETRIES)%nat; cbn [snd];
      [apply Hretry | apply Hstop]; reflexivity.
  - destruct (ok r); [apply Hstop; reflexivity|].
    destruct ((status r =? 404) && (attempt <? MAX_RETRIES)%nat) eqn:H404; cbn [snd].
    + apply Hretry. reflexivity.
    + destruct (text r).
      * apply Hstop. reflexivity.
      * destruct (attempt <? MAX_RETRIES)%nat; cbn [snd];
          [apply Hretry | apply Hstop]; reflexivity.
Qed.

Lemma all_equal_replicate {A} (x : A) (l : list A) :
  Forall (fun y => y = x) l -> l = replicate (length l) x.
Proof.
  induction 1 as [|y l Hy _ IH]; [reflexivity|]. simpl. rewrite Hy, <- IH. reflexivity.
Qed.

Lemma append_assoc (s1 s2 s3 : string) : (s1 +:+ s2) +:+ s3 = s1 +:+ (s2 +:+ s3).
Proof.
  induction s1 as [|c s1 IH]; [reflexivity|].
  change (String c ((s1 +:+ s2) +:+ s3) = String c (s1 +:+ (s2 +:+ s3))).
  f_equal. exact IH.
Qed.

Lemma dash_colons_dots_clean (s : string) :
  has_char ":" (dash_colons_dots s) = false /\ has_char "." (dash_colons_dots s) = false.
Proof.
  induction s as [|c s [IH1 IH2]]; [split; reflexivity|].
  cbn [dash_colons_dots has_char]. rewrite IH1, IH2, !orb_false_r.
  destruct (Ascii.eqb_spec c ":") as [->|Hc]; [split; reflexivity|]. cbn [orb].
  destruct (Ascii.eqb_spec c ".") as [->|Hd]; [split; reflexivity|].
  split; apply Ascii.eqb_neq; congruence.
Qed.

Lemma slice0_clean (c : ascii) (n : nat) :
  forall s, has_char c s = false -> has_char c (slice0 n s) = false.
Proof.
  induction n as [|n IH]; intros s Hs; [reflexivity|].
  destruct s as [|c' s]; [reflexivity|].
  cbn [slice0 has_char] in *. apply orb_false_iff in Hs as [H1 H2].
  rewrite H1, (IH s H2). reflexivity.
Qed.

Lemma slice0_length (n : nat) : forall s, (String.length (slice0 n s) <= n)%nat.
Proof.
  induction n as [|n IH]; intros s; [simpl; lia|].
  destruct s as [|c s]; simpl; [lia|]. specialize (IH s). lia.
Qed.

(** X22.  The new name of an imported assistant is computed once, before
    the first attempt: every configuration request of a run, the first one
    and each retry, is addressed to the same assistant and carries the same
    name.  That name ends in a time stamp of at most 19 characters in which
    the colons and the dot of the ISO time are replaced by dashes. *)
Theorem configure_requests_are_identical (w : Remote) (assistantId : string)
    (assistantName : option string) (provider : string) :
  let r := configureImportedAssistant w assistantId assistantName provider in
  let stamp := slice0 19 (dash_colons_dots (iso_now w)) in
  filter (fun e => is_request e = true) r.2
  = replicate (last_attempt (configure_reply w))
      (ConfigureRequest assistantId (configuredName assistantName provider (iso_now w)))
  /\ (exists label, configuredName assistantName provider (iso_now w)
                    = label +:+ "_" +:+ stamp)
  /\ has_char ":" stamp = false /\ has_char "." stamp = false
  /\ (String.length stamp <= 19)%nat.
Proof.
  intros r stamp. split; [|split; [|split; [|split]]].
  - destruct (configure_requests w assistantId assistantName provider) as [Hk _].
    fold r in Hk. unfold requests in Hk. rewrite <- Hk.
    apply all_equal_replicate.
    pose proof (configure_loop_requests (configure_reply w) assistantId
                  (configuredName assistantName provider (iso_now w)) (S MAX_RETRIES) 1)
      as Hall.
    change (configure_loop _ _ _ _ _) with r in Hall.
    apply list.Forall_forall. intros e He.
    apply list_elem_of_filter in He as [Hreq Hin].
    rewrite list.Forall_forall in Hall. apply (Hall e Hin Hreq).
  - unfold configuredName. fold stamp.
    eexists. rewrite <- append_assoc. reflexivity.
  - apply slice0_clean, dash_colons_dots_clean.
  - apply slice0_clean, dash_colons_dots_clean.
  - apply slice0_length.
Qed.

(** ** The requests of an import *)

Lemma configure_loop_effects (reply : nat -> FetchResult unit) (assistantId newName : string) :
  forall fuel attempt,
    Forall (fun e => is_configuration e = true)
      (configure_loop fuel attempt assistantId newName reply).2.
Proof.
  induction fuel as [|fuel IH]; intros attempt; [constructor|].
  cbn [configure_loop].
  destruct (attempt <=? MAX_RETRIES)%nat; [|constructor].
  pose proof (IH (S attempt)) as Hnext.
  destruct (configure_loop fuel (S attempt) assistantId newName reply) as [b t].
  cbn [snd] in Hnext.
  destruct (reply attempt) as [m|r].
  - destruct (attempt <? MAX_RETRIES)%nat; cbn [snd]; repeat constructor; exact Hnext.
  - destruct (ok r); [repeat constructor|].
    destruct ((status r =? 404) && (attempt <? MAX_RETRIES)%nat); cbn [snd].
    + repeat constructor. exact Hnext.
    + destruct (text r); [repeat constructor|].
      destruct (attempt <? MAX_RETRIES)%nat; cbn [snd]; repeat constructor; exact Hnext.
Qed.

Lemma configuration_effects (w : Remote) (assistantId : string)
    (assistantName : option string) (provider : string) :
  Forall (fun e => is_configuration e = true)
    (configureImportedAssistant w assistantId assistantName provider).2.
Proof. apply configure_loop_effects. Qed.

Section ImportProperties.
Context (parseDate : string -> option Z).

(** What [importAssistantsFromProvider] does after its two requests. *)
Lemma import_unfolded (w : Remote) (provider providerApiKey : string)
    (requested : option string) :
  provider ∈ SUPPORTED_PROVIDERS ->
  let r := importAssistantsFromProvider parseDate w provider providerApiKey requested in
  let secretRequest :=
    CreateSecretRequest (provider +:+ "_import_" +:+ pretty (date_now_secret w))
      providerApiKey in
  match created_secret w with
  | None => exists e, r = (inl e, [secretRequest; ErrorFailedToImport provider])
  | Some secret =>
      let importRequest := ImportRequest provider (secret_identifier secret) [requested] in
      (exists e, r = (inl e, [secretRequest; importRequest; ErrorFailedToImport provider])
                 /\ forall a rest, imported w = Some (a :: rest) -> importId_of a <> requested)
      \/ (exists a rest tail,
            imported w = Some (a :: rest) /\ importId_of a = requested
            /\ r = (inr (mkImportResult [mkImportedRef (id a) (name a) requested] (id a)),
                    secretRequest :: importRequest :: tail)
            /\ (tail = [LogReused (id a)]
                \/ tail = LogImported (id a)
                          :: (configureImportedAssistant w (id a) (name a) provider).2))
  end.
Proof.
  intros Hprov r secretRequest. subst r.
  unfold importAssistantsFromProvider, createIntegrationSecret, created_secret, imported.
  rewrite bool_decide_eq_true_2 by exact Hprov. cbn [negb].
  destruct (secret_reply w) as [m|rs]; [eexists; reflexivity|].
  destruct (ok rs).
  2: { destruct (text rs); eexists; reflexivity. }
  destruct (json rs) as [secret|]; [|eexists; reflexivity].
  cbn [app]. cbv zeta.
  destruct (import_reply w) as [m|ri].
  { left. eexists. split; [reflexivity|]. intros a rest H. discriminate H. }
  destruct (ok ri); cbn [negb].
  2: { left. destruct (text ri); eexists; (split; [reflexivity|]);
       intros a rest H; discriminate H. }
  destruct (json ri) as [data|].
  2: { left. eexists. split; [reflexivity|]. intros a rest H. discriminate H. }
  cbn [fmap option_fmap option_map].
  destruct (default [] data) as [|a rest] eqn:Hdata.
  { left. eexists. split; [reflexivity|]. intros a rest H. discriminate H. }
  change (import_metadata a ≫= import_id) with (importId_of a).
  change (import_metadata a ≫= imported_at) with (importedAt_of a).
  case_bool_decide as Hid; cbn [negb].
  - right. exists a, rest. subst requested.
    destruct (isReused parseDate (date_now_check w) (importedAt_of a)).
    + eexists. split; [reflexivity|]. split; [reflexivity|]. split; [reflexivity|].
      left. reflexivity.
    + eexists. split; [reflexivity|]. split; [reflexivity|]. split; [reflexivity|].
      right. reflexivity.
  - left. eexists. split; [reflexivity|]. intros a' rest' H.
    injection H as -> _. exact Hid.
Qed.

(** X23.  The order of the requests of an import.  An unsupported provider
    is refused before anything is sent.  Otherwise the secret is created
    first, from the provider's key and under a name made of the provider and
    the current time; the import request follows only when the secret
    exists, refers to the key by the identifier that the API returned for
    that secret, and asks for exactly the requested assistant; neither request
    is ever repeated. *)
Theorem import_uses_the_created_secret (w : Remote) (provider providerApiKey : string)
    (requested : option string) :
  let r := importAssistantsFromProvider parseDate w provider providerApiKey requested in
  (provider ∉ SUPPORTED_PROVIDERS -> r = (inl (UnsupportedProvider provider), []))
  /\ (provider ∈ SUPPORTED_PROVIDERS ->
      exists rest,
        r.2 = CreateSecretRequest (provider +:+ "_import_" +:+ pretty (date_now_secret w))
                providerApiKey :: rest
        /\ match created_secret w with
           | None => rest = [ErrorFailedToImport provider]
           | Some secret =>
               exists rest',
                 rest = ImportRequest provider (secret_identifier secret) [requested] :: rest'
                 /\ Forall (fun e => is_secret_or_import e = false) rest'
           end).
Proof.
  intros r. split.
  - intros Hnot. subst r. unfold importAssistantsFromProvider.
    rewrite bool_decide_eq_false_2 by exact Hnot. reflexivity.
  - intros Hprov.
    pose proof (import_unfolded w provider providerApiKey requested Hprov) as H.
    cbv zeta in H. fold r in H.
    destruct (created_secret w) as [secret|].
    + destruct H as [(e & -> & _) | (a & rest & tail & _ & _ & -> & Htail)].
      * eexists. split; [reflexivity|]. eexists. split; [reflexivity|].
        repeat constructor.
      * eexists. split; [reflexivity|]. eexists. split; [reflexivity|].
        destruct Htail as [-> | ->]; [repeat constructor|].
        constructor; [reflexivity|].
        eapply Forall_impl; [apply configuration_effects|].
        intros e He. destruct e; try reflexivity; discriminate He.
    + destruct H as (e & ->). eexists. split; reflexivity.
Qed.

(** X24.  The outcome of an import.  Once the provider is accepted, every
    failure is reported on the console, as the last thing the function does
    before it rethrows.  A success reports no failure and returns exactly one
    assistant: the first one of the response, under its Telnyx id, with the
    requested import id, even when the response lists more. *)
Theorem import_outcome_is_reported (w : Remote) (provider providerApiKey : string)
    (requested : option string) :
  let r := importAssistantsFromProvider parseDate w provider providerApiKey requested in
  (forall e, r.1 = inl e -> provider ∈ SUPPORTED_PROVIDERS ->
     last r.2 = Some (ErrorFailedToImport provider))
  /\ (forall result, r.1 = inr result ->
        (ErrorFailedToImport provider ∉ r.2)
        /\ exists a rest,
             imported w = Some (a :: rest) /\ importId_of a = requested
             /\ result = mkImportResult [mkImportedRef (id a) (name a) requested] (id a)).
Proof.
  intros r.
  destruct (decide (provider ∈ SUPPORTED_PROVIDERS)) as [Hprov|Hnot].
  2: { assert (Hr : r = (inl (UnsupportedProvider provider), [])).
       { subst r. unfold importAssistantsFromProvider.
         rewrite bool_decide_eq_false_2 by exact Hnot. reflexivity. }
       rewrite Hr. split; [intros e _ Hin; contradiction | intros res H; discriminate H]. }
  pose proof (import_unfolded w provider providerApiKey requested Hprov) as H.
  cbv zeta in H. fold r in H.
  destruct (created_secret w) as [secret|].
  - destruct H as [(e & -> & _) | (a & rest & tail & Himp & Hid & -> & Htail)].
    + split; [intros e' _ _; reflexivity | intros res H; discriminate H].
    + split; [intros e' H; discriminate H|].
      intros res Hres. injection Hres as <-. split.
      * intros Hin.
        apply elem_of_cons in Hin as [Hin|Hin]; [discriminate Hin|].
        apply elem_of_cons in Hin as [Hin|Hin]; [discriminate Hin|].
        destruct Htail as [-> | ->].
        -- apply list_elem_of_singleton in Hin. discriminate Hin.
        -- apply elem_of_cons in Hin as [Hin|Hin]; [discriminate Hin|].
           pose proof (configuration_effects w (id a) (name a) provider) as Hall.
           rewrite list.Forall_forall in Hall. specialize (Hall _ Hin). discriminate Hall.
      * exists a, rest. repeat split; assumption.
  - destruct H as (e & ->).
    split; [intros e' _ _; reflexivity | intros res H; discriminate H].
Qed.

End ImportProperties.

(** ** enableWebCalls *)

Lemma default_widget_settings_size : size DEFAULT_WIDGET_SETTINGS = 11%nat.
Proof. vm_compute. reflexivity. Qed.

Lemma webCallsBody_widget_nonempty (assistant : option AssistantSettings) :
  (0 < size (body_widget_settings (webCallsBody assistant)))%nat.
Proof.
  unfold webCallsBody.
  destruct (assistant ≫= widget_settings) as [settings|]; cbn [body_widget_settings].
  - destruct (0 <? size settings)%nat eqn:Hsize; cbn [body_widget_settings].
    + apply Nat.ltb_lt, Hsize.
    + rewrite default_widget_settings_size. lia.
  - rewrite default_widget_settings_size. lia.
Qed.

Lemma webCallsBody_telephony (assistant : option AssistantSettings) :
  body_telephony_settings (webCallsBody assistant)
  = <["supports_unauthenticated_web_calls" := JBool true]>
      (default ∅ (assistant ≫= telephony_settings)).
Proof.
  unfold webCallsBody.
  destruct (assistant ≫= widget_settings) as [settings|]; [|reflexivity].
  destruct (0 <? size settings)%nat; reflexivity.
Qed.

(** X25.  [enableWebCalls] changes one setting and keeps the others.  In
    the body it sends, the telephony settings have
    [supports_unauthenticated_web_calls] set to [true] and every other field
    as the assistant has it; the widget settings are those of the assistant
    when it has some, and the defaults otherwise, so they are never empty.
    The body computed from an assistant that already has the settings of a
    body is that body again.  Exactly one request is sent, and the function
    returns [true] when the response is successful and throws otherwise: it
    never returns [false]. *)
Theorem enableWebCalls_keeps_other_settings (reply : FetchResult unit)
    (assistantId : string) (assistant : option AssistantSettings) :
  let body := webCallsBody assistant in
  let r := enableWebCalls reply assistantId assistant in
  body_telephony_settings body !! "supports_unauthenticated_web_calls" = Some (JBool true)
  /\ (forall field, field <> "supports_unauthenticated_web_calls" ->
        body_telephony_settings body !! field
        = default ∅ (assistant ≫= telephony_settings) !! field)
  /\ (forall settings, assistant ≫= widget_settings = Some settings ->
        (0 < size settings)%nat -> body_widget_settings body = settings)
  /\ (0 < size (body_widget_settings body))%nat
  /\ webCallsBody (Some (applied body)) = body
  /\ (exists before after,
        r.2 = before ++ EnableRequest assistantId body :: after
        /\ (forall i b, EnableRequest i b ∉ before) /\ (forall i b, EnableRequest i b ∉ after))
  /\ r.1 <> inr false
  /\ (r.1 = inr true <-> succeeds reply = true).
Proof.
  intros body r.
  split; [|split; [|split; [|split; [|split; [|split; [|split]]]]]].
  - subst body. rewrite webCallsBody_telephony. apply lookup_insert_eq.
  - intros field Hne. subst body. rewrite webCallsBody_telephony.
    apply lookup_insert_ne. congruence.
  - intros settings Hw Hsize. subst body. unfold webCallsBody. rewrite Hw.
    apply Nat.ltb_lt in Hsize. rewrite Hsize. reflexivity.
  - apply webCallsBody_widget_nonempty.
  - pose proof (webCallsBody_widget_nonempty assistant) as Hsize. fold body in Hsize.
    apply Nat.ltb_lt in Hsize.
    unfold webCallsBody at 1. cbn [mbind option_bind applied widget_settings
                                     telephony_settings default from_option id].
    rewrite Hsize. destruct body as [telephony widget] eqn:Hbody.
    cbn [body_telephony_settings body_widget_settings]. f_equal.
    assert (Ht : telephony = body_telephony_settings (webCallsBody assistant)).
    { fold body. rewrite Hbody. reflexivity. }
    rewrite Ht, webCallsBody_telephony. apply insert_insert_eq.
  - exists [LogEnabling assistantId].
    subst r. unfold enableWebCalls. fold body.
    destruct reply as [m|resp].
    + exists []. split; [reflexivity|]. split; intros i b Hin.
      * apply list_elem_of_singleton in Hin. discriminate Hin.
      * apply elem_of_nil in Hin. exact Hin.
    + destruct (ok resp); cbn [negb].
      * exists [LogEnabled]. split; [reflexivity|]. split; intros i b Hin;
          apply list_elem_of_singleton in Hin; discriminate Hin.
      * destruct (text resp); exists []; (split; [reflexivity|]); split; intros i b Hin;
          try (apply list_elem_of_singleton in Hin; discriminate Hin);
          apply elem_of_nil in Hin; exact Hin.
  - subst r. unfold enableWebCalls. destruct reply as [m|resp]; [discriminate|].
    destruct (ok resp); cbn [negb]; [discriminate|]. destruct (text resp); discriminate.
  - subst r. unfold enableWebCalls, succeeds. destruct reply as [m|resp].
    + split; discriminate.
    + destruct (ok resp); cbn [negb]; [split; reflexivity|].
      destruct (text resp); split; discriminate.
Qed.

End ProviderImportProperties.

(* ===================================================================== *)
(** * Properties of index.js *)
(* ===================================================================== *)

Module IndexProperties.
Import Index.

(** ** Splitting and joining *)

Lemma split_nonnil (c : ascii) (s : string) : split c s <> [].
Proof.
  destruct s as [|a s]; [discriminate|]. cbn [split].
  destruct (Ascii.eqb a c); [discriminate|]. destruct (split c s); discriminate.
Qed.

Lemma split_clean (c : ascii) (s : string) :
  ProviderImport.has_char c s = false -> split c s = [s].
Proof.
  induction s as [|a s IH]; [reflexivity|]. cbn [ProviderImport.has_char split].
  intros H. apply orb_false_iff in H as [Ha Hs].
  rewrite Ascii.eqb_sym, Ha, (IH Hs). reflexivity.
Qed.

Lemma split_at_first (c : ascii) (k v : string) :
  ProviderImport.has_char c k = false -> split c (k +:+ String c v) = k :: split c v.
Proof.
  induction k as [|a k IH]; intros H.
  - change (split c (String c v) = "" :: split c v). cbn [split].
    rewrite Ascii.eqb_refl. reflexivity.
  - cbn [ProviderImport.has_char] in H. apply orb_false_iff in H as [Ha Hk].
    change (split c (String a (k +:+ String c v)) = String a k :: split c v).
    cbn [split]. rewrite Ascii.eqb_sym, Ha, (IH Hk). reflexivity.
Qed.

Lemma concat_cons (sep part : string) (parts : list string) :
  parts <> [] -> String.concat sep (part :: parts) = part +:+ sep +:+ String.concat sep parts.
Proof. destruct parts; [contradiction|reflexivity]. Qed.

Lemma concat_split (c : ascii) (s : string) :
  String.concat (String c "") (split c s) = s.
Proof.
  induction s as [|a s IH]; [reflexivity|]. cbn [split].
  destruct (Ascii.eqb_spec a c) as [->|Hne].
  - rewrite concat_cons by apply split_nonnil. rewrite IH. reflexivity.
  - pose proof (split_nonnil c s) as Hnn.
    destruct (split c s) as [|part parts]; [contradiction|].
    destruct parts as [|part' parts].
    + cbn [String.concat] in *. rewrite IH. reflexivity.
    + rewrite concat_cons by discriminate. rewrite concat_cons in IH by discriminate.
      change (String a (part +:+ String c "" +:+ String.concat (String c "") (part' :: parts))
              = String a s).
      rewrite IH. reflexivity.
Qed.

Lemma split_concat (c : ascii) (parts : list string) :
  parts <> [] -> Forall (fun part => ProviderImport.has_char c part = false) parts ->
  split c (String.concat (String c "") parts) = parts.
Proof.
  induction parts as [|part parts IH]; [contradiction|]. intros _ Hall.
  apply Forall_cons in Hall as [Hpart Hall].
  destruct parts as [|part' parts].
  - cbn [String.concat]. apply split_clean, Hpart.
  - rewrite concat_cons by discriminate.
    change (String c "" +:+ ?x) with (String c x).
    rewrite (split_at_first c part _ Hpart), IH; [reflexivity|discriminate|exact Hall].
Qed.

Lemma has_char_app (c : ascii) (s1 s2 : string) :
  ProviderImport.has_char c (s1 +:+ s2)
  = ProviderImport.has_char c s1 || ProviderImport.has_char c s2.
Proof.
  induction s1 as [|a s1 IH]; [reflexivity|].
  change (ProviderImport.has_char c (String a (s1 +:+ s2))
          = ProviderImport.has_char c (String a s1) || ProviderImport.has_char c s2).
  cbn [ProviderImport.has_char]. rewrite IH, orb_assoc. reflexivity.
Qed.

(** ** One segment of the parameters *)

Lemma parsePair_without_equals (params : gmap string string) (pair : string) :
  ProviderImport.has_char "=" pair = false -> parsePair params pair = params.
Proof.
  intros H. unfold parsePair. rewrite (split_clean _ _ H). cbn [length Nat.ltb Nat.leb].
  rewrite andb_false_r. reflexivity.
Qed.

Lemma parsePair_at_first_equals (params : gmap string string) (key value : string) :
  ProviderImport.has_char "=" key = false ->
  parsePair params (key +:+ "=" +:+ value)
  = if String.eqb key "" then params else assign (trim key) (trim value) params.
Proof.
  intros H. unfold parsePair.
  change (key +:+ "=" +:+ value) with (key +:+ String "=" value).
  rewrite (split_at_first _ key value H).
  pose proof (split_nonnil "=" value) as Hnn.
  destruct (split "=" value) as [|part parts] eqn:Hsplit; [contradiction|].
  rewrite <- Hsplit, (concat_split "=" value), Hsplit.
  cbn [length Nat.ltb Nat.leb]. rewrite andb_true_r.
  destruct (String.eqb key ""); reflexivity.
Qed.

Lemma parseParams_segments (s : string) :
  parseParams (Some s) = foldl parsePair ∅ (split "," s).
Proof. destruct s; reflexivity. Qed.

(** X26.  How [parseParams] reads its text.  The text is cut at every
    comma; a segment is cut at its first equals sign into a key and a value,
    which may itself contain equals signs; both are trimmed.  A segment
    without an equals sign, a segment whose key is empty and a segment whose
    trimmed key is [__proto__] are skipped; a later segment replaces an
    earlier one with the same key.  No text, or the empty text, gives no
    parameters. *)
Theorem parseParams_reads_segments (segments : list string)
    (params : gmap string string) (key value : string) :
  parseParams None = ∅ /\ parseParams (Some "") = ∅
  /\ (segments <> [] ->
      Forall (fun segment => ProviderImport.has_char "," segment = false) segments ->
      parseParams (Some (String.concat "," segments)) = foldl parsePair ∅ segments)
  /\ (ProviderImport.has_char "=" key = false ->
      parsePair params key = params
      /\ parsePair params (key +:+ "=" +:+ value)
         = if String.eqb key "" then params
           else if String.eqb (trim key) "__proto__" then params
           else <[trim key := trim value]> params).
Proof.
  split; [reflexivity|]. split; [reflexivity|]. split.
  - intros Hnn Hall. rewrite parseParams_segments.
    rewrite (split_concat "," segments Hnn Hall). reflexivity.
  - intros Hkey. split; [apply parsePair_without_equals, Hkey|].
    rewrite (parsePair_at_first_equals params key value Hkey). reflexivity.
Qed.

(** ** Reading back a rendered list of parameters *)

Lemma parsePair_plain (params : gmap string string) (key value : string) :
  plain_key key -> plain_value value ->
  parsePair params (key +:+ "=" +:+ value) = <[key := value]> params.
Proof.
  intros (Hne & Hproto & Htrim & _ & Heq) (Hvtrim & _).
  rewrite (parsePair_at_first_equals params key value Heq).
  rewrite (proj2 (String.eqb_neq key "") Hne).
  unfold assign. rewrite Htrim, Hvtrim, (proj2 (String.eqb_neq key "__proto__") Hproto).
  reflexivity.
Qed.

Lemma foldl_parsePair_plain (l : list (string * string)) :
  forall params,
    Forall (fun kv => plain_key kv.1 /\ plain_value kv.2) l ->
    foldl parsePair params ((fun kv => kv.1 +:+ "=" +:+ kv.2) <$> l)
    = foldl (fun m kv => <[kv.1 := kv.2]> m) params l.
Proof.
  induction l as [|[k v] l IH]; intros params Hall; [reflexivity|].
  apply Forall_cons in Hall as [[Hk Hv] Hall]. cbn [fmap list_fmap foldl fst snd].
  rewrite (parsePair_plain params k v Hk Hv). apply IH, Hall.
Qed.

Lemma foldl_insert_lookup (l : list (string * string)) :
  forall (params : gmap string string) (key value : string),
    NoDup l.*1 -> (key, value) ∈ l ->
    foldl (fun m kv => <[kv.1 := kv.2]> m) params l !! key = Some value.
Proof.
  induction l as [|[k v] l IH]; intros params key value Hnd Hin.
  - apply elem_of_nil in Hin. contradiction.
  - cbn [fmap list_fmap fst] in Hnd. apply NoDup_cons in Hnd as [Hk Hnd].
    cbn [foldl fst snd]. apply elem_of_cons in Hin as [Heq|Hin].
    + injection Heq as -> ->. clear IH.
      assert (Hkeep : forall (l' : list (string * string)) (m : gmap string string),
                 k ∉ l'.*1 -> m !! k = Some v ->
                 foldl (fun m kv => <[kv.1 := kv.2]> m) m l' !! k = Some v).
      { induction l' as [|[k' v'] l' IH']; intros m Hnot Hm; [exact Hm|].
        cbn [foldl fst snd]. cbn [fmap list_fmap fst] in Hnot.
        apply not_elem_of_cons in Hnot as [Hne Hnot].
        apply IH'; [exact Hnot|]. rewrite lookup_insert_ne by congruence. exact Hm. }
      apply Hkeep; [exact Hk | apply lookup_insert_eq].
    + apply IH; assumption.
Qed.

(** X27.  [parseParams] reads back what was written.  For a list of
    parameters whose keys are not empty, are not [__proto__], have no comma,
    no equals sign and no white space at their ends, and whose values have no
    comma and no white space at their ends (they may be empty and may contain
    equals signs), parsing the text [key=value,key=value,...] gives each key
    its value, a repeated key the value written last. *)
Theorem parseParams_reads_back (l : list (string * string)) :
  Forall (fun kv => plain_key kv.1 /\ plain_value kv.2) l ->
  parseParams (Some (render l)) = foldl (fun m kv => <[kv.1 := kv.2]> m) ∅ l
  /\ (NoDup l.*1 ->
      forall key value, (key, value) ∈ l -> parseParams (Some (render l)) !! key = Some value)
  /\ (forall key, key ∉ l.*1 -> parseParams (Some (render l)) !! key = None).
Proof.
  intros Hall.
  assert (Heq : parseParams (Some (render l)) = foldl (fun m kv => <[kv.1 := kv.2]> m) ∅ l).
  { destruct l as [|kv l]; [reflexivity|].
    rewrite parseParams_segments. unfold render.
    rewrite (split_concat "," ((fun kv => kv.1 +:+ "=" +:+ kv.2) <$> kv :: l)).
    - apply foldl_parsePair_plain, Hall.
    - discriminate.
    - apply Forall_fmap. eapply Forall_impl; [exact Hall|].
      intros [k v] [(_ & _ & _ & Hk & _) (_ & Hv)]. cbn [fst snd compose] in *.
      rewrite !has_char_app, Hk, Hv. reflexivity. }
  split; [exact Heq|]. split.
  - intros Hnd key value Hin. rewrite Heq. apply foldl_insert_lookup; assumption.
  - intros key Hnot. rewrite Heq. clear Heq Hall.
    assert (Hnone : forall (l' : list (string * string)) (m : gmap string string),
               key ∉ l'.*1 -> m !! key = None ->
               foldl (fun m kv => <[kv.1 := kv.2]> m) m l' !! key = None).
    { induction l' as [|[k' v'] l' IH']; intros m Hn Hm; [exact Hm|].
      cbn [foldl fst snd]. cbn [fmap list_fmap fst] in Hn.
      apply not_elem_of_cons in Hn as [Hne Hn].
      apply IH'; [exact Hn|]. rewrite lookup_insert_ne by congruence. exact Hm. }
    apply Hnone; [exact Hnot | apply lookup_empty].
Qed.

(** ** The runs of a benchmark *)

Section RunProperties.
Context {App Scenario : Type}.

Lemma lookup_bind_uniform {A B} (f : A -> list B) (m : nat) (l : list A) :
  (forall a, length (f a) = m) ->
  forall (i j : nat) (a : A) (b : B),
    l !! i = Some a -> f a !! j = Some b -> (l ≫= f) !! (i * m + j)%nat = Some b.
Proof.
  intros Hlen. induction l as [|a0 l IH]; intros i j a b Hi Hj.
  - rewrite lookup_nil in Hi. discriminate.
  - rewrite bind_cons. destruct i as [|i].
    + injection Hi as ->. cbn [Nat.mul Nat.add]. apply lookup_app_l_Some, Hj.
    + cbn [lookup list_lookup] in Hi.
      rewrite lookup_app_r by (rewrite Hlen; lia).
      rewrite Hlen. replace (S i * m + j - m)%nat with (i * m + j)%nat by lia.
      apply (IH i j a b Hi Hj).
Qed.

Lemma length_bind_uniform {A B} (f : A -> list B) (m : nat) (l : list A) :
  (forall a, length (f a) = m) -> length (l ≫= f) = (length l * m)%nat.
Proof.
  intros Hlen. induction l as [|a l IH]; [reflexivity|].
  rewrite bind_cons, length_app, Hlen, IH. cbn [length]. lia.
Qed.

(** The repetitions of one combination, appended to the runs made so far. *)
Lemma pushRepetitions_spec (repeat : Z) (c : App * Scenario) :
  forall (runs : list (Run App Scenario)),
    pushRepetitions repeat (runs, length runs) c
    = (runs ++ imap (fun i j => mkRun c.1 c.2 j (S (length runs + i)))
                 (seq 0 (Z.to_nat repeat)),
       (length runs + Z.to_nat repeat)%nat).
Proof.
  unfold pushRepetitions. generalize (Z.to_nat repeat) as n.
  induction n as [|n IH] using nat_ind; intros runs.
  - cbn [seq foldl imap]. rewrite app_nil_r, Nat.add_0_r. reflexivity.
  - rewrite seq_S, foldl_snoc, IH. cbn [fst snd Nat.add].
    rewrite imap_app. cbn [imap]. rewrite length_seq, app_assoc, Nat.add_0_r.
    f_equal. lia.
Qed.

Lemma foldl_pushRepetitions (repeat : Z) (combos : list (App * Scenario)) :
  forall (runs : list (Run App Scenario)),
    foldl (pushRepetitions repeat) (runs, length runs) combos
    = (runs ++ imap (fun i x => mkRun x.1.1 x.1.2 x.2 (S (length runs + i)))
                 (combos ≫= (fun c => pair c <$> seq 0 (Z.to_nat repeat))),
       (length runs + length combos * Z.to_nat repeat)%nat).
Proof.
  induction combos as [|c combos IH]; intros runs.
  - cbn. rewrite app_nil_r, Nat.add_0_r. reflexivity.
  - cbn [foldl]. rewrite pushRepetitions_spec.
    set (block := imap (fun i j => mkRun c.1 c.2 j (S (length runs + i)))
                    (seq 0 (Z.to_nat repeat))).
    assert (Hblock : length block = Z.to_nat repeat).
    { subst block. rewrite length_imap, length_seq. reflexivity. }
    replace (length runs + Z.to_nat repeat)%nat with (length (runs ++ block))
      by (rewrite length_app, Hblock; reflexivity).
    rewrite IH. rewrite length_app, Hblock. f_equal; [|cbn [length]; lia].
    rewrite bind_cons, imap_app, <- app_assoc. f_equal. f_equal.
    + subst block. rewrite imap_fmap. apply imap_ext. intros i j _. reflexivity.
    + rewrite length_fmap, length_seq. apply imap_ext. intros i x _. cbn.
      f_equal. lia.
Qed.

Lemma allRuns_closed (applications : list App) (scenarios : list Scenario) (repeat : Z) :
  allRuns applications scenarios repeat
  = imap (fun i x => mkRun x.1.1 x.1.2 x.2 (S i))
      (combinations applications scenarios
         ≫= (fun c => pair c <$> seq 0 (Z.to_nat repeat))).
Proof.
  unfold allRuns.
  pose proof (foldl_pushRepetitions repeat (combinations applications scenarios) []) as H.
  cbn [length app Nat.add] in H. rewrite H. reflexivity.
Qed.

(** X28.  The list of runs of a benchmark, for a whole number of
    repetitions.  Every application is combined with every scenario, and every
    combination is run [repeat] times, so that there are as many runs as
    [totalRuns] announces; the run of the application number [a] with the
    scenario number [s] in its repetition [i] (counted from 0) is the run
    number [(a * scenarios + s) * repeat + i + 1]: the runs are numbered from
    1 onwards in the order of the list, the repetitions of a combination
    follow each other, and the scenarios of an application come before the
    next application. *)
Theorem runs_are_numbered_in_order (applications : list App) (scenarios : list Scenario)
    (repeat : Z) :
  let runs := allRuns applications scenarios repeat in
  let n := Z.to_nat repeat in
  length runs = (length applications * length scenarios * n)%nat
  /\ (0 <= repeat -> Z.of_nat (length runs) = totalRuns applications scenarios repeat)
  /\ (forall k run, runs !! k = Some run -> runNumber run = S k)
  /\ (forall a s i app scenario,
        applications !! a = Some app -> scenarios !! s = Some scenario -> (i < n)%nat ->
        runs !! ((a * length scenarios + s) * n + i)%nat
        = Some (mkRun app scenario i (S ((a * length scenarios + s) * n + i)))).
Proof.
  intros runs n.
  assert (Hcombos : length (combinations applications scenarios)
                    = (length applications * length scenarios)%nat).
  { unfold combinations. apply length_bind_uniform. intros app. cbn beta. apply length_fmap. }
  assert (Hlen : length runs = (length applications * length scenarios * n)%nat).
  { subst runs. rewrite allRuns_closed, length_imap.
    rewrite (length_bind_uniform _ n) by (intros c; cbn beta; rewrite length_fmap; apply length_seq).
    rewrite Hcombos. reflexivity. }
  split; [exact Hlen|]. split; [|split].
  - intros Hrepeat. rewrite Hlen. unfold totalRuns. rewrite Hcombos. subst n.
    rewrite !Nat2Z.inj_mul, Z2Nat.id by exact Hrepeat. reflexivity.
  - intros k run Hk. subst runs. rewrite allRuns_closed, list_lookup_imap in Hk.
    destruct (_ !! k) as [x|]; [|discriminate]. injection Hk as <-. reflexivity.
  - intros a s i app scenario Ha Hs Hi. subst runs.
    rewrite allRuns_closed, list_lookup_imap.
    rewrite (lookup_bind_uniform (fun c => pair c <$> seq 0 n) n _
               ltac:(intros c; cbn beta; rewrite length_fmap; apply length_seq)
               (a * length scenarios + s) i (app, scenario) ((app, scenario), i)).
    + reflexivity.
    + unfold combinations.
      apply (lookup_bind_uniform (fun app => pair app <$> scenarios) (length scenarios) _
               ltac:(intros c; cbn beta; apply length_fmap) a s app (app, scenario) Ha).
      rewrite list_lookup_fmap, Hs. reflexivity.
    + rewrite list_lookup_fmap, lookup_seq_lt by exact Hi. reflexivity.
Qed.

End RunProperties.

(** ** The properties at concrete inputs *)

Lemma parseParams_reads_back_witness :
  parseParams (Some "assistantId=a-1,greeting=x=y,debug=")
  = <["debug" := ""]> (<["greeting" := "x=y"]> (<["assistantId" := "a-1"]> ∅))
  /\ parseParams (Some "assistantId=a-1,greeting=x=y,debug=") !! "greeting" = Some "x=y".
Proof.
  destruct (parseParams_reads_back
              [("assistantId", "a-1"); ("greeting", "x=y"); ("debug", "")]) as (H1 & H2 & _).
  - repeat constructor; try discriminate; vm_compute; reflexivity.
  - split; [exact H1|]. apply H2.
    + apply (bool_decide_unpack (NoDup _)). vm_compute. exact I.
    + apply elem_of_cons. right. apply elem_of_cons. left. reflexivity.
Defined.

End IndexProperties.
